(** * Vectorized scan and aggregation executor: model and properties

    A shallow embedding of the scan protocol (execScan.c), the vector tuple
    slot (execTuples.c, vectorTupleSlot.c) and the aggregation node
    (nodeAgg.c) of the vectorize engine, followed by the properties that the
    design document states about them.

    Conventions of the embedding.
    - A [Datum] is modelled by value: a pass-by-reference datum stands for
      the object it points to, so [datumCopy] and
      [MakeExpandedObjectReadOnly] are the identity and [pfree] has no
      effect.  Memory contexts are not modelled.
    - A C pointer argument that the callee may write through becomes an
      argument and a component of the result.
    - Calls through the function manager are observable events: every
      [FunctionCallInvoke] appends an event to the trace carried by the
      state.
    - [ereport(ERROR)], a NULL dereference and an out-of-bounds array access
      end the computation with a [failure]. *)

From Stdlib Require Import ZArith List Bool Lia.
From stdpp Require Import base option list.
Import ListNotations.

Set Implicit Arguments.

(** ** Outcomes and the state-and-failure monad *)

Inductive failure : Type :=
| ERROR        (* ereport(ERROR) / elog(ERROR): the query is aborted *)
| SEGV         (* NULL dereference or access outside an array *)
| FUEL.        (* the step budget of a loop of the model ran out *)

Inductive outcome (A : Type) : Type :=
| Done (a : A)
| Fail (f : failure).
Arguments Done {A} a.
Arguments Fail {A} f.

Definition M (S A : Type) : Type := S -> outcome (A * S).

Definition ret {S A} (a : A) : M S A := fun s => Done (a, s).

Definition bind {S A B} (m : M S A) (k : A -> M S B) : M S B :=
  fun s => match m s with
           | Done (a, s') => k a s'
           | Fail f => Fail f
           end.

Definition raise {S A} (f : failure) : M S A := fun _ => Fail f.
Definition get {S} : M S S := fun s => Done (s, s).
Definition modify {S} (f : S -> S) : M S unit := fun s => Done (tt, f s).

(** Reading an array cell: outside the array the access is a [SEGV]. *)
Definition deref {S A} (o : option A) : M S A :=
  match o with Some a => ret a | None => raise SEGV end.

Declare Scope monad_scope.
Delimit Scope monad_scope with monad.
Notation "x <- m ;; k" := (bind m (fun x => k))
  (at level 62, m at next level, right associativity) : monad_scope.
Notation "m ;;; k" := (bind m (fun _ => k))
  (at level 62, right associativity) : monad_scope.
Local Open Scope monad_scope.

(** ** Function manager *)

Definition Datum : Type := Z.
Definition Oid : Type := Z.
Bind Scope Z_scope with Datum Oid.
Definition InvalidOid : Oid := 0%Z.
Definition OidIsValid (o : Oid) : bool := negb (o =? InvalidOid)%Z.

Record NullableDatum : Type := mkND { value : Datum; isnull : bool }.

Definition null_datum : NullableDatum := mkND 0%Z true.

(** [FmgrInfo]: the looked-up function.  [fn_addr] is the C function; it
    receives the argument array of the call and either returns a value with
    its null flag or raises an error ([None]). *)
Record FmgrInfo : Type := mkFmgr {
  fn_oid : Oid;
  fn_strict : bool;
  fn_addr : list NullableDatum -> option NullableDatum
}.

(** The call descriptor.  Its [flinfo] pointer is fixed when the descriptor
    is initialized; the model passes the [FmgrInfo] it points to alongside. *)
Record FunctionCallInfoBaseData : Type := mkFcinfo {
  fc_isnull : bool;
  args : list NullableDatum
}.

(** Events of the trace: which kind of support function was invoked, on
    which arguments. *)
Inductive FmgrEvent : Type :=
| EvTransfn (a : list NullableDatum)
| EvFinalfn (a : list NullableDatum)
| EvSerialfn (a : list NullableDatum)
| EvEqualfn (a : list NullableDatum).

Definition Trace : Type := list FmgrEvent.

(** [FunctionCallInvoke(fcinfo)]: record the call, run the function. *)
Definition FunctionCallInvoke (ev : list NullableDatum -> FmgrEvent)
    (flinfo : FmgrInfo) (fcinfo : FunctionCallInfoBaseData)
  : M Trace NullableDatum :=
  modify (fun t => t ++ [ev (args fcinfo)]) ;;;
  match fn_addr flinfo (args fcinfo) with
  | Some r => ret r
  | None => raise ERROR
  end.

(** [FunctionCall2Coll]: two non-null arguments; a NULL result is an error. *)
Definition FunctionCall2Coll (f : FmgrInfo) (a b : Datum) : M Trace Datum :=
  r <- FunctionCallInvoke EvEqualfn f
         (mkFcinfo false [mkND a false; mkND b false]) ;;
  if isnull r then raise ERROR else ret (value r).

Definition DatumGetBool (d : Datum) : bool := negb (d =? 0)%Z.

Definition datumCopy (d : Datum) (typByVal : bool) (typLen : Z) : Datum := d.

Definition MakeExpandedObjectReadOnly (d : Datum) (isnull : bool) (typLen : Z)
  : Datum := d.

(** ** Tuple sort service

    The sorter is an external service.  A sort state holds the rows put so
    far and, once [tuplesort_performsort] ran, the rows it will hand out, in
    order, each with the abbreviated key that [tuplesort_getdatum] reports.
    How the rows are arranged is the sort operator's business: [ts_arrange]. *)

Record SortedRow : Type := mkSR {
  sr_first : NullableDatum;           (* column 1: what tuplesort_getdatum returns *)
  sr_more : list NullableDatum;       (* further columns of a tuple sort *)
  sr_abbrev : Datum
}.

Definition sr_row (r : SortedRow) : list NullableDatum := sr_first r :: sr_more r.

Record Tuplesortstate : Type := mkSort {
  ts_put : list (list NullableDatum);
  ts_arrange : list (list NullableDatum) -> list SortedRow;
  ts_out : list SortedRow
}.

Definition tuplesort_begin (arrange : list (list NullableDatum) -> list SortedRow)
  : Tuplesortstate := mkSort [] arrange [].

Definition tuplesort_performsort (ts : Tuplesortstate) : Tuplesortstate :=
  mkSort (ts_put ts) (ts_arrange ts) (ts_arrange ts (ts_put ts)).

(** ** Per-transition and per-group state (nodeAgg.c) *)

Record AggStatePerTransData : Type := mkPerTrans {
  numInputs : nat;
  numTransInputs : nat;
  transfn_oid : Oid;
  serialfn_oid : Oid;
  deserialfn_oid : Oid;
  aggtranstype : Oid;
  aggshared : bool;
  transfn : FmgrInfo;
  serialfn : FmgrInfo;
  numSortCols : nat;
  numDistinctCols : nat;
  sort_arrange : list (list NullableDatum) -> list SortedRow;
  equalfnOne : FmgrInfo;
  equalfnMulti : list NullableDatum -> list NullableDatum -> option bool;
  initValue : Datum;
  initValueIsNull : bool;
  inputtypeByVal : bool;
  transtypeLen : Z;
  transtypeByVal : bool;
  sortstates : list (option Tuplesortstate);
  transfn_fcinfo : FunctionCallInfoBaseData;
  serialfn_fcinfo : FunctionCallInfoBaseData
}.

Record AggStatePerGroupData : Type := mkPerGroup {
  transValue : Datum;
  transValueIsNull : bool;
  noTransValue : bool
}.

Definition set_sortstates (pt : AggStatePerTransData)
    (ss : list (option Tuplesortstate)) : AggStatePerTransData :=
  mkPerTrans (numInputs pt) (numTransInputs pt) (transfn_oid pt)
    (serialfn_oid pt) (deserialfn_oid pt) (aggtranstype pt) (aggshared pt)
    (transfn pt) (serialfn pt) (numSortCols pt)
    (numDistinctCols pt) (sort_arrange pt) (equalfnOne pt) (equalfnMulti pt)
    (initValue pt) (initValueIsNull pt) (inputtypeByVal pt) (transtypeLen pt)
    (transtypeByVal pt) ss (transfn_fcinfo pt) (serialfn_fcinfo pt).

Definition set_aggshared (pt : AggStatePerTransData) (b : bool)
  : AggStatePerTransData :=
  mkPerTrans (numInputs pt) (numTransInputs pt) (transfn_oid pt)
    (serialfn_oid pt) (deserialfn_oid pt) (aggtranstype pt) b
    (transfn pt) (serialfn pt) (numSortCols pt)
    (numDistinctCols pt) (sort_arrange pt) (equalfnOne pt) (equalfnMulti pt)
    (initValue pt) (initValueIsNull pt) (inputtypeByVal pt) (transtypeLen pt)
    (transtypeByVal pt) (sortstates pt) (transfn_fcinfo pt) (serialfn_fcinfo pt).

Definition set_transfn_fcinfo (pt : AggStatePerTransData)
    (fc : FunctionCallInfoBaseData) : AggStatePerTransData :=
  mkPerTrans (numInputs pt) (numTransInputs pt) (transfn_oid pt)
    (serialfn_oid pt) (deserialfn_oid pt) (aggtranstype pt) (aggshared pt)
    (transfn pt) (serialfn pt) (numSortCols pt)
    (numDistinctCols pt) (sort_arrange pt) (equalfnOne pt) (equalfnMulti pt)
    (initValue pt) (initValueIsNull pt) (inputtypeByVal pt) (transtypeLen pt)
    (transtypeByVal pt) (sortstates pt) fc (serialfn_fcinfo pt).

Definition set_serialfn_fcinfo (pt : AggStatePerTransData)
    (fc : FunctionCallInfoBaseData) : AggStatePerTransData :=
  mkPerTrans (numInputs pt) (numTransInputs pt) (transfn_oid pt)
    (serialfn_oid pt) (deserialfn_oid pt) (aggtranstype pt) (aggshared pt)
    (transfn pt) (serialfn pt) (numSortCols pt)
    (numDistinctCols pt) (sort_arrange pt) (equalfnOne pt) (equalfnMulti pt)
    (initValue pt) (initValueIsNull pt) (inputtypeByVal pt) (transtypeLen pt)
    (transtypeByVal pt) (sortstates pt) (transfn_fcinfo pt) fc.

Definition set_arg (fc : FunctionCallInfoBaseData) (i : nat) (d : NullableDatum)
  : FunctionCallInfoBaseData :=
  mkFcinfo (fc_isnull fc) (<[i := d]> (args fc)).

Definition set_fc_isnull (fc : FunctionCallInfoBaseData) (b : bool)
  : FunctionCallInfoBaseData :=
  mkFcinfo b (args fc).

(** [initialize_aggregate]: (re)initialize one aggregate for the grouping
    set [current_set]. *)
Definition initialize_aggregate (current_set : nat)
    (pertrans : AggStatePerTransData)
  : outcome (AggStatePerTransData * AggStatePerGroupData) :=
  match
    (if (0 <? numSortCols pertrans)%nat then
       match sortstates pertrans !! current_set with
       | None => Fail SEGV
       | Some _ (* an unfinished sort, if any, is ended *) =>
           Done (set_sortstates pertrans
                   (<[current_set := Some (tuplesort_begin (sort_arrange pertrans))]>
                      (sortstates pertrans)))
       end
     else Done pertrans)
  with
  | Fail f => Fail f
  | Done pertrans' =>
      let tv := if initValueIsNull pertrans then initValue pertrans
                else datumCopy (initValue pertrans) (transtypeByVal pertrans)
                       (transtypeLen pertrans) in
      Done (pertrans',
            mkPerGroup tv (initValueIsNull pertrans) (initValueIsNull pertrans))
  end.

(** The executor helper that moves a new by-reference transition value into
    the aggregate context; as the comment in [advance_transition_function]
    says, it sets the datum to 0 when the value is NULL. *)
Definition ExecAggTransReparent (pertrans : AggStatePerTransData)
    (newValue : Datum) (newValueIsNull : bool)
    (oldValue : Datum) (oldValueIsNull : bool) : Datum :=
  if newValueIsNull then 0%Z
  else datumCopy newValue (transtypeByVal pertrans) (transtypeLen pertrans).

(** The loop [for (i = 1; i <= numTransInputs; i++) if (args[i].isnull) ...]:
    [n] cells remain to be looked at, starting at [i]. *)
Fixpoint any_null_arg (a : list NullableDatum) (i n : nat) : outcome bool :=
  match n with
  | O => Done false
  | S n' =>
      match a !! i with
      | None => Fail SEGV
      | Some d => if isnull d then Done true else any_null_arg a (S i) n'
      end
  end.

(** [advance_transition_function]: advance one transition state with the
    inputs preloaded in [pertrans->transfn_fcinfo], positions 1 and up. *)
Definition advance_transition_function
    (pertrans : AggStatePerTransData) (pergroupstate : AggStatePerGroupData)
  : M Trace (AggStatePerTransData * AggStatePerGroupData) :=
  let fcinfo := transfn_fcinfo pertrans in
  let call :=
    (* OK to call the transition function *)
    let fcinfo1 := set_arg fcinfo 0
                     (mkND (transValue pergroupstate)
                           (transValueIsNull pergroupstate)) in
    let fcinfo2 := set_fc_isnull fcinfo1 false in
    match args fcinfo !! 0%nat with
    | None => raise SEGV
    | Some _ =>
        r <- FunctionCallInvoke EvTransfn (transfn pertrans) fcinfo2 ;;
        let fcinfo3 := set_fc_isnull fcinfo2 (isnull r) in
        let newVal :=
          if negb (transtypeByVal pertrans)
             && negb (value r =? transValue pergroupstate)%Z
          then ExecAggTransReparent pertrans (value r) (isnull r)
                 (transValue pergroupstate) (transValueIsNull pergroupstate)
          else value r in
        ret (set_transfn_fcinfo pertrans fcinfo3,
             mkPerGroup newVal (isnull r) (noTransValue pergroupstate))
    end in
  if fn_strict (transfn pertrans) then
    match any_null_arg (args fcinfo) 1 (numTransInputs pertrans) with
    | Fail f => raise f
    | Done true =>
        (* a NULL input: keep the prior transValue *)
        ret (pertrans, pergroupstate)
    | Done false =>
        if noTransValue pergroupstate then
          match args fcinfo !! 1%nat with
          | None => raise SEGV
          | Some a1 =>
              ret (pertrans,
                   mkPerGroup
                     (datumCopy (value a1) (transtypeByVal pertrans)
                        (transtypeLen pertrans))
                     false false)
          end
        else if transValueIsNull pergroupstate then
          (* the transfn returned NULL on a prior cycle: propagate it *)
          ret (pertrans, pergroupstate)
        else call
    end
  else call.

(** The loop of [process_ordered_aggregate_single] over the sorted datums.
    [tuplesort_getdatum] stores each datum into [fcinfo->args[1]]. *)
Fixpoint process_ordered_single_loop (isDistinct : bool) (rows : list SortedRow)
    (oldVal : Datum) (oldIsNull haveOldVal : bool) (oldAbbrevVal : Datum)
    (pertrans : AggStatePerTransData) (pergroupstate : AggStatePerGroupData)
  : M Trace (AggStatePerTransData * AggStatePerGroupData) :=
  match rows with
  | [] => ret (pertrans, pergroupstate)
  | r :: rows' =>
      match args (transfn_fcinfo pertrans) !! 1%nat with
      | None => raise SEGV
      | Some _ =>
          let pertrans1 :=
            set_transfn_fcinfo pertrans
              (set_arg (transfn_fcinfo pertrans) 1 (sr_first r)) in
          let newVal := value (sr_first r) in
          let isNull := isnull (sr_first r) in
          let newAbbrevVal := sr_abbrev r in
          same <- (if isDistinct && haveOldVal then
                     if oldIsNull && isNull then ret true
                     else if negb oldIsNull && negb isNull
                             && (oldAbbrevVal =? newAbbrevVal)%Z
                     then b <- FunctionCall2Coll (equalfnOne pertrans)
                                 oldVal newVal ;;
                          ret (DatumGetBool b)
                     else ret false
                   else ret false) ;;
          if (same : bool) then
            (* equal to prior, so forget this one *)
            process_ordered_single_loop isDistinct rows'
              oldVal oldIsNull haveOldVal oldAbbrevVal pertrans1 pergroupstate
          else
            p <- advance_transition_function pertrans1 pergroupstate ;;
            (* and remember the new one for subsequent equality checks *)
            process_ordered_single_loop isDistinct rows'
              newVal isNull true newAbbrevVal (fst p) (snd p)
      end
  end.

(** [process_ordered_aggregate_single]: run the transition function of a
    DISTINCT or ORDER BY aggregate with one input over its sorted values. *)
Definition process_ordered_aggregate_single (current_set : nat)
    (pertrans : AggStatePerTransData) (pergroupstate : AggStatePerGroupData)
  : M Trace (AggStatePerTransData * AggStatePerGroupData) :=
  match sortstates pertrans !! current_set with
  | Some (Some ts) =>
      let sorted := tuplesort_performsort ts in
      p <- process_ordered_single_loop (0 <? numDistinctCols pertrans)%nat
             (ts_out sorted) 0%Z true false 0%Z pertrans pergroupstate ;;
      (* tuplesort_end; sortstates[current_set] = NULL *)
      ret (set_sortstates (fst p)
             (<[current_set := None]> (sortstates (fst p))), snd p)
  | _ => raise SEGV
  end.

(** Loading the first [n] columns of a sorted row into [args[1..n]]. *)
Fixpoint load_trans_args (fc : FunctionCallInfoBaseData)
    (row : list NullableDatum) (i n : nat) : outcome FunctionCallInfoBaseData :=
  match n with
  | O => Done fc
  | S n' =>
      match row !! i, args fc !! (S i) with
      | Some d, Some _ => load_trans_args (set_arg fc (S i) d) row (S i) n'
      | _, _ => Fail SEGV
      end
  end.

(** The loop of [process_ordered_aggregate_multi]; [prev] is the row kept
    in [slot2] for the DISTINCT comparison. *)
Fixpoint process_ordered_multi_loop (rows : list SortedRow)
    (prev : list NullableDatum) (haveOldValue : bool) (oldAbbrevVal : Datum)
    (pertrans : AggStatePerTransData) (pergroupstate : AggStatePerGroupData)
  : M Trace (AggStatePerTransData * AggStatePerGroupData) :=
  match rows with
  | [] => ret (pertrans, pergroupstate)
  | r :: rows' =>
      let newAbbrevVal := sr_abbrev r in
      differs <- (if (numDistinctCols pertrans =? 0)%nat then ret true
                  else if negb haveOldValue then ret true
                  else if negb (newAbbrevVal =? oldAbbrevVal)%Z then ret true
                  else match equalfnMulti pertrans (sr_row r) prev with
                       | Some b => ret (negb b)
                       | None => raise ERROR
                       end) ;;
      if (differs : bool) then
        match load_trans_args (transfn_fcinfo pertrans) (sr_row r) 0
                (numTransInputs pertrans) with
        | Fail f => raise f
        | Done fc =>
            p <- advance_transition_function
                   (set_transfn_fcinfo pertrans fc) pergroupstate ;;
            if (0 <? numDistinctCols pertrans)%nat then
              process_ordered_multi_loop rows' (sr_row r) true newAbbrevVal
                (fst p) (snd p)
            else
              process_ordered_multi_loop rows' prev haveOldValue oldAbbrevVal
                (fst p) (snd p)
        end
      else
        process_ordered_multi_loop rows' prev haveOldValue oldAbbrevVal
          pertrans pergroupstate
  end.

Definition process_ordered_aggregate_multi (current_set : nat)
    (pertrans : AggStatePerTransData) (pergroupstate : AggStatePerGroupData)
  : M Trace (AggStatePerTransData * AggStatePerGroupData) :=
  match sortstates pertrans !! current_set with
  | Some (Some ts) =>
      let sorted := tuplesort_performsort ts in
      p <- process_ordered_multi_loop (ts_out sorted) [] false 0%Z
             pertrans pergroupstate ;;
      ret (set_sortstates (fst p)
             (<[current_set := None]> (sortstates (fst p))), snd p)
  | _ => raise SEGV
  end.

(** ** Tuple slots (execTuples.c, vectorTupleSlot.c)

    A [VectorTupleSlot] extends the ordinary slot [tts].  For a vector slot
    [tts.tts_values[i]] points to the column [i]; the model keeps the
    pointed-to columns in [columns]. *)

Record TupleTableSlot : Type := mkSlot {
  tts_empty : bool;               (* TTS_FLAG_EMPTY *)
  tts_shouldfree : bool;          (* TTS_FLAG_SHOULDFREE *)
  tts_nvalid : nat;
  tts_values : list Datum;
  tts_isnull : list bool
}.

Record vtype : Type := mkVtype {
  v_dim : nat;
  v_values : list Datum;
  v_isnull : list bool
}.

Definition Buffer : Type := Z.
Bind Scope Z_scope with Buffer.
Definition InvalidBuffer : Buffer := 0%Z.
Definition BufferIsValid (b : Buffer) : bool := negb (b =? InvalidBuffer)%Z.

Record VectorTupleSlot : Type := mkVSlot {
  tts : TupleTableSlot;
  dim : nat;
  bufnum : nat;
  tts_buffers : list Buffer;
  skip : list bool;
  columns : list vtype
}.

Inductive Slot : Type :=
| Plain (t : TupleTableSlot)
| Vector (v : VectorTupleSlot).

Definition base (s : Slot) : TupleTableSlot :=
  match s with Plain t => t | Vector v => tts v end.

Definition TTS_EMPTY (s : Slot) : bool := tts_empty (base s).

(** [TupIsNull(slot)]: a NULL pointer or an empty slot. *)
Definition TupIsNull (s : option Slot) : bool :=
  match s with None => true | Some s => TTS_EMPTY s end.

Definition set_flags (t : TupleTableSlot) (empty shouldfree : bool)
  : TupleTableSlot :=
  mkSlot empty shouldfree (tts_nvalid t) (tts_values t) (tts_isnull t).

(** The loop of [tts_vector_clear] over the first [n] buffers: a valid
    buffer is released and its cell set to [InvalidBuffer]. *)
Fixpoint release_buffers (bufs : list Buffer) (i n : nat) : outcome (list Buffer) :=
  match n with
  | O => Done bufs
  | S n' =>
      match bufs !! i with
      | None => Fail SEGV
      | Some b =>
          release_buffers
            (if BufferIsValid b then <[i := InvalidBuffer]> bufs else bufs)
            (S i) n'
      end
  end.

(** [tts_vector_clear]: nothing happens on an empty slot; otherwise the slot
    is marked empty, [dim] is reset and every row is marked skipped. *)
Definition tts_vector_clear (vslot : VectorTupleSlot) : outcome VectorTupleSlot :=
  if tts_empty (tts vslot) then Done vslot
  else
    match release_buffers (tts_buffers vslot) 0 (bufnum vslot) with
    | Fail f => Fail f
    | Done bufs =>
        Done (mkVSlot
                (mkSlot true false 0 (tts_values (tts vslot))
                   (tts_isnull (tts vslot)))
                0 0 bufs
                (map (fun _ => true) (skip vslot))
                (map (fun c => mkVtype 0 (v_values c) (v_isnull c))
                   (columns vslot)))
    end.

(** The [clear] callback of an ordinary (virtual) slot. *)
Definition tts_virtual_clear (t : TupleTableSlot) : TupleTableSlot :=
  mkSlot true false 0 (tts_values t) (tts_isnull t).

(** [VExecClearTuple] / [ExecClearTuple]: [slot->tts_ops->clear(slot)]. *)
Definition VExecClearTuple (s : Slot) : outcome Slot :=
  match s with
  | Plain t => Done (Plain (tts_virtual_clear t))
  | Vector v =>
      match tts_vector_clear v with
      | Done v' => Done (Vector v')
      | Fail f => Fail f
      end
  end.

(** [tts_vector_init]: the slot is empty and every row is skipped; the
    columns are built by [buildvtype] (vtype.c), one per attribute. *)
Definition tts_vector_init (buildvtype : Oid -> vtype) (atttypids : list Oid)
    (vslot : VectorTupleSlot) : VectorTupleSlot :=
  mkVSlot
    (mkSlot true (tts_shouldfree (tts vslot)) (tts_nvalid (tts vslot))
       (tts_values (tts vslot)) (map (fun _ => false) atttypids))
    0 0
    (map (fun _ => InvalidBuffer) (tts_buffers vslot))
    (map (fun _ => true) (skip vslot))
    (map (fun ty => mkVtype 0 (v_values (buildvtype ty))
                      (v_isnull (buildvtype ty))) atttypids).

(** ** Expression evaluation interface

    The expression evaluator is an external collaborator: a compiled
    expression is the function it computes on the expression context;
    [None] is an error raised during evaluation. *)

Record ExprContext : Type := mkEcxt {
  ecxt_scantuple : option Slot;
  ecxt_innertuple : option Slot;
  ecxt_outertuple : option Slot;
  ecxt_aggvalues : list Datum;
  ecxt_aggnulls : list bool
}.

Definition ExprState : Type := ExprContext -> option NullableDatum.

(** ** Aggregate calls of the plan

    Expression trees are compared with [equal()], node by node. *)

#[warnings="-register-all"]
Inductive Node : Type :=
| mkNode (tag : Z) (fields : list Z) (children : list Node).

Fixpoint equal (a b : Node) : bool :=
  match a, b with
  | mkNode ta fa ca, mkNode tb fb cb =>
      (ta =? tb)%Z
      && bool_decide (fa = fb)
      && (fix equal_children (l1 l2 : list Node) : bool :=
            match l1, l2 with
            | [], [] => true
            | x :: l1', y :: l2' => equal x y && equal_children l1' l2'
            | _, _ => false
            end) ca cb
  end.

Fixpoint equal_list (l1 l2 : list Node) : bool :=
  match l1, l2 with
  | [], [] => true
  | x :: l1', y :: l2' => equal x y && equal_list l1' l2'
  | _, _ => false
  end.

Definition equal_opt (a b : option Node) : bool :=
  match a, b with
  | None, None => true
  | Some x, Some y => equal x y
  | _, _ => false
  end.

Record Aggref : Type := mkAggref {
  aggfnoid : Oid;
  aggtype : Oid;
  aggcollid : Oid;
  inputcollid : Oid;
  ref_aggtranstype : Oid;
  ref_aggdirectargs : list Node;
  ref_args : list Node;
  aggorder : list Node;
  aggdistinct : list Node;
  aggfilter : option Node;
  aggstar : bool;
  aggvariadic : bool;
  aggkind : Z
}.

(** ** Finalization (nodeAgg.c) *)

Record AggStatePerAggData : Type := mkPerAgg {
  aggref : Aggref;
  transno : nat;
  finalfn_oid : Oid;
  finalfn : FmgrInfo;
  numFinalArgs : nat;
  aggdirectargs : list ExprState;
  resulttypeLen : Z;
  resulttypeByVal : bool;
  shareable : bool
}.

Definition set_transno (pa : AggStatePerAggData) (t : nat) : AggStatePerAggData :=
  mkPerAgg (aggref pa) t (finalfn_oid pa) (finalfn pa) (numFinalArgs pa)
    (aggdirectargs pa) (resulttypeLen pa) (resulttypeByVal pa) (shareable pa).

(** Evaluation of the direct arguments, in order. *)
Fixpoint eval_direct_args (es : list ExprState) (econtext : ExprContext)
  : outcome (list NullableDatum) :=
  match es with
  | [] => Done []
  | e :: es' =>
      match e econtext with
      | None => Fail ERROR
      | Some d =>
          match eval_direct_args es' econtext with
          | Done ds => Done (d :: ds)
          | Fail f => Fail f
          end
      end
  end.

(** [finalize_aggregate]: compute the final value of one aggregate.  The
    group state is passed by pointer in C; the model hands it back. *)
Definition finalize_aggregate (econtext : ExprContext)
    (peragg : AggStatePerAggData) (pertrans : AggStatePerTransData)
    (pergroupstate : AggStatePerGroupData)
  : M Trace (NullableDatum * AggStatePerGroupData) :=
  match eval_direct_args (aggdirectargs peragg) econtext with
  | Fail f => raise f
  | Done directs =>
      let anynull := existsb isnull directs in
      res <- (if OidIsValid (finalfn_oid peragg) then
                let i := S (length directs) in
                let a0 := mkND (MakeExpandedObjectReadOnly
                                  (transValue pergroupstate)
                                  (transValueIsNull pergroupstate)
                                  (transtypeLen pertrans))
                               (transValueIsNull pergroupstate) in
                let anynull1 := anynull || transValueIsNull pergroupstate in
                (* fill any remaining argument positions with nulls *)
                let fill := replicate (numFinalArgs peragg - i) null_datum in
                let anynull2 := anynull1 || (i <? numFinalArgs peragg)%nat in
                if fn_strict (finalfn peragg) && anynull2 then
                  (* don't call a strict function with NULL inputs *)
                  ret (mkND 0%Z true)
                else
                  FunctionCallInvoke EvFinalfn (finalfn peragg)
                    (mkFcinfo false
                       (take (numFinalArgs peragg) (a0 :: directs ++ fill)))
              else
                ret (mkND (transValue pergroupstate)
                          (transValueIsNull pergroupstate))) ;;
      ret (mkND (if negb (resulttypeByVal peragg) && negb (isnull res)
                 then datumCopy (value res) (resulttypeByVal peragg)
                        (resulttypeLen peragg)
                 else value res)
                (isnull res),
           pergroupstate)
  end.

(** [finalize_partialaggregate]: the output value of a partial aggregate. *)
Definition finalize_partialaggregate
    (peragg : AggStatePerAggData) (pertrans : AggStatePerTransData)
    (pergroupstate : AggStatePerGroupData)
  : M Trace (NullableDatum * AggStatePerTransData * AggStatePerGroupData) :=
  p <- (if OidIsValid (serialfn_oid pertrans) then
          if fn_strict (serialfn pertrans) && transValueIsNull pergroupstate then
            ret (mkND 0%Z true, pertrans)
          else
            match args (serialfn_fcinfo pertrans) !! 0%nat with
            | None => raise SEGV
            | Some _ =>
                let fc := set_arg (serialfn_fcinfo pertrans) 0
                            (mkND (MakeExpandedObjectReadOnly
                                     (transValue pergroupstate)
                                     (transValueIsNull pergroupstate)
                                     (transtypeLen pertrans))
                                  (transValueIsNull pergroupstate)) in
                r <- FunctionCallInvoke EvSerialfn (serialfn pertrans) fc ;;
                ret (r, set_serialfn_fcinfo pertrans (set_fc_isnull fc (isnull r)))
            end
        else
          ret (mkND (transValue pergroupstate) (transValueIsNull pergroupstate),
               pertrans)) ;;
  let res := fst p in
  ret (mkND (if negb (resulttypeByVal peragg) && negb (isnull res)
             then datumCopy (value res) (resulttypeByVal peragg)
                    (resulttypeLen peragg)
             else value res)
            (isnull res),
       snd p, pergroupstate).


(** ** Sharing of per-agg and per-trans descriptors (nodeAgg.c)

    While [VExecInitAgg] walks the aggregate calls, [peragg[0..aggno]] and
    [pertrans[0..transno]] are the descriptors built so far; the cells beyond
    are zero-filled and never read, the model keeps the initialized prefix. *)

(** The loop of [find_compatible_peragg] over [aggno .. lastaggno];
    [n] cells remain. *)
Fixpoint find_compatible_peragg_loop (newagg : Aggref)
    (peraggs : list AggStatePerAggData) (aggno n : nat)
    (same_input_transnos : list nat) : outcome (Z * list nat) :=
  match n with
  | O => Done ((-1)%Z, same_input_transnos)
  | S n' =>
      match peraggs !! aggno with
      | None => Fail SEGV
      | Some peragg =>
          let existingRef := aggref peragg in
          (* all of the following must be the same or it's no match *)
          if negb (inputcollid newagg =? inputcollid existingRef)%Z
             || negb (ref_aggtranstype newagg =? ref_aggtranstype existingRef)%Z
             || negb (eqb (aggstar newagg) (aggstar existingRef))
             || negb (eqb (aggvariadic newagg) (aggvariadic existingRef))
             || negb (aggkind newagg =? aggkind existingRef)%Z
             || negb (equal_list (ref_args newagg) (ref_args existingRef))
             || negb (equal_list (aggorder newagg) (aggorder existingRef))
             || negb (equal_list (aggdistinct newagg) (aggdistinct existingRef))
             || negb (equal_opt (aggfilter newagg) (aggfilter existingRef))
          then find_compatible_peragg_loop newagg peraggs (S aggno) n'
                 same_input_transnos
          else if (aggfnoid newagg =? aggfnoid existingRef)%Z
                  && (aggtype newagg =? aggtype existingRef)%Z
                  && (aggcollid newagg =? aggcollid existingRef)%Z
                  && equal_list (ref_aggdirectargs newagg)
                       (ref_aggdirectargs existingRef)
          then (* the same aggregate function: report an exact match *)
            Done (Z.of_nat aggno, [])
          else
            find_compatible_peragg_loop newagg peraggs (S aggno) n'
              (if shareable peragg
               then same_input_transnos ++ [transno peragg]
               else same_input_transnos)
      end
  end.

(** [find_compatible_peragg]: the index of an identical aggregate seen
    before, or -1, together with the list [*same_input_transnos].
    [contain_volatile_functions] is the optimizer's test. *)
Definition find_compatible_peragg (contain_volatile_functions : Aggref -> bool)
    (newagg : Aggref) (peraggs : list AggStatePerAggData) (lastaggno : Z)
  : outcome (Z * list nat) :=
  (* we mustn't reuse the aggref if it contains volatile function calls *)
  if contain_volatile_functions newagg then Done ((-1)%Z, [])
  else find_compatible_peragg_loop newagg peraggs 0
         (Z.to_nat (lastaggno + 1)) [].

Definition datumIsEqual (a b : Datum) (typByVal : bool) (typLen : Z) : bool :=
  (a =? b)%Z.

(** [find_compatible_pertrans]: a per-trans descriptor among [transnos]
    with the same transition function and initial condition, or -1. *)
Fixpoint find_compatible_pertrans_loop
    (pertranss : list AggStatePerTransData)
    (aggtransfn aggtranstype' aggserialfn aggdeserialfn : Oid)
    (initValue' : Datum) (initValueIsNull' : bool) (transnos : list nat)
  : outcome Z :=
  match transnos with
  | [] => Done (-1)%Z
  | transno :: rest =>
      match pertranss !! transno with
      | None => Fail SEGV
      | Some pertrans =>
          if negb (aggtransfn =? transfn_oid pertrans)%Z
             || negb (aggtranstype' =? aggtranstype pertrans)%Z
          then find_compatible_pertrans_loop pertranss aggtransfn aggtranstype'
                 aggserialfn aggdeserialfn initValue' initValueIsNull' rest
          else if negb (aggserialfn =? serialfn_oid pertrans)%Z
                  || negb (aggdeserialfn =? deserialfn_oid pertrans)%Z
          then find_compatible_pertrans_loop pertranss aggtransfn aggtranstype'
                 aggserialfn aggdeserialfn initValue' initValueIsNull' rest
          else if initValueIsNull' && initValueIsNull pertrans
          then Done (Z.of_nat transno)
          else if negb initValueIsNull' && negb (initValueIsNull pertrans)
                  && datumIsEqual initValue' (initValue pertrans)
                       (transtypeByVal pertrans) (transtypeLen pertrans)
          then Done (Z.of_nat transno)
          else find_compatible_pertrans_loop pertranss aggtransfn aggtranstype'
                 aggserialfn aggdeserialfn initValue' initValueIsNull' rest
      end
  end.

Definition find_compatible_pertrans (pertranss : list AggStatePerTransData)
    (shareable' : bool)
    (aggtransfn aggtranstype' aggserialfn aggdeserialfn : Oid)
    (initValue' : Datum) (initValueIsNull' : bool) (transnos : list nat)
  : outcome Z :=
  (* if this aggregate can't share transition states, give up *)
  if negb shareable' then Done (-1)%Z
  else find_compatible_pertrans_loop pertranss aggtransfn aggtranstype'
         aggserialfn aggdeserialfn initValue' initValueIsNull' transnos.

(** The state of the loop of [VExecInitAgg] over the aggregate calls:
    the descriptors built so far, the counters [aggno] and [transno], and
    the [aggno] given to each call ([aggrefstate->aggno]), in order. *)
Record SharingState : Type := mkSharing {
  sh_peragg : list AggStatePerAggData;
  sh_pertrans : list AggStatePerTransData;
  sh_aggno : Z;
  sh_transno : Z;
  sh_assigned : list Z
}.

(** One turn of that loop.  [describe] stands for the catalog lookups,
    the permission checks and the construction of the descriptors of one
    aggregate call ([build_pertrans_for_aggref] and the fields of [peragg]
    filled in before it); it fails as they do. *)
Definition init_one_aggregate
    (contain_volatile_functions : Aggref -> bool)
    (describe : Aggref -> outcome (AggStatePerAggData * AggStatePerTransData))
    (newagg : Aggref) (st : SharingState) : outcome SharingState :=
  (* 1. check for already processed aggs which can be re-used *)
  match find_compatible_peragg contain_volatile_functions newagg
          (sh_peragg st) (sh_aggno st) with
  | Fail f => Fail f
  | Done (existing_aggno, same_input_transnos) =>
      if negb (existing_aggno =? -1)%Z then
        Done (mkSharing (sh_peragg st) (sh_pertrans st) (sh_aggno st)
                (sh_transno st) (sh_assigned st ++ [existing_aggno]))
      else
        let aggno := (sh_aggno st + 1)%Z in
        match describe newagg with
        | Fail f => Fail f
        | Done (peragg, pertrans) =>
            (* 2. build the working state, or share an existing one *)
            match find_compatible_pertrans (sh_pertrans st) (shareable peragg)
                    (transfn_oid pertrans) (aggtranstype pertrans)
                    (serialfn_oid pertrans) (deserialfn_oid pertrans)
                    (initValue pertrans) (initValueIsNull pertrans)
                    same_input_transnos with
            | Fail f => Fail f
            | Done existing_transno =>
                if negb (existing_transno =? -1)%Z then
                  match sh_pertrans st !! Z.to_nat existing_transno with
                  | None => Fail SEGV
                  | Some shared =>
                      Done (mkSharing
                              (sh_peragg st
                               ++ [set_transno peragg (Z.to_nat existing_transno)])
                              (<[Z.to_nat existing_transno :=
                                   set_aggshared shared true]> (sh_pertrans st))
                              aggno (sh_transno st)
                              (sh_assigned st ++ [aggno]))
                  end
                else
                  let transno' := (sh_transno st + 1)%Z in
                  Done (mkSharing
                          (sh_peragg st
                           ++ [set_transno peragg (Z.to_nat transno')])
                          (sh_pertrans st ++ [set_aggshared pertrans false])
                          aggno transno' (sh_assigned st ++ [aggno]))
            end
        end
  end.

(** ** Scan executor (execScan.c)

    Slots live in the executor's tuple table; a slot pointer is an index
    into it.  The access method and the recheck method are the two function
    pointers handed to [VExecScan]; they may change the scan state.  The
    predicate and the projection are compiled expressions: the predicate
    looks at the scanned batch, answers, and may mark rows of that batch as
    skipped; the projection computes the new contents of its result slot
    from the scanned batch.  [CHECK_FOR_INTERRUPTS] is not modelled: the
    model describes runs during which no interrupt is pending. *)

Definition SlotPtr : Type := nat.

Record EPQState : Type := mkEPQ {
  relsubs_done : list bool;
  relsubs_slot : list (option SlotPtr);
  relsubs_rowmark : list (option Z)
}.

Definition ScanQual : Type := Slot -> option (bool * Slot).

Record ProjectionInfo : Type := mkProj {
  pi_resultslot : SlotPtr;
  pi_exec : Slot -> Slot -> option Slot
}.

Record VectorScanState (AM : Type) : Type := mkScan {
  es_tupleTable : list Slot;
  es_epq_active : option EPQState;
  scanrelid : nat;
  ss_ScanTupleSlot : SlotPtr;
  qual : option ScanQual;
  ps_ProjInfo : option ProjectionInfo;
  ecxt_scantuple_ptr : option SlotPtr;
  ecxt_resets : nat;
  instr_nfiltered1 : option nat;
  am_private : AM
}.

Section ScanExecutor.

Context {AM : Type}.

Local Abbreviation State := (VectorScanState AM).

Definition VExecScanAccessMtd : Type :=
  State -> outcome (option SlotPtr * State).
Definition VExecScanRecheckMtd : Type :=
  State -> SlotPtr -> outcome (bool * State).

(** Macro constant of vtype.h. *)
Variable BATCHSIZE : nat.
(** [EvalPlanQualFetchRowMark] of the executor proper. *)
Variable EvalPlanQualFetchRowMark :
  State -> nat -> SlotPtr -> outcome (bool * State).

Definition set_tupleTable (st : State) (t : list Slot) : State :=
  mkScan t (es_epq_active st) (scanrelid st) (ss_ScanTupleSlot st)
    (qual st) (ps_ProjInfo st) (ecxt_scantuple_ptr st) (ecxt_resets st)
    (instr_nfiltered1 st) (am_private st).

Definition set_epq (st : State) (e : option EPQState) : State :=
  mkScan (es_tupleTable st) e (scanrelid st) (ss_ScanTupleSlot st)
    (qual st) (ps_ProjInfo st) (ecxt_scantuple_ptr st) (ecxt_resets st)
    (instr_nfiltered1 st) (am_private st).

Definition set_scantuple (st : State) (p : option SlotPtr) : State :=
  mkScan (es_tupleTable st) (es_epq_active st) (scanrelid st)
    (ss_ScanTupleSlot st) (qual st) (ps_ProjInfo st) p (ecxt_resets st)
    (instr_nfiltered1 st) (am_private st).

(** [ResetExprContext(econtext)]. *)
Definition ResetExprContext (st : State) : State :=
  mkScan (es_tupleTable st) (es_epq_active st) (scanrelid st)
    (ss_ScanTupleSlot st) (qual st) (ps_ProjInfo st) (ecxt_scantuple_ptr st)
    (S (ecxt_resets st)) (instr_nfiltered1 st) (am_private st).

(** [InstrCountFiltered1(node, 1)]. *)
Definition InstrCountFiltered1 (st : State) : State :=
  mkScan (es_tupleTable st) (es_epq_active st) (scanrelid st)
    (ss_ScanTupleSlot st) (qual st) (ps_ProjInfo st) (ecxt_scantuple_ptr st)
    (ecxt_resets st)
    (match instr_nfiltered1 st with Some n => Some (S n) | None => None end)
    (am_private st).

(** [ExecClearTuple(slot)] on a slot of the tuple table; the pointer is
    returned. *)
Definition ExecClearTuple (st : State) (p : SlotPtr)
  : outcome (option SlotPtr * State) :=
  match es_tupleTable st !! p with
  | None => Fail SEGV
  | Some s =>
      match VExecClearTuple s with
      | Fail f => Fail f
      | Done s' => Done (Some p, set_tupleTable st (<[p := s']> (es_tupleTable st)))
      end
  end.

(** [TupIsNull] of a slot pointer. *)
Definition TupIsNullPtr (st : State) (p : option SlotPtr) : outcome bool :=
  match p with
  | None => Done true
  | Some p =>
      match es_tupleTable st !! p with
      | None => Fail SEGV
      | Some s => Done (TTS_EMPTY s)
      end
  end.

(** The common tail of the EvalPlanQual branches: an empty test tuple is
    answered by NULL; a tuple that fails the access-method conditions is
    cleared. *)
Definition recheck_test_tuple (recheckMtd : VExecScanRecheckMtd)
    (st : State) (slot : SlotPtr) : outcome (option SlotPtr * State) :=
  match TupIsNullPtr st (Some slot) with
  | Fail f => Fail f
  | Done true => Done (None, st)
  | Done false =>
      match recheckMtd st slot with
      | Fail f => Fail f
      | Done (true, st1) => Done (Some slot, st1)
      | Done (false, st1) => ExecClearTuple st1 slot
      end
  end.

(** [ExecScanFetch]: fetch the next potential batch, or substitute the
    test tuple inside an EvalPlanQual recheck. *)
Definition ExecScanFetch (accessMtd : VExecScanAccessMtd)
    (recheckMtd : VExecScanRecheckMtd) (vss : State)
  : outcome (option SlotPtr * State) :=
  match es_epq_active vss with
  | Some epqstate =>
      let relid := scanrelid vss in
      if (relid =? 0)%nat then
        let slot := ss_ScanTupleSlot vss in
        match recheckMtd vss slot with
        | Fail f => Fail f
        | Done (true, st1) => Done (Some slot, st1)
        | Done (false, st1) => ExecClearTuple st1 slot
        end
      else
        match relsubs_done epqstate !! (relid - 1)%nat with
        | None => Fail SEGV
        | Some true => ExecClearTuple vss (ss_ScanTupleSlot vss)
        | Some false =>
            let mark_done :=
              set_epq vss
                (Some (mkEPQ (<[(relid - 1)%nat := true]> (relsubs_done epqstate))
                         (relsubs_slot epqstate) (relsubs_rowmark epqstate))) in
            match relsubs_slot epqstate !! (relid - 1)%nat with
            | None => Fail SEGV
            | Some (Some slot) =>
                (* the replacement tuple provided by the EPQ caller *)
                recheck_test_tuple recheckMtd mark_done slot
            | Some None =>
                match relsubs_rowmark epqstate !! (relid - 1)%nat with
                | None => Fail SEGV
                | Some (Some _) =>
                    let slot := ss_ScanTupleSlot vss in
                    match EvalPlanQualFetchRowMark mark_done relid slot with
                    | Fail f => Fail f
                    | Done (false, st1) => Done (None, st1)
                    | Done (true, st1) =>
                        recheck_test_tuple recheckMtd st1 slot
                    end
                | Some None => accessMtd vss
                end
            end
        end
  | None =>
      (* run the access method to get the next batch *)
      accessMtd vss
  end.

(** [memcpy(dst, src, sizeof(bool) * BATCHSIZE)] on two skip arrays. *)
Definition memcpy_skip (dst src : list bool) : outcome (list bool) :=
  if (BATCHSIZE <=? length src)%nat && (BATCHSIZE <=? length dst)%nat
  then Done (take BATCHSIZE src ++ drop BATCHSIZE dst)
  else Fail SEGV.

Definition set_skip (v : VectorTupleSlot) (sk : list bool) : VectorTupleSlot :=
  mkVSlot (tts v) (dim v) (bufnum v) (tts_buffers v) sk (columns v).

(** [ExecProject(projInfo)] followed by the copy of the skip mask of the
    scanned batch into the projected batch. *)
Definition project_batch (projInfo : ProjectionInfo) (slot : SlotPtr)
    (st : State) : outcome (option SlotPtr * State) :=
  match es_tupleTable st !! slot, es_tupleTable st !! pi_resultslot projInfo with
  | Some scanned, Some old =>
      match pi_exec projInfo scanned old with
      | None => Fail ERROR
      | Some projected =>
          let resultSlot := pi_resultslot projInfo in
          let table1 := <[resultSlot := projected]> (es_tupleTable st) in
          match table1 !! resultSlot, table1 !! slot with
          | Some (Vector dst), Some (Vector src) =>
              match memcpy_skip (skip dst) (skip src) with
              | Fail f => Fail f
              | Done sk =>
                  Done (Some resultSlot,
                        set_tupleTable st
                          (<[resultSlot := Vector (set_skip dst sk)]> table1))
              end
          | _, _ => Fail SEGV
          end
      end
  | _, _ => Fail SEGV
  end.

(** [VExecScanQual(qual, econtext)] on the batch in [ecxt_scantuple]. *)
Definition VExecScanQual (q : ScanQual) (slot : SlotPtr) (st : State)
  : outcome (bool * State) :=
  match es_tupleTable st !! slot with
  | None => Fail SEGV
  | Some s =>
      match q s with
      | None => Fail ERROR
      | Some (b, s') =>
          Done (b, set_tupleTable st (<[slot := s']> (es_tupleTable st)))
      end
  end.

(** The loop [for (;;)] of [VExecScan]; [qual'] and [projInfo] were read
    from the node before the loop. *)
Fixpoint VExecScan_loop (fuel : nat) (accessMtd : VExecScanAccessMtd)
    (recheckMtd : VExecScanRecheckMtd) (qual' : option ScanQual)
    (projInfo : option ProjectionInfo) (st : State)
  : outcome (option SlotPtr * State) :=
  match fuel with
  | O => Fail FUEL
  | S fuel' =>
      match ExecScanFetch accessMtd recheckMtd st with
      | Fail f => Fail f
      | Done (slot, st1) =>
          match TupIsNullPtr st1 slot, slot with
          | Fail f, _ => Fail f
          | Done true, _ | Done false, None =>
              (* nothing more to scan *)
              match projInfo with
              | Some p => ExecClearTuple st1 (pi_resultslot p)
              | None => Done (slot, st1)
              end
          | Done false, Some sp =>
              (* place the current batch into the expr context *)
              let st2 := set_scantuple st1 (Some sp) in
              match (match qual' with
                     | None => Done (true, st2)
                     | Some q => VExecScanQual q sp st2
                     end) with
              | Fail f => Fail f
              | Done (true, st3) =>
                  match projInfo with
                  | Some p => project_batch p sp st3
                  | None => Done (Some sp, st3)
                  end
              | Done (false, st3) =>
                  VExecScan_loop fuel' accessMtd recheckMtd qual' projInfo
                    (ResetExprContext (InstrCountFiltered1 st3))
              end
          end
      end
  end.

(** [VExecScan]: scan with the given access method, check the predicate,
    project. *)
Definition VExecScan (fuel : nat) (accessMtd : VExecScanAccessMtd)
    (recheckMtd : VExecScanRecheckMtd) (vss : State)
  : outcome (option SlotPtr * State) :=
  match qual vss, ps_ProjInfo vss with
  | None, None =>
      (* neither a qual to check nor a projection to do *)
      ExecScanFetch accessMtd recheckMtd (ResetExprContext vss)
  | qual', projInfo =>
      VExecScan_loop fuel accessMtd recheckMtd qual' projInfo
        (ResetExprContext vss)
  end.

End ScanExecutor.

(** ** Aggregation driver: data (nodeAgg.c)

    The outcome monad of stdpp's notation: [x ← e; k]. *)

#[global] Instance outcome_ret : MRet outcome := fun A a => Done a.
#[global] Instance outcome_bind : MBind outcome :=
  fun A B f m => match m with Done a => f a | Fail e => Fail e end.

Inductive AggStrategy : Type := AGG_PLAIN | AGG_SORTED | AGG_HASHED | AGG_MIXED.

Definition AggStrategy_eqb (a b : AggStrategy) : bool :=
  match a, b with
  | AGG_PLAIN, AGG_PLAIN | AGG_SORTED, AGG_SORTED
  | AGG_HASHED, AGG_HASHED | AGG_MIXED, AGG_MIXED => true
  | _, _ => false
  end.

Definition HeapTuple : Type := list NullableDatum.

(** Compiled boolean expressions and projections of the executor. *)
Definition QualState : Type := ExprContext -> option bool.
Definition ProjState : Type := ExprContext -> option TupleTableSlot.

(** [ExecQual(state, econtext)]: a NULL state is true. *)
Definition ExecQual (q : option QualState) (econtext : ExprContext) : outcome bool :=
  match q with
  | None => Done true
  | Some f => match f econtext with Some b => Done b | None => Fail ERROR end
  end.

(** The sort that feeds a phase after the first: rows are the input slots;
    [so_order] is the order the Sort node asks for. *)
Record Sort : Type := mkSortNode {
  so_numCols : nat;
  so_order : list Slot -> list Slot
}.

Record PhaseSort : Type := mkPhaseSort {
  phs_put : list Slot;
  phs_order : list Slot -> list Slot;
  phs_out : list Slot
}.

(** The [Agg] plan node, as far as the executor reads it. *)
Record Agg : Type := mkAgg {
  node_aggstrategy : AggStrategy;
  numCols : nat;
  grpColIdx : list nat;
  groupingSets : list (list nat)
}.

(** The state of the child plan: the batches it will still return, and all
    of them, for a rescan. *)
Record PlanState : Type := mkPlanState {
  pending : list Slot;
  rescan_from : list Slot;
  chgParam : bool               (* chgParam != NULL *)
}.

Record TupleHashEntryData : Type := mkEntry {
  firstTuple : list NullableDatum;
  additional : option (list AggStatePerGroupData)
}.

(** Working storage of the transition states: what the compiled transition
    expression of a phase may write. *)
Record TransStore : Type := mkStore {
  pertrans : list AggStatePerTransData;
  pergroups : option (list (list AggStatePerGroupData));
  hash_entries : list (list TupleHashEntryData);
  hash_pergroup : list (list (option nat));
  fmgr_trace : Trace
}.

(** [phase->evaltrans]: advance every transition state of the phase with
    the batch in [tmpcontext]. *)
Definition EvalTrans : Type := ExprContext -> TransStore -> option TransStore.

Record AggStatePerPhaseData : Type := mkPhase {
  ph_aggstrategy : AggStrategy;
  numsets : nat;
  gset_lengths : option (list nat);
  ph_grouped_cols : option (list (list nat));
  eqfunctions : option (list (option QualState));
  aggnode : option Agg;
  sortnode : option Sort;
  evaltrans : option EvalTrans
}.

Record AggStatePerHashData : Type := mkPerHash {
  hashtable : bool;                      (* the table has been built *)
  hashiter : nat;
  hashslot : TupleTableSlot;
  ht_same_key : list NullableDatum -> list NullableDatum -> bool;
  ph_numCols : nat;
  numhashGrpCols : nat;
  largestGrpColIdx : nat;
  hashGrpColIdxInput : list nat
}.

Definition set_hashiter (h : AggStatePerHashData) (i : nat) : AggStatePerHashData :=
  mkPerHash (hashtable h) i (hashslot h) (ht_same_key h) (ph_numCols h)
    (numhashGrpCols h) (largestGrpColIdx h) (hashGrpColIdxInput h).

Definition set_hashslot (h : AggStatePerHashData) (s : TupleTableSlot)
  : AggStatePerHashData :=
  mkPerHash (hashtable h) (hashiter h) s (ht_same_key h) (ph_numCols h)
    (numhashGrpCols h) (largestGrpColIdx h) (hashGrpColIdxInput h).

Definition set_hashtable (h : AggStatePerHashData) (b : bool)
  : AggStatePerHashData :=
  mkPerHash b (hashiter h) (hashslot h) (ht_same_key h) (ph_numCols h)
    (numhashGrpCols h) (largestGrpColIdx h) (hashGrpColIdxInput h).

Definition set_outertuple (e : ExprContext) (s : option Slot) : ExprContext :=
  mkEcxt (ecxt_scantuple e) (ecxt_innertuple e) s (ecxt_aggvalues e)
    (ecxt_aggnulls e).

Definition set_innertuple (e : ExprContext) (s : option Slot) : ExprContext :=
  mkEcxt (ecxt_scantuple e) s (ecxt_outertuple e) (ecxt_aggvalues e)
    (ecxt_aggnulls e).

Definition set_aggresult (e : ExprContext) (aggno : nat) (d : NullableDatum)
  : ExprContext :=
  mkEcxt (ecxt_scantuple e) (ecxt_innertuple e) (ecxt_outertuple e)
    (<[aggno := value d]> (ecxt_aggvalues e))
    (<[aggno := isnull d]> (ecxt_aggnulls e)).

Record AggState : Type := mkAggState {
  aggstrategy : AggStrategy;
  skipfinal : bool;   (* DO_AGGSPLIT_SKIPFINAL(aggsplit) *)
  numaggs : nat;
  numtrans : nat;
  maxsets : nat;
  numphases : Z;
  phases : list AggStatePerPhaseData;
  peragg : list AggStatePerAggData;
  all_grouped_cols : list nat;
  num_hashes : nat;
  ss_ps_qual : option QualState;   (* ss.ps.qual: the HAVING clause *)
  ss_ps_ProjInfo : ProjState;   (* ss.ps.ps_ProjInfo *)
  ss_ps_instrument : option nat;   (* instrument->nfiltered1 *)
  result_natts : nat;   (* ps_ResultTupleSlot->tts_tupleDescriptor->natts *)
  current_phase : Z;
  phase : Z;   (* aggstate->phase = &phases[phase] *)
  projected_set : Z;
  current_set : nat;
  grouped_cols : list nat;   (* aggstate->grouped_cols *)
  input_done : bool;
  agg_done : bool;
  table_filled : bool;
  grp_firstTuple : option HeapTuple;
  sort_in : option PhaseSort;
  sort_out : option PhaseSort;
  outerPlan : PlanState;   (* outerPlanState(aggstate) *)
  store : TransStore;   (* pertrans, pergroups, hash entries, fmgr trace *)
  perhash : list AggStatePerHashData;
  ss_ps_ExprContext : ExprContext;   (* per-output-tuple context *)
  tmpcontext : ExprContext;   (* per-input-tuple context *)
  ss_ss_ScanTupleSlot : TupleTableSlot
}.

Definition set_current_phase (st : AggState) (x : Z) : AggState :=
  mkAggState (aggstrategy st) (skipfinal st) (numaggs st) (numtrans st)
    (maxsets st) (numphases st) (phases st) (peragg st)
    (all_grouped_cols st) (num_hashes st) (ss_ps_qual st)
    (ss_ps_ProjInfo st) (ss_ps_instrument st) (result_natts st) x (phase st)
    (projected_set st) (current_set st) (grouped_cols st) (input_done st)
    (agg_done st) (table_filled st) (grp_firstTuple st) (sort_in st)
    (sort_out st) (outerPlan st) (store st) (perhash st)
    (ss_ps_ExprContext st) (tmpcontext st) (ss_ss_ScanTupleSlot st).

Definition set_phase (st : AggState) (x : Z) : AggState :=
  mkAggState (aggstrategy st) (skipfinal st) (numaggs st) (numtrans st)
    (maxsets st) (numphases st) (phases st) (peragg st)
    (all_grouped_cols st) (num_hashes st) (ss_ps_qual st)
    (ss_ps_ProjInfo st) (ss_ps_instrument st) (result_natts st)
    (current_phase st) x (projected_set st) (current_set st)
    (grouped_cols st) (input_done st) (agg_done st) (table_filled st)
    (grp_firstTuple st) (sort_in st) (sort_out st) (outerPlan st) (store st)
    (perhash st) (ss_ps_ExprContext st) (tmpcontext st)
    (ss_ss_ScanTupleSlot st).

Definition set_projected_set (st : AggState) (x : Z) : AggState :=
  mkAggState (aggstrategy st) (skipfinal st) (numaggs st) (numtrans st)
    (maxsets st) (numphases st) (phases st) (peragg st)
    (all_grouped_cols st) (num_hashes st) (ss_ps_qual st)
    (ss_ps_ProjInfo st) (ss_ps_instrument st) (result_natts st)
    (current_phase st) (phase st) x (current_set st) (grouped_cols st)
    (input_done st) (agg_done st) (table_filled st) (grp_firstTuple st)
    (sort_in st) (sort_out st) (outerPlan st) (store st) (perhash st)
    (ss_ps_ExprContext st) (tmpcontext st) (ss_ss_ScanTupleSlot st).

Definition set_current_set (st : AggState) (x : nat) : AggState :=
  mkAggState (aggstrategy st) (skipfinal st) (numaggs st) (numtrans st)
    (maxsets st) (numphases st) (phases st) (peragg st)
    (all_grouped_cols st) (num_hashes st) (ss_ps_qual st)
    (ss_ps_ProjInfo st) (ss_ps_instrument st) (result_natts st)
    (current_phase st) (phase st) (projected_set st) x (grouped_cols st)
    (input_done st) (agg_done st) (table_filled st) (grp_firstTuple st)
    (sort_in st) (sort_out st) (outerPlan st) (store st) (perhash st)
    (ss_ps_ExprContext st) (tmpcontext st) (ss_ss_ScanTupleSlot st).

Definition set_grouped_cols (st : AggState) (x : list nat) : AggState :=
  mkAggState (aggstrategy st) (skipfinal st) (numaggs st) (numtrans st)
    (maxsets st) (numphases st) (phases st) (peragg st)
    (all_grouped_cols st) (num_hashes st) (ss_ps_qual st)
    (ss_ps_ProjInfo st) (ss_ps_instrument st) (result_natts st)
    (current_phase st) (phase st) (projected_set st) (current_set st) x
    (input_done st) (agg_done st) (table_filled st) (grp_firstTuple st)
    (sort_in st) (sort_out st) (outerPlan st) (store st) (perhash st)
    (ss_ps_ExprContext st) (tmpcontext st) (ss_ss_ScanTupleSlot st).

Definition set_input_done (st : AggState) (x : bool) : AggState :=
  mkAggState (aggstrategy st) (skipfinal st) (numaggs st) (numtrans st)
    (maxsets st) (numphases st) (phases st) (peragg st)
    (all_grouped_cols st) (num_hashes st) (ss_ps_qual st)
    (ss_ps_ProjInfo st) (ss_ps_instrument st) (result_natts st)
    (current_phase st) (phase st) (projected_set st) (current_set st)
    (grouped_cols st) x (agg_done st) (table_filled st) (grp_firstTuple st)
    (sort_in st) (sort_out st) (outerPlan st) (store st) (perhash st)
    (ss_ps_ExprContext st) (tmpcontext st) (ss_ss_ScanTupleSlot st).

Definition set_agg_done (st : AggState) (x : bool) : AggState :=
  mkAggState (aggstrategy st) (skipfinal st) (numaggs st) (numtrans st)
    (maxsets st) (numphases st) (phases st) (peragg st)
    (all_grouped_cols st) (num_hashes st) (ss_ps_qual st)
    (ss_ps_ProjInfo st) (ss_ps_instrument st) (result_natts st)
    (current_phase st) (phase st) (projected_set st) (current_set st)
    (grouped_cols st) (input_done st) x (table_filled st)
    (grp_firstTuple st) (sort_in st) (sort_out st) (outerPlan st) (store st)
    (perhash st) (ss_ps_ExprContext st) (tmpcontext st)
    (ss_ss_ScanTupleSlot st).

Definition set_table_filled (st : AggState) (x : bool) : AggState :=
  mkAggState (aggstrategy st) (skipfinal st) (numaggs st) (numtrans st)
    (maxsets st) (numphases st) (phases st) (peragg st)
    (all_grouped_cols st) (num_hashes st) (ss_ps_qual st)
    (ss_ps_ProjInfo st) (ss_ps_instrument st) (result_natts st)
    (current_phase st) (phase st) (projected_set st) (current_set st)
    (grouped_cols st) (input_done st) (agg_done st) x (grp_firstTuple st)
    (sort_in st) (sort_out st) (outerPlan st) (store st) (perhash st)
    (ss_ps_ExprContext st) (tmpcontext st) (ss_ss_ScanTupleSlot st).

Definition set_grp_firstTuple (st : AggState) (x : option HeapTuple) : AggState :=
  mkAggState (aggstrategy st) (skipfinal st) (numaggs st) (numtrans st)
    (maxsets st) (numphases st) (phases st) (peragg st)
    (all_grouped_cols st) (num_hashes st) (ss_ps_qual st)
    (ss_ps_ProjInfo st) (ss_ps_instrument st) (result_natts st)
    (current_phase st) (phase st) (projected_set st) (current_set st)
    (grouped_cols st) (input_done st) (agg_done st) (table_filled st) x
    (sort_in st) (sort_out st) (outerPlan st) (store st) (perhash st)
    (ss_ps_ExprContext st) (tmpcontext st) (ss_ss_ScanTupleSlot st).

Definition set_sort_in (st : AggState) (x : option PhaseSort) : AggState :=
  mkAggState (aggstrategy st) (skipfinal st) (numaggs st) (numtrans st)
    (maxsets st) (numphases st) (phases st) (peragg st)
    (all_grouped_cols st) (num_hashes st) (ss_ps_qual st)
    (ss_ps_ProjInfo st) (ss_ps_instrument st) (result_natts st)
    (current_phase st) (phase st) (projected_set st) (current_set st)
    (grouped_cols st) (input_done st) (agg_done st) (table_filled st)
    (grp_firstTuple st) x (sort_out st) (outerPlan st) (store st)
    (perhash st) (ss_ps_ExprContext st) (tmpcontext st)
    (ss_ss_ScanTupleSlot st).

Definition set_sort_out (st : AggState) (x : option PhaseSort) : AggState :=
  mkAggState (aggstrategy st) (skipfinal st) (numaggs st) (numtrans st)
    (maxsets st) (numphases st) (phases st) (peragg st)
    (all_grouped_cols st) (num_hashes st) (ss_ps_qual st)
    (ss_ps_ProjInfo st) (ss_ps_instrument st) (result_natts st)
    (current_phase st) (phase st) (projected_set st) (current_set st)
    (grouped_cols st) (input_done st) (agg_done st) (table_filled st)
    (grp_firstTuple st) (sort_in st) x (outerPlan st) (store st)
    (perhash st) (ss_ps_ExprContext st) (tmpcontext st)
    (ss_ss_ScanTupleSlot st).

Definition set_outerPlan (st : AggState) (x : PlanState) : AggState :=
  mkAggState (aggstrategy st) (skipfinal st) (numaggs st) (numtrans st)
    (maxsets st) (numphases st) (phases st) (peragg st)
    (all_grouped_cols st) (num_hashes st) (ss_ps_qual st)
    (ss_ps_ProjInfo st) (ss_ps_instrument st) (result_natts st)
    (current_phase st) (phase st) (projected_set st) (current_set st)
    (grouped_cols st) (input_done st) (agg_done st) (table_filled st)
    (grp_firstTuple st) (sort_in st) (sort_out st) x (store st) (perhash st)
    (ss_ps_ExprContext st) (tmpcontext st) (ss_ss_ScanTupleSlot st).

Definition set_store (st : AggState) (x : TransStore) : AggState :=
  mkAggState (aggstrategy st) (skipfinal st) (numaggs st) (numtrans st)
    (maxsets st) (numphases st) (phases st) (peragg st)
    (all_grouped_cols st) (num_hashes st) (ss_ps_qual st)
    (ss_ps_ProjInfo st) (ss_ps_instrument st) (result_natts st)
    (current_phase st) (phase st) (projected_set st) (current_set st)
    (grouped_cols st) (input_done st) (agg_done st) (table_filled st)
    (grp_firstTuple st) (sort_in st) (sort_out st) (outerPlan st) x
    (perhash st) (ss_ps_ExprContext st) (tmpcontext st)
    (ss_ss_ScanTupleSlot st).

Definition set_perhash (st : AggState) (x : list AggStatePerHashData) : AggState :=
  mkAggState (aggstrategy st) (skipfinal st) (numaggs st) (numtrans st)
    (maxsets st) (numphases st) (phases st) (peragg st)
    (all_grouped_cols st) (num_hashes st) (ss_ps_qual st)
    (ss_ps_ProjInfo st) (ss_ps_instrument st) (result_natts st)
    (current_phase st) (phase st) (projected_set st) (current_set st)
    (grouped_cols st) (input_done st) (agg_done st) (table_filled st)
    (grp_firstTuple st) (sort_in st) (sort_out st) (outerPlan st) (store st)
    x (ss_ps_ExprContext st) (tmpcontext st) (ss_ss_ScanTupleSlot st).

Definition set_ss_ps_ExprContext (st : AggState) (x : ExprContext) : AggState :=
  mkAggState (aggstrategy st) (skipfinal st) (numaggs st) (numtrans st)
    (maxsets st) (numphases st) (phases st) (peragg st)
    (all_grouped_cols st) (num_hashes st) (ss_ps_qual st)
    (ss_ps_ProjInfo st) (ss_ps_instrument st) (result_natts st)
    (current_phase st) (phase st) (projected_set st) (current_set st)
    (grouped_cols st) (input_done st) (agg_done st) (table_filled st)
    (grp_firstTuple st) (sort_in st) (sort_out st) (outerPlan st) (store st)
    (perhash st) x (tmpcontext st) (ss_ss_ScanTupleSlot st).

Definition set_tmpcontext (st : AggState) (x : ExprContext) : AggState :=
  mkAggState (aggstrategy st) (skipfinal st) (numaggs st) (numtrans st)
    (maxsets st) (numphases st) (phases st) (peragg st)
    (all_grouped_cols st) (num_hashes st) (ss_ps_qual st)
    (ss_ps_ProjInfo st) (ss_ps_instrument st) (result_natts st)
    (current_phase st) (phase st) (projected_set st) (current_set st)
    (grouped_cols st) (input_done st) (agg_done st) (table_filled st)
    (grp_firstTuple st) (sort_in st) (sort_out st) (outerPlan st) (store st)
    (perhash st) (ss_ps_ExprContext st) x (ss_ss_ScanTupleSlot st).

Definition set_ss_ss_ScanTupleSlot (st : AggState) (x : TupleTableSlot) : AggState :=
  mkAggState (aggstrategy st) (skipfinal st) (numaggs st) (numtrans st)
    (maxsets st) (numphases st) (phases st) (peragg st)
    (all_grouped_cols st) (num_hashes st) (ss_ps_qual st)
    (ss_ps_ProjInfo st) (ss_ps_instrument st) (result_natts st)
    (current_phase st) (phase st) (projected_set st) (current_set st)
    (grouped_cols st) (input_done st) (agg_done st) (table_filled st)
    (grp_firstTuple st) (sort_in st) (sort_out st) (outerPlan st) (store st)
    (perhash st) (ss_ps_ExprContext st) (tmpcontext st) x.

Definition set_ss_ps_instrument (st : AggState) (x : option nat) : AggState :=
  mkAggState (aggstrategy st) (skipfinal st) (numaggs st) (numtrans st)
    (maxsets st) (numphases st) (phases st) (peragg st)
    (all_grouped_cols st) (num_hashes st) (ss_ps_qual st)
    (ss_ps_ProjInfo st) x (result_natts st) (current_phase st) (phase st)
    (projected_set st) (current_set st) (grouped_cols st) (input_done st)
    (agg_done st) (table_filled st) (grp_firstTuple st) (sort_in st)
    (sort_out st) (outerPlan st) (store st) (perhash st)
    (ss_ps_ExprContext st) (tmpcontext st) (ss_ss_ScanTupleSlot st).

(** The custom scan node around the aggregation state. *)
Record VectorAggState : Type := mkVas {
  aggstate : AggState;
  resultSlot : VectorTupleSlot
}.

(** ** Aggregation driver: operations (nodeAgg.c) *)

(** [aggstate->phase]: the per-phase data the pointer designates. *)
Definition cur_phase (aggstate : AggState) : outcome AggStatePerPhaseData :=
  if (phase aggstate <? 0)%Z then Fail SEGV
  else match phases aggstate !! Z.to_nat (phase aggstate) with
       | Some p => Done p
       | None => Fail SEGV
       end.

(** [initialize_phase]: switch to phase [newphase], which must be 0 or 1
    (to reset) or [current_phase + 1]; the assertion that says so is compiled
    out of production builds and is not part of the model. *)
Definition initialize_phase (aggstate : AggState) (newphase : Z)
  : outcome AggState :=
  (* we're now done with whatever input tuplesort was in use *)
  let st1 := set_sort_in aggstate None in
  st2 ← (if (newphase <=? 1)%Z then
           (* discard any existing output tuplesort *)
           Done (set_sort_out st1 None)
         else
           (* the old output tuplesort becomes the new input one *)
           match sort_out st1 with
           | None => Fail SEGV
           | Some so =>
               Done (set_sort_out
                       (set_sort_in st1
                          (Some (mkPhaseSort (phs_put so) (phs_order so)
                                   (phs_order so (phs_put so)))))
                       None)
           end);
  (* if this isn't the last phase, sort for the next phase in sequence *)
  st3 ← (if (0 <? newphase)%Z && (newphase <? numphases st2 - 1)%Z then
           match phases st2 !! Z.to_nat (newphase + 1) with
           | None => Fail SEGV
           | Some ph =>
               match sortnode ph with
               | None => Fail SEGV
               | Some sn =>
                   Done (set_sort_out st2 (Some (mkPhaseSort [] (so_order sn) [])))
               end
           end
         else Done st2);
  Done (set_phase (set_current_phase st3 newphase) newphase).

Definition ExecProcNode (ps : PlanState) : option Slot * PlanState :=
  match pending ps with
  | [] => (None, ps)
  | s :: rest => (Some s, mkPlanState rest (rescan_from ps) (chgParam ps))
  end.

Definition ExecReScan (ps : PlanState) : PlanState :=
  mkPlanState (rescan_from ps) (rescan_from ps) false.

(** [fetch_input_tuple]: from the child plan, or from the sorter filled by
    the previous phase; the tuple is copied to the sorter of the next phase. *)
Definition fetch_input_tuple (aggstate : AggState) : option Slot * AggState :=
  let copy_out (slot : option Slot) (st : AggState) :=
    match slot, sort_out st with
    | Some s, Some so =>
        if negb (TupIsNull slot) then
          (slot, set_sort_out st
                   (Some (mkPhaseSort (phs_put so ++ [s]) (phs_order so)
                            (phs_out so))))
        else (slot, st)
    | _, _ => (slot, st)
    end in
  match sort_in aggstate with
  | Some si =>
      match phs_out si with
      | [] => (None, aggstate)
      | s :: rest =>
          copy_out (Some s)
            (set_sort_in aggstate
               (Some (mkPhaseSort (phs_put si) (phs_order si) rest)))
      end
  | None =>
      let r := ExecProcNode (outerPlan aggstate) in
      copy_out (fst r) (set_outerPlan aggstate (snd r))
  end.

(** [select_current_set]; memory contexts are not modelled. *)
Definition select_current_set (aggstate : AggState) (setno : nat) (is_hash : bool)
  : AggState :=
  set_current_set aggstate setno.

Definition set_pertrans (s : TransStore) (x : list AggStatePerTransData) : TransStore :=
  mkStore x (pergroups s) (hash_entries s) (hash_pergroup s) (fmgr_trace s).
Definition set_pergroups (s : TransStore)
    (x : option (list (list AggStatePerGroupData))) : TransStore :=
  mkStore (pertrans s) x (hash_entries s) (hash_pergroup s) (fmgr_trace s).
Definition set_hash_entries (s : TransStore) (x : list (list TupleHashEntryData))
  : TransStore :=
  mkStore (pertrans s) (pergroups s) x (hash_pergroup s) (fmgr_trace s).
Definition set_hash_pergroup (s : TransStore) (x : list (list (option nat)))
  : TransStore :=
  mkStore (pertrans s) (pergroups s) (hash_entries s) x (fmgr_trace s).
Definition set_fmgr_trace (s : TransStore) (x : Trace) : TransStore :=
  mkStore (pertrans s) (pergroups s) (hash_entries s) (hash_pergroup s) x.

(** The loop of [initialize_aggregates] over the transition states of one
    grouping set. *)
Fixpoint initialize_trans_loop (setno transno n : nat)
    (pts : list AggStatePerTransData) (pergroup : list AggStatePerGroupData)
  : outcome (list AggStatePerTransData * list AggStatePerGroupData) :=
  match n with
  | O => Done (pts, pergroup)
  | S n' =>
      match pts !! transno, pergroup !! transno with
      | Some pt, Some _ =>
          r ← initialize_aggregate setno pt;
          initialize_trans_loop setno (S transno) n'
            (<[transno := fst r]> pts) (<[transno := snd r]> pergroup)
      | _, _ => Fail SEGV
      end
  end.

Fixpoint initialize_sets_loop (numTrans setno n : nat)
    (pts : list AggStatePerTransData)
    (pergroups' : list (list AggStatePerGroupData))
  : outcome (list AggStatePerTransData * list (list AggStatePerGroupData)) :=
  match n with
  | O => Done (pts, pergroups')
  | S n' =>
      match pergroups' !! setno with
      | None => Fail SEGV
      | Some pergroup =>
          r ← initialize_trans_loop setno 0 numTrans pts pergroup;
          initialize_sets_loop numTrans (S setno) n' (fst r)
            (<[setno := snd r]> pergroups')
      end
  end.

(** [initialize_aggregates]: initialize the transition states of the first
    [numReset] grouping sets (all of them when [numReset] is 0). *)
Definition initialize_aggregates (aggstate : AggState) (numReset : nat)
  : outcome AggState :=
  ph ← cur_phase aggstate;
  let numGroupingSets := Nat.max (numsets ph) 1 in
  let numReset := if (numReset =? 0)%nat then numGroupingSets else numReset in
  match pergroups (store aggstate) with
  | None => Fail SEGV
  | Some pgs =>
      r ← initialize_sets_loop (numtrans aggstate) 0 numReset
            (pertrans (store aggstate)) pgs;
      Done (set_current_set
              (set_store aggstate
                 (set_pergroups (set_pertrans (store aggstate) (fst r))
                    (Some (snd r))))
              (numReset - 1))
  end.

(** [advance_aggregates]: evaluate the transition expression of the phase. *)
Definition advance_aggregates (aggstate : AggState) : outcome AggState :=
  ph ← cur_phase aggstate;
  match evaltrans ph with
  | None => Fail SEGV
  | Some f =>
      match f (tmpcontext aggstate) (store aggstate) with
      | None => Fail ERROR
      | Some s => Done (set_store aggstate s)
      end
  end.

(** [ExecStoreAllNullTuple] and [slot_getsomeattrs] of the executor proper,
    on the base part of a slot. *)
Definition ExecStoreAllNullTuple (t : TupleTableSlot) : TupleTableSlot :=
  mkSlot false false (length (tts_values t))
    (map (fun _ => 0%Z) (tts_values t)) (map (fun _ => true) (tts_isnull t)).

Definition set_base (s : Slot) (t : TupleTableSlot) : Slot :=
  match s with
  | Plain _ => Plain t
  | Vector v => Vector (mkVSlot t (dim v) (bufnum v) (tts_buffers v) (skip v)
                          (columns v))
  end.

(** Neither a virtual nor a vector slot can produce further attributes. *)
Definition slot_getsomeattrs (s : Slot) (attnum : nat) : outcome Slot :=
  if (attnum <=? tts_nvalid (base s))%nat then Done s else Fail ERROR.

(** The loop of [prepare_projection_slot] that forces to null the grouping
    columns that are not grouped in the current set. *)
Fixpoint null_ungrouped (cols : list nat) (grouped : list nat)
    (isnulls : list bool) : outcome (list bool) :=
  match cols with
  | [] => Done isnulls
  | attnum :: rest =>
      if existsb (Nat.eqb attnum) grouped then null_ungrouped rest grouped isnulls
      else
        match attnum with
        | O => Fail SEGV
        | S k =>
            if (k <? length isnulls)%nat
            then null_ungrouped rest grouped (<[k := true]> isnulls)
            else Fail SEGV
        end
  end.

(** [prepare_projection_slot]: the slot and the new [aggstate->grouped_cols]. *)
Definition prepare_projection_slot (aggstate : AggState) (slot : option Slot)
    (currentSet : nat) : outcome (option Slot * AggState) :=
  ph ← cur_phase aggstate;
  match ph_grouped_cols ph with
  | None => Done (slot, aggstate)
  | Some gcs =>
      match gcs !! currentSet, slot with
      | Some grouped, Some s =>
          let aggstate1 := set_grouped_cols aggstate grouped in
          if TTS_EMPTY s then
            Done (Some (set_base s (ExecStoreAllNullTuple (base s))), aggstate1)
          else
            match all_grouped_cols aggstate with
            | [] => Done (slot, aggstate1)
            | largest :: _ =>
                s1 ← slot_getsomeattrs s largest;
                nulls ← null_ungrouped (all_grouped_cols aggstate) grouped
                          (tts_isnull (base s1));
                Done (Some (set_base s1
                              (mkSlot (tts_empty (base s1))
                                 (tts_shouldfree (base s1)) (tts_nvalid (base s1))
                                 (tts_values (base s1)) nulls)),
                      aggstate1)
            end
      | _, _ => Fail SEGV
      end
  end.

(** First loop of [finalize_aggregates]: sort the inputs of the DISTINCT and
    ORDER BY aggregates and run their transition functions. *)
Fixpoint finalize_ordered_loop (current_set' transno n : nat)
    (pts : list AggStatePerTransData) (pergroup : list AggStatePerGroupData)
  : M Trace (list AggStatePerTransData * list AggStatePerGroupData) :=
  match n with
  | O => ret (pts, pergroup)
  | S n' =>
      match pts !! transno with
      | None => raise SEGV
      | Some pt =>
          if (0 <? numSortCols pt)%nat then
            match pergroup !! transno with
            | None => raise SEGV
            | Some pg =>
                (r <- (if (numInputs pt =? 1)%nat
                       then process_ordered_aggregate_single current_set' pt pg
                       else process_ordered_aggregate_multi current_set' pt pg) ;;
                 finalize_ordered_loop current_set' (S transno) n'
                   (<[transno := fst r]> pts) (<[transno := snd r]> pergroup))%monad
            end
          else finalize_ordered_loop current_set' (S transno) n' pts pergroup
      end
  end.

Record FinalState : Type := mkFinal {
  f_pertrans : list AggStatePerTransData;
  f_pergroup : list AggStatePerGroupData;
  f_econtext : ExprContext
}.

(** Second loop of [finalize_aggregates]: run the final functions. *)
Fixpoint finalize_results_loop (skipfinal' : bool)
    (peraggs : list AggStatePerAggData) (aggno n : nat) (fs : FinalState)
  : M Trace FinalState :=
  match n with
  | O => ret fs
  | S n' =>
      match peraggs !! aggno with
      | None => raise SEGV
      | Some pa =>
          match f_pertrans fs !! transno pa, f_pergroup fs !! transno pa with
          | Some pt, Some pg =>
              if (aggno <? length (ecxt_aggvalues (f_econtext fs)))%nat
                 && (aggno <? length (ecxt_aggnulls (f_econtext fs)))%nat
              then
                (if skipfinal' then
                   r <- finalize_partialaggregate pa pt pg ;;
                   finalize_results_loop skipfinal' peraggs (S aggno) n'
                     (mkFinal (<[transno pa := snd (fst r)]> (f_pertrans fs))
                        (<[transno pa := snd r]> (f_pergroup fs))
                        (set_aggresult (f_econtext fs) aggno (fst (fst r))))
                 else
                   r <- finalize_aggregate (f_econtext fs) pa pt pg ;;
                   finalize_results_loop skipfinal' peraggs (S aggno) n'
                     (mkFinal (f_pertrans fs)
                        (<[transno pa := snd r]> (f_pergroup fs))
                        (set_aggresult (f_econtext fs) aggno (fst r))))%monad
              else raise SEGV
          | _, _ => raise SEGV
          end
      end
  end.

(** [finalize_aggregates]: the final value of all aggregates of one group;
    [pergroup] is the group's array of transition states. *)
Definition finalize_aggregates (aggstate : AggState)
    (pergroup : option (list AggStatePerGroupData))
  : outcome (list AggStatePerGroupData * AggState) :=
  match pergroup with
  | None =>
      if (numtrans aggstate =? 0)%nat && (numaggs aggstate =? 0)%nat
      then Done ([], aggstate) else Fail SEGV
  | Some pg =>
      let run :=
        (r <- finalize_ordered_loop (current_set aggstate) 0 (numtrans aggstate)
                (pertrans (store aggstate)) pg ;;
         finalize_results_loop (skipfinal aggstate) (peragg aggstate) 0
           (numaggs aggstate)
           (mkFinal (fst r) (snd r) (ss_ps_ExprContext aggstate)))%monad in
      match run (fmgr_trace (store aggstate)) with
      | Fail f => Fail f
      | Done (fs, tr) =>
          Done (f_pergroup fs,
                set_ss_ps_ExprContext
                  (set_store aggstate
                     (set_fmgr_trace (set_pertrans (store aggstate) (f_pertrans fs))
                        tr))
                  (f_econtext fs))
      end
  end.

(** [project_aggregates]: the projected row of the group, or NULL when the
    HAVING clause rejects the group. *)
Definition project_aggregates (aggstate : AggState)
  : outcome (option TupleTableSlot * AggState) :=
  ok ← ExecQual (ss_ps_qual aggstate) (ss_ps_ExprContext aggstate);
  if (ok : bool) then
    match ss_ps_ProjInfo aggstate (ss_ps_ExprContext aggstate) with
    | None => Fail ERROR
    | Some row => Done (Some row, aggstate)
    end
  else
    Done (None,
          set_ss_ps_instrument aggstate
            (match ss_ps_instrument aggstate with
             | Some n => Some (S n)
             | None => None
             end)).

(** ** Hash table of groups

    The tuple hash table is an external service: its entries are kept in
    insertion order, which is also the order of iteration; two keys belong
    to the same group when [ht_same_key] says so. *)

Fixpoint find_entry (same : list NullableDatum -> list NullableDatum -> bool)
    (key : list NullableDatum) (entries : list TupleHashEntryData) (i : nat)
  : option nat :=
  match entries with
  | [] => None
  | e :: rest =>
      if same (firstTuple e) key then Some i else find_entry same key rest (S i)
  end.

(** [LookupTupleHashEntry]: the entry of the key, created when missing. *)
Definition LookupTupleHashEntry
    (same : list NullableDatum -> list NullableDatum -> bool)
    (entries : list TupleHashEntryData) (key : list NullableDatum)
  : nat * bool * list TupleHashEntryData :=
  match find_entry same key entries 0 with
  | Some i => (i, false, entries)
  | None => (length entries, true, entries ++ [mkEntry key None])
  end.

Section AggDriver.

(** Macro constant of vtype.h. *)
Variable BATCHSIZE : nat.

(** The loop of [lookup_hash_entry] that moves the needed columns of row
    [row] into the hash slot. *)
Fixpoint fill_hashslot (cols : list vtype) (idx : list nat) (row j n : nat)
    (vals : list Datum) (nulls : list bool)
  : outcome (list Datum * list bool) :=
  match n with
  | O => Done (vals, nulls)
  | S n' =>
      match idx !! j with
      | Some (S varNumber) =>
          match cols !! varNumber with
          | Some column =>
              match v_values column !! row, v_isnull column !! row with
              | Some v, Some b =>
                  if (j <? length vals)%nat && (j <? length nulls)%nat then
                    fill_hashslot cols idx row (S j) n'
                      (<[j := v]> vals) (<[j := b]> nulls)
                  else Fail SEGV
              | _, _ => Fail SEGV
              end
          | None => Fail SEGV
          end
      | _ => Fail SEGV
      end
  end.

(** Initialization of the transition states of a new hash entry. *)
Fixpoint initialize_entry_loop (setno transno n : nat)
    (pts : list AggStatePerTransData) (acc : list AggStatePerGroupData)
  : outcome (list AggStatePerTransData * list AggStatePerGroupData) :=
  match n with
  | O => Done (pts, acc)
  | S n' =>
      match pts !! transno with
      | None => Fail SEGV
      | Some pt =>
          r ← initialize_aggregate setno pt;
          initialize_entry_loop setno (S transno) n'
            (<[transno := fst r]> pts) (acc ++ [snd r])
      end
  end.

Record LookupState : Type := mkLookup {
  lk_hashslot : TupleTableSlot;
  lk_entries : list TupleHashEntryData;
  lk_pertrans : list AggStatePerTransData;
  lk_vector : list (option nat)
}.

(** The loop of [lookup_hash_entry] over the rows of the batch. *)
Fixpoint lookup_rows (numtrans' setno : nat) (perhash' : AggStatePerHashData)
    (vslot : VectorTupleSlot) (i n : nat) (ls : LookupState)
  : outcome LookupState :=
  match n with
  | O => Done ls
  | S n' =>
      match skip vslot !! i with
      | None => Fail SEGV
      | Some true => lookup_rows numtrans' setno perhash' vslot (S i) n' ls
      | Some false =>
          let cleared := tts_virtual_clear (lk_hashslot ls) in
          kv ← fill_hashslot (columns vslot) (hashGrpColIdxInput perhash') i 0
                 (numhashGrpCols perhash') (tts_values cleared)
                 (tts_isnull cleared);
          (* ExecStoreVirtualTuple(hashslot) *)
          let hs := mkSlot false false (length (fst kv)) (fst kv) (snd kv) in
          let key := zip_with mkND (take (numhashGrpCols perhash') (fst kv))
                       (take (numhashGrpCols perhash') (snd kv)) in
          let found := LookupTupleHashEntry (ht_same_key perhash')
                         (lk_entries ls) key in
          let entry := fst (fst found) in
          let isnew := snd (fst found) in
          r ← (if isnew then
                 g ← initialize_entry_loop setno 0 numtrans' (lk_pertrans ls) [];
                 Done (fst g,
                       <[entry := mkEntry key (Some (snd g))]> (snd found))
               else Done (lk_pertrans ls, snd found));
          if (i <? length (lk_vector ls))%nat then
            lookup_rows numtrans' setno perhash' vslot (S i) n'
              (mkLookup hs (snd r) (fst r) (<[i := Some entry]> (lk_vector ls)))
          else Fail SEGV
      end
  end.

(** [lookup_hash_entry]: find or create the entries of the groups of the
    rows of the current batch, for the hash table of [current_set]. *)
Definition lookup_hash_entry (aggstate : AggState)
  : outcome (list (option nat) * AggState) :=
  match ecxt_outertuple (tmpcontext aggstate),
        perhash aggstate !! current_set aggstate,
        hash_entries (store aggstate) !! current_set aggstate with
  | Some (Vector vslot), Some ph, Some entries =>
      if hashtable ph then
        (* Vslot_getsomeattrs(inputslot, perhash->largestGrpColIdx) *)
        if (largestGrpColIdx ph <=? tts_nvalid (tts vslot))%nat then
          ls ← lookup_rows (numtrans aggstate) (current_set aggstate) ph vslot
                 0 BATCHSIZE
                 (mkLookup (hashslot ph) entries (pertrans (store aggstate))
                    (replicate BATCHSIZE None));
          Done (lk_vector ls,
                set_perhash
                  (set_store aggstate
                     (set_hash_entries
                        (set_pertrans (store aggstate) (lk_pertrans ls))
                        (<[current_set aggstate := lk_entries ls]>
                           (hash_entries (store aggstate)))))
                  (<[current_set aggstate := set_hashslot ph (lk_hashslot ls)]>
                     (perhash aggstate)))
        else Fail ERROR
      else Fail SEGV
  | _, _, _ => Fail SEGV
  end.

(** [lookup_hash_entries]: for every hashed grouping set. *)
Fixpoint lookup_hash_entries_loop (setno n : nat) (aggstate : AggState)
  : outcome AggState :=
  match n with
  | O => Done aggstate
  | S n' =>
      r ← lookup_hash_entry (select_current_set aggstate setno true);
      if (setno <? length (hash_pergroup (store (snd r))))%nat then
        lookup_hash_entries_loop (S setno) n'
          (set_store (snd r)
             (set_hash_pergroup (store (snd r))
                (<[setno := fst r]> (hash_pergroup (store (snd r))))))
      else Fail SEGV
  end.

Definition lookup_hash_entries (aggstate : AggState) : outcome AggState :=
  lookup_hash_entries_loop 0 (num_hashes aggstate) aggstate.

(** [ResetTupleHashIterator] on the table of hashed set [setno]. *)
Definition ResetTupleHashIterator (aggstate : AggState) (setno : nat)
  : outcome AggState :=
  match perhash aggstate !! setno with
  | Some ph =>
      if hashtable ph then
        Done (set_perhash aggstate
                (<[setno := set_hashiter ph 0]> (perhash aggstate)))
      else Fail SEGV
  | None => Fail SEGV
  end.

(** [build_hash_table]: build the hash tables, or empty them. *)
Fixpoint build_hash_table_loop (i n : nat) (aggstate : AggState)
  : outcome AggState :=
  match n with
  | O => Done aggstate
  | S n' =>
      match perhash aggstate !! i with
      | None => Fail SEGV
      | Some ph =>
          if (i <? length (hash_entries (store aggstate)))%nat then
            build_hash_table_loop (S i) n'
              (set_perhash
                 (set_store aggstate
                    (set_hash_entries (store aggstate)
                       (<[i := []]> (hash_entries (store aggstate)))))
                 (<[i := set_hashtable ph true]> (perhash aggstate)))
          else Fail SEGV
      end
  end.

Definition build_hash_table (aggstate : AggState) : outcome AggState :=
  build_hash_table_loop 0 (num_hashes aggstate) aggstate.

(** [agg_fill_hash_table]: read the input and build the hash tables. *)
Fixpoint agg_fill_loop (fuel : nat) (aggstate : AggState) : outcome AggState :=
  match fuel with
  | O => Fail FUEL
  | S fuel' =>
      let r := fetch_input_tuple aggstate in
      if TupIsNull (fst r) then Done (snd r)
      else
        let st1 := set_tmpcontext (snd r)
                     (set_outertuple (tmpcontext (snd r)) (fst r)) in
        st2 ← lookup_hash_entries st1;
        st3 ← advance_aggregates st2;
        agg_fill_loop fuel' st3
  end.

Definition agg_fill_hash_table (fuel : nat) (aggstate : AggState)
  : outcome AggState :=
  st1 ← agg_fill_loop fuel aggstate;
  let st2 := set_table_filled st1 true in
  (* initialize to walk the first hash table *)
  ResetTupleHashIterator (select_current_set st2 0 true) 0.

(** [ExecCopySlotHeapTuple]: of a batch, the first row. *)
Definition ExecCopySlotHeapTuple (s : Slot) : outcome HeapTuple :=
  match s with
  | Plain t => Done (zip_with mkND (tts_values t) (tts_isnull t))
  | Vector v =>
      (fix copy (cols : list vtype) : outcome HeapTuple :=
         match cols with
         | [] => Done []
         | c :: rest =>
             match v_values c !! 0%nat, v_isnull c !! 0%nat with
             | Some x, Some b => tl ← copy rest; Done (mkND x b :: tl)
             | _, _ => Fail SEGV
             end
         end) (columns v)
  end.

(** The loop that copies the projected row into row [row] of the columns
    of the result batch: [column->values[row] = result->tts_values[i]]. *)
Fixpoint store_result_columns (result : option TupleTableSlot) (row i n : nat)
    (cols : list vtype) : outcome (list vtype) :=
  match n with
  | O => Done cols
  | S n' =>
      match result with
      | None => Fail SEGV
      | Some r =>
          match cols !! i, tts_values r !! i with
          | Some c, Some v =>
              if (row <? length (v_values c))%nat then
                store_result_columns result row (S i) n'
                  (<[i := mkVtype (v_dim c) (<[row := v]> (v_values c))
                            (v_isnull c)]> cols)
              else Fail SEGV
          | _, _ => Fail SEGV
          end
      end
  end.

Definition set_columns (v : VectorTupleSlot) (cols : list vtype)
  : VectorTupleSlot :=
  mkVSlot (tts v) (dim v) (bufnum v) (tts_buffers v) (skip v) cols.

(** The loop of [agg_retrieve_hash_table] that rebuilds the representative
    tuple of an entry in [firstSlot]. *)
Fixpoint restore_group_columns (idx : list nat) (key : list NullableDatum)
    (i n : nat) (vals : list Datum) (nulls : list bool)
  : outcome (list Datum * list bool) :=
  match n with
  | O => Done (vals, nulls)
  | S n' =>
      match idx !! i, key !! i with
      | Some (S varNumber), Some d =>
          if (varNumber <? length vals)%nat && (varNumber <? length nulls)%nat
          then restore_group_columns idx key (S i) n'
                 (<[varNumber := value d]> vals) (<[varNumber := isnull d]> nulls)
          else Fail SEGV
      | _, _ => Fail SEGV
      end
  end.

(** The loop [while (!aggstate->agg_done)] of [agg_retrieve_hash_table];
    [row] counts the rows put into the result batch. *)
Fixpoint agg_retrieve_hash_loop (fuel row : nat) (vas : VectorAggState)
  : outcome VectorAggState :=
  match fuel with
  | O => Fail FUEL
  | S fuel' =>
      let st := aggstate vas in
      if agg_done st then Done vas
      else
        match perhash st !! current_set st,
              hash_entries (store st) !! current_set st with
        | Some ph, Some entries =>
            if negb (hashtable ph) then Fail SEGV
            else
              (* find the next entry in the hash table *)
              match entries !! hashiter ph with
              | None =>
                  let nextset := S (current_set st) in
                  if (nextset <? num_hashes st)%nat then
                    (* switch to the next grouping set and restart the loop *)
                    st1 ← ResetTupleHashIterator
                            (select_current_set st nextset true) nextset;
                    agg_retrieve_hash_loop fuel' row (mkVas st1 (resultSlot vas))
                  else
                    (* no more hashtables, so done *)
                    Done (mkVas (set_agg_done st true) (resultSlot vas))
              | Some entry =>
                  let st1 := set_perhash st
                               (<[current_set st := set_hashiter ph (S (hashiter ph))]>
                                  (perhash st)) in
                  (* transform the representative tuple back into one with
                     the right columns *)
                  let firstSlot := tts_virtual_clear (ss_ss_ScanTupleSlot st1) in
                  kv ← restore_group_columns (hashGrpColIdxInput ph)
                         (firstTuple entry) 0 (numhashGrpCols ph)
                         (tts_values firstSlot)
                         (map (fun _ => true) (tts_isnull firstSlot));
                  let firstSlot' :=
                    mkSlot false false (length (fst kv)) (fst kv) (snd kv) in
                  let st2 :=
                    set_ss_ps_ExprContext st1
                      (set_outertuple (ss_ps_ExprContext st1)
                         (Some (Plain firstSlot'))) in
                  p ← prepare_projection_slot st2
                        (ecxt_outertuple (ss_ps_ExprContext st2))
                        (current_set st2);
                  let st3 :=
                    set_ss_ss_ScanTupleSlot
                      (set_ss_ps_ExprContext (snd p)
                         (set_outertuple (ss_ps_ExprContext (snd p)) (fst p)))
                      (match fst p with
                       | Some s => base s
                       | None => firstSlot'
                       end) in
                  f ← finalize_aggregates st3 (additional entry);
                  let st4 :=
                    set_store (snd f)
                      (set_hash_entries (store (snd f))
                         (<[current_set st :=
                              <[hashiter ph := mkEntry (firstTuple entry)
                                                 (match additional entry with
                                                  | Some _ => Some (fst f)
                                                  | None => None
                                                  end)]> entries]>
                            (hash_entries (store (snd f))))) in
                  r ← project_aggregates st4;
                  cols ← store_result_columns (fst r) row 0 (result_natts (snd r))
                           (columns (resultSlot vas));
                  let vas' := mkVas (snd r) (set_columns (resultSlot vas) cols) in
                  if (S row =? BATCHSIZE)%nat then Done vas'
                  else agg_retrieve_hash_loop fuel' (S row) vas'
              end
        | _, _ => Fail SEGV
        end
  end.

(** [agg_retrieve_hash_table]: retrieving groups from the hash table. *)
Definition agg_retrieve_hash_table (fuel : nat) (vas : VectorAggState)
  : outcome (option VectorTupleSlot * VectorAggState) :=
  vslot ← tts_vector_clear (resultSlot vas);
  vas' ← agg_retrieve_hash_loop fuel 0 (mkVas (aggstate vas) vslot);
  (* No more groups *)
  Done (None, vas').

(** *** The non-hashed case

    Slots are values here: a pointer to a slot stands for the slot as it
    was when the pointer was taken.  The local [outerslot] of
    [agg_retrieve_direct] is read before it is assigned when a call starts
    with a pending first tuple of a group; [indeterminate_slot] is what that
    read yields. *)
Variable indeterminate_slot : option Slot.

(** How the body of a loop hands control back. *)
Inductive LoopCtl : Type :=
| Continue
| Break
| Return (result : option VectorTupleSlot).

(** The locals of [agg_retrieve_direct] that live across iterations. *)
Record DirectLocals : Type := mkLocals {
  l_node : option Agg;
  l_numGroupingSets : nat;
  l_firstSlot : option Slot;
  l_outerslot : option Slot
}.

(** The loop [for (;;)] of [agg_retrieve_direct]: process each outer-plan
    tuple until the outer plan is exhausted or a group boundary is crossed.
    The result is the last value of [outerslot]. *)
Fixpoint agg_group_loop (fuel : nat) (hasGroupingSets : bool)
    (node : option Agg) (firstSlot : option Slot) (aggstate : AggState)
  : outcome (option Slot * AggState) :=
  match fuel with
  | O => Fail FUEL
  | S fuel' =>
      (* during phase 1 only of a mixed agg, update the hash tables too *)
      st1 ← (if AggStrategy_eqb (aggstrategy aggstate) AGG_MIXED
                && (current_phase aggstate =? 1)%Z
             then lookup_hash_entries aggstate
             else Done aggstate);
      st2 ← advance_aggregates st1;
      let r := fetch_input_tuple st2 in
      let outerslot := fst r in
      if TupIsNull outerslot then
        (* no more outer-plan tuples available *)
        if hasGroupingSets
        then Done (outerslot, set_input_done (snd r) true)
        else Done (outerslot, set_agg_done (snd r) true)
      else
        (* set up for the next advance_aggregates call *)
        let st3 := set_tmpcontext (snd r)
                     (set_outertuple (tmpcontext (snd r)) outerslot) in
        match node with
        | None => Fail SEGV
        | Some nd =>
            if negb (AggStrategy_eqb (node_aggstrategy nd) AGG_PLAIN) then
              (* check whether we have crossed a group boundary *)
              let st4 := set_tmpcontext st3
                           (set_innertuple (tmpcontext st3) firstSlot) in
              ph ← cur_phase st4;
              match eqfunctions ph, numCols nd, outerslot with
              | Some eqfs, S k, Some os =>
                  match eqfs !! k with
                  | None => Fail SEGV
                  | Some eqf =>
                      same ← ExecQual eqf (tmpcontext st4);
                      if (same : bool)
                      then agg_group_loop fuel' hasGroupingSets node firstSlot st4
                      else
                        tup ← ExecCopySlotHeapTuple os;
                        Done (outerslot, set_grp_firstTuple st4 (Some tup))
                  end
              | _, _, _ => Fail SEGV
              end
            else agg_group_loop fuel' hasGroupingSets node firstSlot st3
        end
  end.

(** The loop [while (gset_lengths[projected_set] > 0)] that looks for a
    grouping set of size 0 when the input is empty. *)
Fixpoint skip_nonempty_sets (fuel numGroupingSets : nat) (aggstate : AggState)
  : outcome AggState :=
  match fuel with
  | O => Fail FUEL
  | S fuel' =>
      ph ← cur_phase aggstate;
      match gset_lengths ph with
      | None => Fail SEGV
      | Some gl =>
          if (projected_set aggstate <? 0)%Z then Fail SEGV
          else
            match gl !! Z.to_nat (projected_set aggstate) with
            | None => Fail SEGV
            | Some len =>
                if (0 <? len)%nat then
                  let st1 := set_projected_set aggstate
                               (projected_set aggstate + 1) in
                  if (Z.of_nat numGroupingSets <=? projected_set st1)%Z
                  then Done st1
                  else skip_nonempty_sets fuel' numGroupingSets st1
                else Done aggstate
            end
      end
  end.

Definition set_aggstate (vas : VectorAggState) (st : AggState) : VectorAggState :=
  mkVas st (resultSlot vas).

(** The end of the body of the loop of [agg_retrieve_direct]: finalize and
    project the group of [projected_set], and put the row into the result
    batch. *)
Definition agg_project_group (loc : DirectLocals) (vas : VectorAggState)
  : outcome (LoopCtl * DirectLocals * VectorAggState) :=
  let aggstate := aggstate vas in
  if (projected_set aggstate <? 0)%Z then Fail SEGV
  else
    let currentSet := Z.to_nat (projected_set aggstate) in
    p ← prepare_projection_slot aggstate
          (ecxt_outertuple (ss_ps_ExprContext aggstate)) currentSet;
    let st1 := set_ss_ps_ExprContext (snd p)
                 (set_outertuple (ss_ps_ExprContext (snd p)) (fst p)) in
    let st2 := select_current_set st1 currentSet false in
    match pergroups (store st2) with
    | None => Fail SEGV
    | Some pgs =>
        match pgs !! currentSet with
        | None => Fail SEGV
        | Some pg =>
            f ← finalize_aggregates st2 (Some pg);
            let st3 :=
              set_store (snd f)
                (set_pergroups (store (snd f))
                   (Some (<[currentSet := fst f]> pgs))) in
            r ← project_aggregates st3;
            (* postprocess plain agg return value *)
            vslot ← tts_vector_clear (resultSlot vas);
            cols ← store_result_columns (fst r) 0 0 (result_natts (snd r))
                     (columns vslot);
            if (0 <? length (skip vslot))%nat then
              let vslot' :=
                mkVSlot
                  (mkSlot false (tts_shouldfree (tts vslot))
                     (tts_nvalid (tts vslot)) (tts_values (tts vslot))
                     (tts_isnull (tts vslot)))
                  (dim vslot) (bufnum vslot) (tts_buffers vslot)
                  (<[0%nat := false]> (skip vslot)) cols in
              Done (Return (Some vslot'), loc, mkVas (snd r) vslot')
            else Fail SEGV
        end
    end.

(** The branch of [agg_retrieve_direct] for an outer plan that produced no
    tuples at all.  [Break] stands for the [continue] of the outer loop,
    [Continue] for going on with the body. *)
Definition no_input_tuples (hasGroupingSets : bool) (loc : DirectLocals)
    (aggstate : AggState) : outcome (LoopCtl * DirectLocals * AggState) :=
  if hasGroupingSets then
    (* project rows only if there are grouping sets of size 0 *)
    st1 ← skip_nonempty_sets (l_numGroupingSets loc) (l_numGroupingSets loc)
            (set_input_done aggstate true);
    if (Z.of_nat (l_numGroupingSets loc) <=? projected_set st1)%Z
    then Done (Break, loc, st1)
    else Done (Continue, loc, st1)
  else
    let st1 := set_agg_done aggstate true in
    match l_node loc with
    | None => Fail SEGV
    | Some nd =>
        (* if we are grouping, we should produce no tuples too *)
        if negb (AggStrategy_eqb (node_aggstrategy nd) AGG_PLAIN)
        then Done (Return None, loc, st1)
        else Done (Continue, loc, st1)
    end.

(** The part of the body that starts a new group: fetch its first tuple
    unless it is pending, initialize the transition states and run the
    group loop. *)
Definition agg_start_group (fuel : nat) (hasGroupingSets : bool) (numReset : nat)
    (loc : DirectLocals) (vas : VectorAggState)
  : outcome (LoopCtl * DirectLocals * VectorAggState) :=
  (* the next projection will always be the first (or only) grouping set *)
  let st0 := set_projected_set (aggstate vas) 0 in
  (* if we don't already have the first tuple of the new group, fetch it *)
  fetched ←
    match grp_firstTuple st0 with
    | Some _ => Done (Continue, loc, st0)
    | None =>
        let r := fetch_input_tuple st0 in
        let loc1 := mkLocals (l_node loc) (l_numGroupingSets loc)
                      (l_firstSlot loc) (fst r) in
        match fst r with
        | Some os =>
            if TTS_EMPTY os then no_input_tuples hasGroupingSets loc1 (snd r)
            else
              (* make a copy of the first input tuple *)
              tup ← ExecCopySlotHeapTuple os;
              Done (Continue, loc1, set_grp_firstTuple (snd r) (Some tup))
        | None => no_input_tuples hasGroupingSets loc1 (snd r)
        end
    end;
  match fetched with
  | (Break, loc1, st1) =>
      (* [continue] of the outer loop *)
      Done (Continue, loc1, set_aggstate vas st1)
  | (Return x, loc1, st1) => Done (Return x, loc1, set_aggstate vas st1)
  | (Continue, loc1, st1) =>
      (* initialize working state for a new input tuple group *)
      st2 ← initialize_aggregates st1 numReset;
      grouped ←
        match grp_firstTuple st2 with
        | None => Done (loc1, st2)
        | Some _ =>
            let firstSlot := l_outerslot loc1 in
            let st3 := set_grp_firstTuple st2 None in
            (* set up for first advance_aggregates call *)
            let st4 := set_tmpcontext st3
                         (set_outertuple (tmpcontext st3) firstSlot) in
            g ← agg_group_loop fuel hasGroupingSets (l_node loc1) firstSlot st4;
            Done (mkLocals (l_node loc1) (l_numGroupingSets loc1) firstSlot
                    (fst g),
                  snd g)
        end;
      (* use the representative input tuple for the projection *)
      let st5 := set_ss_ps_ExprContext (snd grouped)
                   (set_outertuple (ss_ps_ExprContext (snd grouped))
                      (l_firstSlot (fst grouped))) in
      agg_project_group (fst grouped) (set_aggstate vas st5)
  end.

(** The start of the body: the phase boundary, and whether the next
    grouping set of the group just projected is complete too. *)
Definition agg_next_group (fuel : nat) (hasGroupingSets : bool) (numReset : nat)
    (loc : DirectLocals) (vas : VectorAggState)
  : outcome (LoopCtl * DirectLocals * VectorAggState) :=
  let aggstate := aggstate vas in
  let numGroupingSets := Z.of_nat (l_numGroupingSets loc) in
  let ps := projected_set aggstate in
  (* the number of columns in the next grouping set after the last
     projected one (if any) *)
  nextSetSize ←
    (if (0 <=? ps)%Z && (ps <? numGroupingSets - 1)%Z then
       ph ← cur_phase aggstate;
       match gset_lengths ph with
       | None => Fail SEGV
       | Some gl =>
           match gl !! Z.to_nat (ps + 1) with
           | Some n => Done n
           | None => Fail SEGV
           end
       end
     else Done 0%nat);
  let st1 := set_tmpcontext aggstate
               (set_innertuple (tmpcontext aggstate)
                  (ecxt_outertuple (ss_ps_ExprContext aggstate))) in
  new_group ←
    (if input_done st1 then Done true
     else
       match l_node loc with
       | None => Fail SEGV
       | Some nd =>
           if negb (AggStrategy_eqb (node_aggstrategy nd) AGG_PLAIN)
              && negb (ps =? -1)%Z && (ps <? numGroupingSets - 1)%Z
              && (0 <? nextSetSize)%nat
           then
             ph ← cur_phase st1;
             match eqfunctions ph with
             | None => Fail SEGV
             | Some eqfs =>
                 match eqfs !! (nextSetSize - 1)%nat with
                 | None => Fail SEGV
                 | Some eqf =>
                     same ← ExecQual eqf (tmpcontext st1);
                     Done (negb same)
                 end
             end
           else Done false
       end);
  if (new_group : bool) then
    agg_project_group loc
      (set_aggstate vas (set_projected_set st1 (ps + 1)))
  else agg_start_group fuel hasGroupingSets numReset loc (set_aggstate vas st1).

(** The body of the loop [while (!aggstate->agg_done)] of
    [agg_retrieve_direct]. *)
Definition agg_retrieve_direct_body (fuel : nat) (hasGroupingSets : bool)
    (loc : DirectLocals) (vas : VectorAggState)
  : outcome (LoopCtl * DirectLocals * VectorAggState) :=
  let aggstate := aggstate vas in
  let numGroupingSets := l_numGroupingSets loc in
  (* how many grouping sets need to be reset at this boundary *)
  let numReset :=
    if (0 <=? projected_set aggstate)%Z
       && (projected_set aggstate <? Z.of_nat numGroupingSets)%Z
    then Z.to_nat (projected_set aggstate + 1)
    else numGroupingSets in
  (* input complete and no more groups to project in this phase: move to
     the next phase or mark as done *)
  if input_done aggstate
     && (Z.of_nat numGroupingSets - 1 <=? projected_set aggstate)%Z
  then
    if (current_phase aggstate <? numphases aggstate - 1)%Z then
      st1 ← initialize_phase aggstate (current_phase aggstate + 1);
      let st2 := set_projected_set (set_input_done st1 false) (-1) in
      ph ← cur_phase st2;
      let numGroupingSets' := Nat.max (numsets ph) 1 in
      agg_next_group fuel hasGroupingSets numGroupingSets'
        (mkLocals (aggnode ph) numGroupingSets' (l_firstSlot loc)
           (l_outerslot loc))
        (set_aggstate vas st2)
    else if AggStrategy_eqb (aggstrategy aggstate) AGG_MIXED then
      (* mixed mode: all the grouped stuff is output and the hash tables
         are full, so switch to outputting those *)
      st1 ← initialize_phase aggstate 0;
      st2 ← ResetTupleHashIterator (set_table_filled st1 true) 0;
      r ← agg_retrieve_hash_table fuel
            (set_aggstate vas (select_current_set st2 0 true));
      Done (Return (fst r), loc, snd r)
    else Done (Break, loc, set_aggstate vas (set_agg_done aggstate true))
  else agg_next_group fuel hasGroupingSets numReset loc vas.

Fixpoint agg_retrieve_direct_loop (fuel : nat) (hasGroupingSets : bool)
    (loc : DirectLocals) (vas : VectorAggState)
  : outcome (option VectorTupleSlot * VectorAggState) :=
  match fuel with
  | O => Fail FUEL
  | S fuel' =>
      if agg_done (aggstate vas) then Done (None, vas)
      else
        r ← agg_retrieve_direct_body fuel' hasGroupingSets loc vas;
        match r with
        | (Continue, loc', vas') =>
            agg_retrieve_direct_loop fuel' hasGroupingSets loc' vas'
        | (Break, _, vas') => Done (None, vas')
        | (Return x, _, vas') => Done (x, vas')
        end
  end.

(** [agg_retrieve_direct]: ExecAgg for the non-hashed case. *)
Definition agg_retrieve_direct (fuel : nat) (vas : VectorAggState)
  : outcome (option VectorTupleSlot * VectorAggState) :=
  ph ← cur_phase (aggstate vas);
  agg_retrieve_direct_loop fuel (0 <? numsets ph)%nat
    (mkLocals (aggnode ph) (Nat.max (numsets ph) 1)
       (Some (Plain (ss_ss_ScanTupleSlot (aggstate vas))))
       indeterminate_slot)
    vas.

(** [VExecAgg]: one call of the node; the result is a batch or NULL. *)
Definition VExecAgg (fuel : nat) (vas : VectorAggState)
  : outcome (option VectorTupleSlot * VectorAggState) :=
  let node := aggstate vas in
  if negb (agg_done node) then
    ph ← cur_phase node;
    (* dispatch based on strategy *)
    r ← match ph_aggstrategy ph with
        | AGG_HASHED =>
            st ← (if negb (table_filled node)
                  then agg_fill_hash_table fuel node
                  else Done node);
            (* and on to the retrieval *)
            agg_retrieve_hash_table fuel (set_aggstate vas st)
        | AGG_MIXED => agg_retrieve_hash_table fuel vas
        | AGG_PLAIN | AGG_SORTED => agg_retrieve_direct fuel vas
        end;
    if negb (TupIsNull (option_map Vector (fst r)))
    then Done (fst r, snd r)
    else Done (None, snd r)
  else Done (None, vas).

(** *** Rescan and set-up *)

(** [MemSet] to zero of the first [n] cells of an array. *)
Definition MemSet {A : Type} (zero : A) (n : nat) (a : list A) : outcome (list A) :=
  if (n <=? length a)%nat then Done (replicate n zero ++ drop n a)
  else Fail SEGV.

(** The loops of [ExecReScanAgg] that close the open tuplesorts. *)
Fixpoint close_sortstates (setno n : nat) (sorts : list (option Tuplesortstate))
  : outcome (list (option Tuplesortstate)) :=
  match n with
  | O => Done sorts
  | S n' =>
      match sorts !! setno with
      | None => Fail SEGV
      | Some _ => close_sortstates (S setno) n' (<[setno := None]> sorts)
      end
  end.

Fixpoint close_tuplesorts (numGroupingSets transno n : nat)
    (pts : list AggStatePerTransData) : outcome (list AggStatePerTransData) :=
  match n with
  | O => Done pts
  | S n' =>
      if (0 <? numGroupingSets)%nat then
        match pts !! transno with
        | None => Fail SEGV
        | Some pt =>
            sorts ← close_sortstates 0 numGroupingSets (sortstates pt);
            close_tuplesorts numGroupingSets (S transno) n'
              (<[transno := set_sortstates pt sorts]> pts)
        end
      else close_tuplesorts numGroupingSets (S transno) n' pts
  end.

(** The loop of [ExecReScanAgg] that resets the per-group state. *)
Fixpoint reset_pergroups (numaggs' setno n : nat)
    (pgs : list (list AggStatePerGroupData))
  : outcome (list (list AggStatePerGroupData)) :=
  match n with
  | O => Done pgs
  | S n' =>
      match pgs !! setno with
      | None => Fail SEGV
      | Some pg =>
          pg' ← MemSet (mkPerGroup 0 false false) numaggs' pg;
          reset_pergroups numaggs' (S setno) n' (<[setno := pg']> pgs)
      end
  end.

(** [ExecReScanAgg]; [params_overlap] is
    [bms_overlap(node->ss.ps.chgParam, aggnode->aggParams)]. *)
Definition ExecReScanAgg (params_overlap : bool) (node : AggState)
  : outcome AggState :=
  let numGroupingSets := Nat.max (maxsets node) 1 in
  let node := set_agg_done node false in
  let hashed := AggStrategy_eqb (aggstrategy node) AGG_HASHED in
  if hashed && negb (table_filled node) then
    (* the hash table is not built yet: nothing done, nothing to undo *)
    Done node
  else if hashed && negb (chgParam (outerPlan node)) && negb params_overlap then
    (* rescan the existing hash table *)
    st ← ResetTupleHashIterator node 0;
    Done (select_current_set st 0 true)
  else
    (* make sure we have closed any open tuplesorts *)
    pts ← close_tuplesorts numGroupingSets 0 (numtrans node)
            (pertrans (store node));
    let st1 := set_store node (set_pertrans (store node) pts) in
    (* release first tuple of group, if we have made a copy *)
    let st2 := set_ss_ss_ScanTupleSlot (set_grp_firstTuple st1 None)
                 (tts_virtual_clear (ss_ss_ScanTupleSlot st1)) in
    (* forget current agg values *)
    vals ← MemSet 0%Z (numaggs st2) (ecxt_aggvalues (ss_ps_ExprContext st2));
    nulls ← MemSet false (numaggs st2) (ecxt_aggnulls (ss_ps_ExprContext st2));
    let st3 :=
      set_ss_ps_ExprContext st2
        (mkEcxt (ecxt_scantuple (ss_ps_ExprContext st2))
           (ecxt_innertuple (ss_ps_ExprContext st2))
           (ecxt_outertuple (ss_ps_ExprContext st2)) vals nulls) in
    st4 ← (if hashed || AggStrategy_eqb (aggstrategy st3) AGG_MIXED then
             (* rebuild an empty hash table *)
             st ← build_hash_table st3;
             Done (set_table_filled st false)
           else Done st3);
    st5 ← (if negb hashed then
             (* reset the per-group state *)
             match pergroups (store st4) with
             | None => Fail SEGV
             | Some pgs =>
                 pgs' ← reset_pergroups (numaggs st4) 0 numGroupingSets pgs;
                 (* reset to phase 1 *)
                 st ← initialize_phase
                        (set_store st4 (set_pergroups (store st4) (Some pgs'))) 1;
                 Done (set_projected_set (set_input_done st false) (-1))
             end
           else Done st4);
    if negb (chgParam (outerPlan st5))
    then Done (set_outerPlan st5 (ExecReScan (outerPlan st5)))
    else Done st5.

(** The end of the set-up of the state in [VExecInitAgg]: the current
    phase-dependent values are set to the initial phase.  [aggstate] is the
    state as built so far, with its phase list. *)
Definition VExecInitAgg_initial_phase (node : Agg) (aggstate : AggState)
  : outcome AggState :=
  if AggStrategy_eqb (node_aggstrategy node) AGG_HASHED then
    st ← initialize_phase (set_current_phase aggstate 0) 0;
    Done (select_current_set st 0 true)
  else
    st ← initialize_phase (set_current_phase aggstate 1) 1;
    Done (select_current_set st 0 false).

End AggDriver.

(** ** Storing tuples into a vector slot (vectorTupleSlot.c)

    A vector slot holds up to BATCHSIZE heap tuples in [tts_tuples] and the
    buffers they live in in [tts_buffers]; both arrays have BATCHSIZE cells.
    The buffer manager is an external collaborator: what the slot code does
    to it is recorded as a list of events.  The model keeps [tts_tuples]
    beside the slot; a heap tuple is an opaque value. *)

Inductive PinEvent : Type :=
| EvIncrBufferRefCount (b : Buffer)
| EvReleaseBuffer (b : Buffer).

Definition HeapTupleData : Type := Z.

Record StoredSlot : Type := mkStored {
  st_slot : VectorTupleSlot;
  tts_tuples : list HeapTupleData
}.

(** [VExecStoreTuple(tuple, slot, buffer, shouldFree)]. *)
Definition VExecStoreTuple (tuple : HeapTupleData) (slot : StoredSlot)
    (buffer : Buffer) (shouldFree : bool)
  : outcome (StoredSlot * list PinEvent) :=
  let vslot := st_slot slot in
  (* store the new tuple into the slot, mark the extracted state invalid *)
  let flags := mkSlot false shouldFree 0 (tts_values (tts vslot))
                 (tts_isnull (tts vslot)) in
  if (dim vslot <? length (tts_tuples slot))%nat then
    let tuples := <[dim vslot := tuple]> (tts_tuples slot) in
    match (if (bufnum vslot =? 0)%nat then Done true
           else match tts_buffers vslot !! (bufnum vslot - 1)%nat with
                | None => Fail SEGV
                | Some last => Done (negb (last =? buffer)%Z)
                end) with
    | Fail f => Fail f
    | Done true =>
        match tts_buffers vslot !! bufnum vslot with
        | None => Fail SEGV
        | Some old =>
            Done (mkStored
                    (mkVSlot flags (S (dim vslot)) (S (bufnum vslot))
                       (<[bufnum vslot := buffer]> (tts_buffers vslot))
                       (skip vslot) (columns vslot))
                    tuples,
                  (if BufferIsValid old then [EvReleaseBuffer old] else [])
                  ++ (if BufferIsValid buffer
                      then [EvIncrBufferRefCount buffer] else []))
        end
    | Done false =>
        Done (mkStored
                (mkVSlot flags (S (dim vslot)) (bufnum vslot)
                   (tts_buffers vslot) (skip vslot) (columns vslot))
                tuples, [])
    end
  else Fail SEGV.

(** The loop of [tts_vector_clear] over the first [n] buffers, with the
    calls of [ReleaseBuffer] it makes. *)
Fixpoint release_buffers_pins (bufs : list Buffer) (i n : nat)
  : outcome (list Buffer * list PinEvent) :=
  match n with
  | O => Done (bufs, [])
  | S n' =>
      match bufs !! i with
      | None => Fail SEGV
      | Some b =>
          if BufferIsValid b then
            match release_buffers_pins (<[i := InvalidBuffer]> bufs) (S i) n' with
            | Fail f => Fail f
            | Done (bufs', evs) => Done (bufs', EvReleaseBuffer b :: evs)
            end
          else release_buffers_pins bufs (S i) n'
      end
  end.

(** [tts_vector_clear] with the calls of [ReleaseBuffer] it makes. *)
Definition tts_vector_clear_pins (vslot : VectorTupleSlot)
  : outcome (VectorTupleSlot * list PinEvent) :=
  if tts_empty (tts vslot) then Done (vslot, [])
  else
    match release_buffers_pins (tts_buffers vslot) 0 (bufnum vslot) with
    | Fail f => Fail f
    | Done (bufs, evs) =>
        Done (mkVSlot
                (mkSlot true false 0 (tts_values (tts vslot))
                   (tts_isnull (tts vslot)))
                0 0 bufs
                (map (fun _ => true) (skip vslot))
                (map (fun c => mkVtype 0 (v_values c) (v_isnull c))
                   (columns vslot)),
              evs)
    end.

(** ** Whether a scan needs a projection (execScan.c)

    [tlist_matches_tupdesc] decides whether the target list of a scan is
    exactly the list of the attributes of the scanned relation, in order; a
    scan whose target list is that needs no projection.  A tuple descriptor
    is the list of its attributes; the expression of a target entry is NULL,
    a [Var], or some other node.  The assertions on [varno] and
    [varlevelsup] are compiled out of production builds and are not part of
    the model. *)

Record FormData_pg_attribute : Type := mkAttribute {
  atttypid : Oid;
  atttypmod : Z;
  attisdropped : bool;
  atthasmissing : bool
}.

Record Var : Type := mkVar {
  varno : nat;
  varattno : Z;
  vartype : Oid;
  vartypmod : Z;
  varlevelsup : nat
}.

Inductive Expr : Type :=
| ExprVar (var : Var)
| ExprOther (node : Node).

Record TargetEntry : Type := mkTargetEntry {
  te_expr : option Expr;
  resno : Z
}.

(** The loop [for (attrno = 1; attrno <= numattrs; attrno++)] together
    with the test after it; [attrs] are the attributes from [attrno] on and
    [tlist] starts at [tlist_item]. *)
Fixpoint tlist_matches_loop (tlist : list TargetEntry)
    (attrs : list FormData_pg_attribute) (attrno : Z) : bool :=
  match attrs with
  | [] =>
      match tlist with
      | [] => true
      | _ :: _ => false           (* tlist too long *)
      end
  | att_tup :: attrs' =>
      match tlist with
      | [] => false               (* tlist too short *)
      | item :: tlist' =>
          match te_expr item with
          | Some (ExprVar var) =>
              if negb (varattno var =? attrno)%Z then false   (* out of order *)
              else if attisdropped att_tup then false
              else if atthasmissing att_tup then false
              else if negb (vartype var =? atttypid att_tup)%Z
                      || (negb (vartypmod var =? atttypmod att_tup)%Z
                          && negb (vartypmod var =? -1)%Z)
              then false          (* type mismatch *)
              else tlist_matches_loop tlist' attrs' (attrno + 1)
          | _ => false            (* tlist item not a Var *)
          end
      end
  end.

Definition tlist_matches_tupdesc (tlist : list TargetEntry) (varno' : nat)
    (tupdesc : list FormData_pg_attribute) : bool :=
  tlist_matches_loop tlist tupdesc 1.

(** ** Columns kept in the hash entries (nodeAgg.c)

    [find_hash_columns] lays out, for every hash table, the list of the
    input columns that go into the entries.  Bitmapsets (nodes/bitmapset.c)
    are an external service: a set is kept as the list of its members, which
    [bms_add_member] keeps ascending and free of duplicates;
    [bms_del_member] works in place, as the code relies on when it drops its
    result.  The set of the columns that the target list and the qualifier
    use outside of aggregates, [find_unaggregated_cols], is taken as
    given. *)

Definition Bitmapset : Type := list nat.

Fixpoint bms_add_member (a : Bitmapset) (x : nat) : Bitmapset :=
  match a with
  | [] => [x]
  | y :: a' =>
      if (x <? y)%nat then x :: y :: a'
      else if (x =? y)%nat then y :: a'
      else y :: bms_add_member a' x
  end.

Definition bms_del_member (a : Bitmapset) (x : nat) : Bitmapset :=
  List.filter (fun y => negb (y =? x)%nat) a.

Definition bms_is_member (x : nat) (a : Bitmapset) : bool :=
  existsb (Nat.eqb x) a.

Definition bms_num_members (a : Bitmapset) : nat := length a.

(** The loop over [all_grouped_cols] that drops the grouping columns that
    the grouping set of this table does not group by. *)
Fixpoint drop_ungrouped (all_grouped : list nat) (grouped colnos : Bitmapset)
  : Bitmapset :=
  match all_grouped with
  | [] => colnos
  | attnum :: rest =>
      drop_ungrouped rest grouped
        (if negb (bms_is_member attnum grouped)
         then bms_del_member colnos attnum
         else colnos)
  end.

(** [for (i = 0; i < numCols; i++) colnos = bms_add_member(colnos, grpColIdx[i])]. *)
Fixpoint add_grouping_columns (grpColIdx' : list nat) (i n : nat)
    (colnos : Bitmapset) : outcome Bitmapset :=
  match n with
  | O => Done colnos
  | S n' =>
      match grpColIdx' !! i with
      | None => Fail SEGV
      | Some c => add_grouping_columns grpColIdx' (S i) n' (bms_add_member colnos c)
      end
  end.

Record HashColumns : Type := mkHashColumns {
  hc_input : list nat;          (* perhash->hashGrpColIdxInput *)
  hc_hash : list nat;           (* perhash->hashGrpColIdxHash *)
  hc_num : nat;                 (* perhash->numhashGrpCols *)
  hc_colnos : Bitmapset
}.

(** The mapping of the columns that are hashed: they come first. *)
Fixpoint map_grouping_columns (grpColIdx' : list nat) (i n : nat)
    (hc : HashColumns) : outcome HashColumns :=
  match n with
  | O => Done hc
  | S n' =>
      match grpColIdx' !! i with
      | None => Fail SEGV
      | Some c =>
          if (i <? length (hc_input hc))%nat && (i <? length (hc_hash hc))%nat then
            map_grouping_columns grpColIdx' (S i) n'
              (mkHashColumns (<[i := c]> (hc_input hc))
                 (<[i := S i]> (hc_hash hc)) (S (hc_num hc))
                 (* delete already mapped columns *)
                 (bms_del_member (hc_colnos hc) c))
          else Fail SEGV
      end
  end.

(** [while ((i = bms_first_member(colnos)) >= 0)]: add the remaining
    columns. *)
Fixpoint add_remaining_columns (colnos : Bitmapset) (input : list nat)
    (num : nat) : outcome (list nat * nat) :=
  match colnos with
  | [] => Done (input, num)
  | i :: rest =>
      if (num <? length input)%nat
      then add_remaining_columns rest (<[num := i]> input) (S num)
      else Fail SEGV
  end.

(** The loop that builds the target list of the hash table and finds the
    largest column; [outer_natts] is the length of the target list of the
    child plan. *)
Fixpoint largest_column (input : list nat) (outer_natts i n largest : nat)
  : outcome nat :=
  match n with
  | O => Done largest
  | S n' =>
      match input !! i with
      | Some (S varNumber) =>
          if (varNumber <? outer_natts)%nat
          then largest_column input outer_natts (S i) n'
                 (Nat.max (S varNumber) largest)
          else Fail SEGV
      | _ => Fail SEGV
      end
  end.

(** The body of the loop of [find_hash_columns] for table [j];
    [grpColIdx'] is [perhash->aggnode->grpColIdx], [grouped_cols0] is
    [aggstate->phases[0].grouped_cols].  The equality and hash functions
    that [execTuplesHashPrepare] looks up are what [ht_same_key] stands for;
    the hash slot is a fresh, empty slot with one cell for every column of
    the descriptor built from the target list of the table.
    The result is the descriptor and [hashGrpColIdxHash]. *)
Definition find_hash_columns_one (base_colnos : Bitmapset)
    (grouped_cols0 : option (list Bitmapset)) (all_grouped_cols' : list nat)
    (outer_natts j : nat) (grpColIdx' : list nat)
    (perhash' : AggStatePerHashData)
  : outcome (AggStatePerHashData * list nat) :=
  colnos ← match grouped_cols0 with
           | None => Done base_colnos
           | Some gcs =>
               match gcs !! j with
               | None => Fail SEGV
               | Some grouped =>
                   Done (drop_ungrouped all_grouped_cols' grouped base_colnos)
               end
           end;
  let maxCols := (bms_num_members colnos + ph_numCols perhash')%nat in
  (* add all the grouping columns to colnos *)
  colnos1 ← add_grouping_columns grpColIdx' 0 (ph_numCols perhash') colnos;
  hc ← map_grouping_columns grpColIdx' 0 (ph_numCols perhash')
         (mkHashColumns (replicate maxCols 0%nat)
            (replicate (ph_numCols perhash') 0%nat)
            (numhashGrpCols perhash') colnos1);
  r ← add_remaining_columns (hc_colnos hc) (hc_input hc) (hc_num hc);
  largest ← largest_column (fst r) outer_natts 0 (snd r) 0;
  Done (mkPerHash (hashtable perhash') (hashiter perhash')
          (mkSlot true false 0 (replicate (snd r) 0%Z) (replicate (snd r) false))
          (ht_same_key perhash') (ph_numCols perhash') (snd r) largest (fst r),
        hc_hash hc).

(** [find_hash_columns]: for every hash table. *)
Fixpoint find_hash_columns_loop (base_colnos : Bitmapset)
    (grouped_cols0 : option (list Bitmapset)) (all_grouped_cols' : list nat)
    (outer_natts j n : nat) (grpColIdxs : list (list nat))
    (hashes : list AggStatePerHashData) : outcome (list AggStatePerHashData) :=
  match n with
  | O => Done hashes
  | S n' =>
      match hashes !! j, grpColIdxs !! j with
      | Some ph, Some idx =>
          r ← find_hash_columns_one base_colnos grouped_cols0 all_grouped_cols'
                outer_natts j idx ph;
          find_hash_columns_loop base_colnos grouped_cols0 all_grouped_cols'
            outer_natts (S j) n' grpColIdxs (<[j := fst r]> hashes)
      | _, _ => Fail SEGV
      end
  end.

Definition find_hash_columns (base_colnos : Bitmapset) (outer_natts : nat)
    (grpColIdxs : list (list nat)) (aggstate : AggState) : outcome AggState :=
  match phases aggstate !! 0%nat with
  | None => Fail SEGV
  | Some ph0 =>
      hashes ← find_hash_columns_loop base_colnos (ph_grouped_cols ph0)
                 (all_grouped_cols aggstate) outer_natts 0
                 (num_hashes aggstate) grpColIdxs (perhash aggstate);
      Done (set_perhash aggstate hashes)
  end.

(** ** Concrete aggregates used in the examples *)

Definition no_function : FmgrInfo := mkFmgr InvalidOid false (fun _ => None).

Definition datum_row (d : NullableDatum) : SortedRow := mkSR d [] (value d).

Definition int_rows (l : list Z) : list SortedRow :=
  map (fun z => datum_row (mkND z false)) l.

(** [max(int4)]: strict transition function [int4larger], no initial value. *)
Definition int4larger : FmgrInfo :=
  mkFmgr 768%Z true
    (fun a => match a with
              | [x; y] => Some (mkND (Z.max (value x) (value y)) false)
              | _ => None
              end).

Definition int4eq : FmgrInfo :=
  mkFmgr 65%Z true
    (fun a => match a with
              | [x; y] => Some (mkND (if (value x =? value y)%Z then 1 else 0)%Z false)
              | _ => None
              end).

Definition single_input_pertrans (f : FmgrInfo) (distinct : nat)
    (initVal : Datum) (initIsNull : bool) (sorts : list (option Tuplesortstate))
  : AggStatePerTransData :=
  mkPerTrans 1 1 (fn_oid f) InvalidOid InvalidOid 23%Z false
    f no_function distinct distinct
    (fun rows => flat_map (fun r => match r with
                                    | d :: _ => [datum_row d]
                                    | [] => []
                                    end) rows)
    int4eq (fun _ _ => None) initVal initIsNull true 4%Z true sorts
    (mkFcinfo false [null_datum; null_datum]) (mkFcinfo false []).

Definition pertrans_max : AggStatePerTransData :=
  single_input_pertrans int4larger 0 0%Z true [None].

(** A strict transition function that answers NULL. *)
Definition strict_null_fn : FmgrInfo :=
  mkFmgr 9001%Z true (fun _ => Some (mkND 0%Z true)).

Definition pertrans_null : AggStatePerTransData :=
  single_input_pertrans strict_null_fn 0 0%Z true [None].

(** [sum]-like, not strict: NULL counts as 0. *)
Definition int_add_nonstrict : FmgrInfo :=
  mkFmgr 9002%Z false
    (fun a => match a with
              | [x; y] =>
                  Some (mkND ((if isnull x then 0 else value x)
                              + (if isnull y then 0 else value y))%Z false)
              | _ => None
              end).

(** ** Reference definitions from the design document

    "Consecutive equal values (per the DISTINCT equality operator,
    short-circuited by a cheap abbreviated-key inequality check before the
    full comparison) are collapsed": two sorted values are taken for equal
    when both are NULL, or neither is, their abbreviated keys agree and the
    equality operator [eqop] holds. *)

Definition distinct_equal (eqop : Datum -> Datum -> bool) (a b : SortedRow) : bool :=
  (isnull (sr_first a) && isnull (sr_first b))
  || (negb (isnull (sr_first a)) && negb (isnull (sr_first b))
      && (sr_abbrev a =? sr_abbrev b)%Z
      && eqop (value (sr_first a)) (value (sr_first b))).

(** The values that survive the collapsing; [prev] is the value the current
    run started with. *)
Fixpoint collapse_consecutive (eqop : Datum -> Datum -> bool)
    (prev : option SortedRow) (rows : list SortedRow) : list SortedRow :=
  match rows with
  | [] => []
  | r :: rows' =>
      match prev with
      | Some p =>
          if distinct_equal eqop p r then collapse_consecutive eqop prev rows'
          else r :: collapse_consecutive eqop (Some r) rows'
      | None => r :: collapse_consecutive eqop (Some r) rows'
      end
  end.

(** The invocations of the transition function recorded in a trace. *)
Fixpoint transfn_calls (t : Trace) : list (list NullableDatum) :=
  match t with
  | [] => []
  | EvTransfn a :: t' => a :: transfn_calls t'
  | _ :: t' => transfn_calls t'
  end.

(** A finished sort of integers that hands its rows out in the order they
    were put (the input of the examples is already sorted). *)
Definition as_put (rows : list (list NullableDatum)) : list SortedRow :=
  flat_map (fun r => match r with
                     | d :: _ => [datum_row d]
                     | [] => []
                     end) rows.

Definition sort_of (l : list Z) : Tuplesortstate :=
  mkSort (map (fun z => [mkND z false]) l) as_put [].

(** [sum(DISTINCT x)] with a transition function that is not strict and
    initial value 0, and [max(DISTINCT x)], strict without initial value;
    both hold the sorted input [1;1;2;2;2;3] for grouping set 0. *)
Definition pertrans_sum_distinct : AggStatePerTransData :=
  single_input_pertrans int_add_nonstrict 1 0%Z false
    [Some (sort_of [1; 1; 2; 2; 2; 3]%Z)].

Definition pertrans_max_distinct : AggStatePerTransData :=
  single_input_pertrans int4larger 1 0%Z true
    [Some (sort_of [1; 1; 2; 2; 2; 3]%Z)].

(** A final function that doubles the transition value, and an aggregate
    finalized by it without direct arguments. *)
Definition double_final : FmgrInfo :=
  mkFmgr 9003%Z true
    (fun a => match a with
              | [x] => Some (mkND (2 * value x)%Z false)
              | _ => None
              end).

Definition plain_aggref (fnoid : Oid) (arguments : list Node) : Aggref :=
  mkAggref fnoid 23%Z 0%Z 0%Z 23%Z [] arguments [] [] None false false 110%Z.

Definition peragg_double : AggStatePerAggData :=
  mkPerAgg (plain_aggref 9100%Z []) 0 9003%Z double_final 1 [] 4%Z true true.

Definition empty_econtext : ExprContext := mkEcxt None None None [] [].


Definition calls_random (a : Aggref) : bool :=
  existsb (fun n => match n with mkNode t _ _ => (t =? 1)%Z end) (ref_args a).


Definition sum_of_column : Aggref := plain_aggref 2108%Z [mkNode 2 [1%Z] []].

Definition peragg_of (a : Aggref) : AggStatePerAggData :=
  mkPerAgg a 0 InvalidOid no_function 1 [] 4%Z true true.


(** A sequential access method over a list of pending batches: the next
    batch is stored into the scan slot, whose pointer is returned; NULL at
    the end.  No recheck conditions, no row marks.  Batches of four rows. *)
Definition seq_next : VExecScanAccessMtd (AM := list VectorTupleSlot) :=
  fun st =>
    match am_private st with
    | [] => Done (None, st)
    | b :: rest =>
        Done (Some (ss_ScanTupleSlot st),
              mkScan (<[ss_ScanTupleSlot st := Vector b]> (es_tupleTable st))
                (es_epq_active st) (scanrelid st) (ss_ScanTupleSlot st)
                (qual st) (ps_ProjInfo st) (ecxt_scantuple_ptr st)
                (ecxt_resets st) (instr_nfiltered1 st) rest)
    end.

Definition seq_recheck : VExecScanRecheckMtd (AM := list VectorTupleSlot) :=
  fun st _ => Done (true, st).

Definition no_rowmark (st : VectorScanState (list VectorTupleSlot))
    (relid : nat) (slot : SlotPtr)
  : outcome (bool * VectorScanState (list VectorTupleSlot)) :=
  Done (false, st).

Definition batch4 (mask : list bool) (col : list Z) : VectorTupleSlot :=
  mkVSlot (mkSlot false false 1 [0%Z] [false]) 4 0 [] mask
    [mkVtype 4 col [false; false; false; false]].

Definition empty_batch4 : VectorTupleSlot :=
  mkVSlot (mkSlot true false 0 [0%Z] [false]) 0 0 [] [true; true; true; true]
    [mkVtype 0 [0; 0; 0; 0]%Z [false; false; false; false]].

(** A projection that doubles the only column; it leaves the mask of its
    result slot alone. *)
Definition double_projection : ProjectionInfo :=
  mkProj 1
    (fun scanned old =>
       match scanned, old with
       | Vector s, Vector o =>
           Some (Vector
                   (mkVSlot (mkSlot false false 1 [0%Z] [false]) (dim s) 0 []
                      (skip o)
                      (map (fun c => mkVtype (v_dim c)
                                       (map (Z.mul 2) (v_values c)) (v_isnull c))
                         (columns s))))
       | _, _ => None
       end).

(** A predicate [x > 15] on the only column: failing rows are marked
    skipped; the batch passes when a row is left. *)
Definition above_15 : ScanQual :=
  fun s =>
    match s with
    | Vector v =>
        match columns v with
        | [c] =>
            let mask := zip_with (fun sk x => sk || (x <=? 15)%Z)
                          (skip v) (v_values c) in
            Some (existsb negb mask,
                  Vector (mkVSlot (tts v) (dim v) (bufnum v) (tts_buffers v)
                            mask (columns v)))
        | _ => None
        end
    | Plain _ => None
    end.

Definition scan_state (q : option ScanQual) (p : option ProjectionInfo)
    (pending : list VectorTupleSlot) : VectorScanState (list VectorTupleSlot) :=
  mkScan [Vector empty_batch4; Vector empty_batch4] None 1 0 q p None 0
    (Some 0%nat) pending.

(** The same scan inside an EvalPlanQual recheck of relation 1: the caller
    of the recheck has put the test tuple into slot 1 of the tuple table. *)
Definition epq_scan_state (pending : list VectorTupleSlot)
  : VectorScanState (list VectorTupleSlot) :=
  mkScan
    [Vector empty_batch4;
     Vector (batch4 [false; false; false; false] [7; 7; 7; 7]%Z)]
    (Some (mkEPQ [false] [Some 1%nat] [None])) 1 0 None None None 0
    (Some 0%nat) pending.

Definition pending_batch : list VectorTupleSlot :=
  [batch4 [false; true; false; true] [10; 20; 30; 40]%Z].
(** ** Notions that the properties speak about *)

(** *** Transition functions and DISTINCT processing *)

(** The accumulator after a call that returned [r]. *)
Definition stored_value (p : AggStatePerTransData) (pg : AggStatePerGroupData)
    (r : NullableDatum) : Datum :=
  if negb (transtypeByVal p) && negb (value r =? transValue pg)%Z
  then ExecAggTransReparent p (value r) (isnull r) (transValue pg)
         (transValueIsNull pg)
  else value r.

(** The argument array of the call: position 0 holds the accumulator. *)
Definition call_args (p : AggStatePerTransData) (pg : AggStatePerGroupData)
  : list NullableDatum :=
  <[0%nat := mkND (transValue pg) (transValueIsNull pg)]> (args (transfn_fcinfo p)).

(** A computation of the trace monad only ever appends to the trace. *)
Definition appends {A : Type} (m : M Trace A) : Prop :=
  forall tr, m tr = match m [] with
                    | Done (x, ev) => Done (x, tr ++ ev)
                    | Fail f => Fail f
                    end.

(** Two descriptors that agree once argument 1 is overwritten. *)
Definition agree_but_arg1 (p q : AggStatePerTransData) : Prop :=
  forall d, set_transfn_fcinfo p (set_arg (transfn_fcinfo p) 1 d)
            = set_transfn_fcinfo q (set_arg (transfn_fcinfo q) 1 d).

(** How the loop variables of [process_ordered_aggregate_single] describe
    the value the current run started with. *)
Definition prior_value (haveOldVal : bool) (oldVal : Datum) (oldIsNull : bool)
    (oldAbbrevVal : Datum) (prev : option SortedRow) : Prop :=
  match prev with
  | None => haveOldVal = false
  | Some r => haveOldVal = true /\ oldVal = value (sr_first r) /\
              oldIsNull = isnull (sr_first r) /\ oldAbbrevVal = sr_abbrev r
  end.

(** The DISTINCT equality operator answers, and answers [eqop]. *)
Definition equality_operator (f : FmgrInfo) (eqop : Datum -> Datum -> bool) : Prop :=
  forall a b, exists v,
    fn_addr f [mkND a false; mkND b false] = Some (mkND v false) /\
    DatumGetBool v = eqop a b.

(** Two runs of the loop of [process_ordered_aggregate_single] fail alike,
    or end in the same group state after the same calls of the transition
    function, with descriptors that differ in argument 1 at most. *)
Definition same_transitions
    (a b : outcome ((AggStatePerTransData * AggStatePerGroupData) * Trace)) : Prop :=
  match a, b with
  | Done ((p1, g1), t1), Done ((p2, g2), t2) =>
      agree_but_arg1 p1 p2 /\ g1 = g2 /\ transfn_calls t1 = transfn_calls t2
  | Fail f1, Fail f2 => f1 = f2
  | _, _ => False
  end.

(** Two runs fail alike, or end in the same group state after the same
    calls of the transition function. *)
Definition same_group_effect
    (a b : outcome ((AggStatePerTransData * AggStatePerGroupData) * Trace)) : Prop :=
  match a, b with
  | Done ((_, g1), t1), Done ((_, g2), t2) =>
      g1 = g2 /\ transfn_calls t1 = transfn_calls t2
  | Fail f1, Fail f2 => f1 = f2
  | _, _ => False
  end.

(** *** Scan *)

(** The first [BATCHSIZE] entries of the skip masks of the slots [r] and
    [s] of the tuple table exist and coincide. *)
Definition same_skip_mask {AM : Type} (BATCHSIZE : nat) (st : VectorScanState AM)
    (r s : SlotPtr) : Prop :=
  exists vr vs,
    es_tupleTable st !! r = Some (Vector vr) /\
    es_tupleTable st !! s = Some (Vector vs) /\
    (BATCHSIZE <= length (skip vr))%nat /\
    (BATCHSIZE <= length (skip vs))%nat /\
    take BATCHSIZE (skip vr) = take BATCHSIZE (skip vs).

(** *** Aggregation driver *)

(** The phase list, the current phase and the phase pointer. *)
Definition phase_view (st : AggState)
  : list AggStatePerPhaseData * Z * Z * Z :=
  (phases st, numphases st, current_phase st, phase st).

(** One move of the current phase: to the next phase, or back to 0 or 1. *)
Inductive phase_move (p : Z) : Z -> Prop :=
| move_next : phase_move p (p + 1)
| move_reset0 : phase_move p 0
| move_reset1 : phase_move p 1.

(** Any number of moves. *)
Inductive phase_path (p : Z) : Z -> Prop :=
| path_stay : phase_path p p
| path_move q r : phase_path p q -> phase_move q r -> phase_path p r.

(** An empty batch has every row marked as skipped: the state of a vector
    slot after [tts_vector_init] and after [tts_vector_clear]. *)
Definition empty_is_all_skipped (v : VectorTupleSlot) : Prop :=
  tts_empty (tts v) = true -> skip v = replicate (length (skip v)) true.


(** ** Concrete aggregation nodes used in the examples

    One aggregate, [sum] of column 1 of the input, with a transition function
    that is not strict, initial value 0 and no final function.  Batches hold
    four rows. *)

Definition pertrans_sum : AggStatePerTransData :=
  single_input_pertrans int_add_nonstrict 0 0%Z false [None].

(** The compiled transition expression of such a node calls the transition
    function once for every row of the batch that is not skipped. *)
Fixpoint advance_rows (vals : list Z) (mask : list bool)
    (pt : AggStatePerTransData) (pg : AggStatePerGroupData)
  : M Trace (AggStatePerTransData * AggStatePerGroupData) :=
  match vals, mask with
  | x :: vals', false :: mask' =>
      (r <- advance_transition_function
              (set_transfn_fcinfo pt (set_arg (transfn_fcinfo pt) 1 (mkND x false)))
              pg ;;
       advance_rows vals' mask' (fst r) (snd r))%monad
  | _ :: vals', true :: mask' => advance_rows vals' mask' pt pg
  | _, _ => ret (pt, pg)
  end.

(** For the sorted and plain phases: the state of grouping set 0. *)
Definition sum_column_direct : EvalTrans :=
  fun econtext s =>
    match ecxt_outertuple econtext, pertrans s, pergroups s with
    | Some (Vector v), [pt], Some ([pg] :: rest) =>
        match columns v with
        | c :: _ =>
            match advance_rows (v_values c) (skip v) pt pg (fmgr_trace s) with
            | Done (r, tr) =>
                Some (mkStore [fst r] (Some ([snd r] :: rest)) (hash_entries s)
                        (hash_pergroup s) tr)
            | Fail _ => None
            end
        | [] => None
        end
    | _, _, _ => None
    end.

(** For the hashed phase: the state in the hash entry of every row. *)
Fixpoint advance_hashed_rows (vals : list Z) (groups : list (option nat))
    (pt : AggStatePerTransData) (entries : list TupleHashEntryData)
  : M Trace (AggStatePerTransData * list TupleHashEntryData) :=
  match vals, groups with
  | x :: vals', Some e :: groups' =>
      match entries !! e with
      | Some (mkEntry key (Some [pg])) =>
          (r <- advance_transition_function
                  (set_transfn_fcinfo pt
                     (set_arg (transfn_fcinfo pt) 1 (mkND x false)))
                  pg ;;
           advance_hashed_rows vals' groups' (fst r)
             (<[e := mkEntry key (Some [snd r])]> entries))%monad
      | _ => raise SEGV
      end
  | _ :: vals', None :: groups' => advance_hashed_rows vals' groups' pt entries
  | _, _ => ret (pt, entries)
  end.

Definition sum_column_hashed : EvalTrans :=
  fun econtext s =>
    match ecxt_outertuple econtext, pertrans s, hash_entries s, hash_pergroup s with
    | Some (Vector v), [pt], [entries], [groups] =>
        match columns v with
        | c :: _ =>
            match advance_hashed_rows (v_values c) groups pt entries
                    (fmgr_trace s) with
            | Done (r, tr) => Some (mkStore [fst r] (pergroups s) [snd r] [groups] tr)
            | Fail _ => None
            end
        | [] => None
        end
    | _, _, _, _ => None
    end.

(** Row 0 of column 1 of a slot. *)
Definition first_value (s : option Slot) : option Datum :=
  match s with
  | Some (Plain t) => tts_values t !! 0%nat
  | Some (Vector v) =>
      match columns v with
      | c :: _ => v_values c !! 0%nat
      | [] => None
      end
  | None => None
  end.

(** Target lists [sum(x)] and [x, sum(x)]. *)
Definition project_sum : ProjState :=
  fun econtext =>
    match ecxt_aggvalues econtext, ecxt_aggnulls econtext with
    | [v], [b] => Some (mkSlot false false 1 [v] [b])
    | _, _ => None
    end.

Definition project_key_and_sum : ProjState :=
  fun econtext =>
    match first_value (ecxt_outertuple econtext),
          ecxt_aggvalues econtext, ecxt_aggnulls econtext with
    | Some k, [v], [b] => Some (mkSlot false false 2 [k; v] [false; b])
    | _, _, _ => None
    end.

(** The grouping columns of the inner and the outer tuple are equal. *)
Definition same_key : QualState :=
  fun econtext =>
    match first_value (ecxt_innertuple econtext),
          first_value (ecxt_outertuple econtext) with
    | Some a, Some b => Some (a =? b)%Z
    | _, _ => None
    end.

Definition result_batch4 (natts : nat) : VectorTupleSlot :=
  tts_vector_init (fun _ => mkVtype 0 [0; 0; 0; 0]%Z [false; false; false; false])
    (replicate natts 23%Z)
    (mkVSlot (mkSlot true false 0 (replicate natts 0%Z) (replicate natts false))
       0 0 [] [false; false; false; false] []).

Definition one_aggregate_econtext : ExprContext := mkEcxt None None None [0%Z] [false].

Definition dummy_phase : AggStatePerPhaseData :=
  mkPhase AGG_PLAIN 0 None None None None None None.

(** The state that [VExecInitAgg] has built when it comes to select the
    initial phase, for a node of strategy [strategy] over the batches
    [input]. *)
Definition built_state (strategy : AggStrategy) (phase_list : list AggStatePerPhaseData)
    (hashes : list AggStatePerHashData) (grouped : list nat)
    (proj : ProjState) (natts : nat) (input : list VectorTupleSlot)
  : AggState :=
  mkAggState strategy false 1 1 1 (Z.of_nat (length phase_list)) phase_list
    [peragg_of sum_of_column] grouped (length hashes) None proj None natts
    0 0 (-1) 0 [] false false false None None None
    (mkPlanState (map Vector input) (map Vector input) false)
    (mkStore [pertrans_sum]
       (match strategy with
        | AGG_HASHED => None
        | _ => Some [[mkPerGroup 0 false false]]
        end)
       (map (fun _ => []) hashes) (map (fun _ => []) hashes) [])
    hashes one_aggregate_econtext empty_econtext
    (mkSlot true false 0 [0%Z] [false]).

Definition start (node : Agg) (built : AggState) (natts : nat) : VectorAggState :=
  match VExecInitAgg_initial_phase node built with
  | Done st => mkVas st (result_batch4 natts)
  | Fail _ => mkVas built (result_batch4 natts)
  end.

(** [SELECT sum(x) FROM t], plain. *)
Definition plain_node : Agg := mkAgg AGG_PLAIN 0 [] [].

Definition plain_sum (input : list VectorTupleSlot) : VectorAggState :=
  start plain_node
    (built_state AGG_PLAIN
       [dummy_phase;
        mkPhase AGG_PLAIN 0 None None None (Some plain_node) None
          (Some sum_column_direct)]
       [] [] project_sum 1 input)
    1.

(** [SELECT x, sum(x) FROM t GROUP BY x], hashed. *)
Definition hashed_node : Agg := mkAgg AGG_HASHED 1 [1%nat] [].

Definition hashed_sum (input : list VectorTupleSlot) : VectorAggState :=
  match
    build_hash_table
      (built_state AGG_HASHED
         [mkPhase AGG_HASHED 1 (Some [1%nat]) (Some [[1%nat]]) None
            (Some hashed_node) None (Some sum_column_hashed)]
         [mkPerHash false 0 (mkSlot true false 0 [0%Z] [false])
            (fun a b => bool_decide (map value a = map value b)) 1 1 1 [1%nat]]
         [1%nat] project_key_and_sum 2 input)
  with
  | Done st => start hashed_node st 2
  | Fail _ => start hashed_node (built_state AGG_HASHED [] [] [] project_sum 0 []) 0
  end.

(** [SELECT x, sum(x) FROM t GROUP BY GROUPING SETS ((x), (x))], sorted: one
    grouping set in each of two sort passes. *)
Definition sorted_node : Agg := mkAgg AGG_SORTED 1 [1%nat] [[1%nat]].

Definition sorted_phase (s : option Sort) : AggStatePerPhaseData :=
  mkPhase AGG_SORTED 1 (Some [1%nat]) (Some [[1%nat]]) (Some [Some same_key])
    (Some sorted_node) s (Some sum_column_direct).

Definition sorted_sets (input : list VectorTupleSlot) : VectorAggState :=
  start sorted_node
    (built_state AGG_SORTED
       [dummy_phase; sorted_phase None;
        sorted_phase (Some (mkSortNode 1 (fun l => l)))]
       [] [1%nat] project_key_and_sum 2 input)
    2.

(** The node after one call. *)
Definition after_call (fuel : nat) (vas : VectorAggState) : VectorAggState :=
  match VExecAgg 4 None fuel vas with
  | Done r => snd r
  | Fail _ => vas
  end.

(** Inputs: one group of four rows with key 5, or 7; two batches, one of
    them with a skipped row. *)
Definition group_of_fives : list VectorTupleSlot :=
  [batch4 [false; false; false; false] [5; 5; 5; 5]%Z].

Definition group_of_sevens : list VectorTupleSlot :=
  [batch4 [false; false; false; false] [7; 7; 7; 7]%Z].

Definition two_batches : list VectorTupleSlot :=
  [batch4 [false; false; false; false] [1; 2; 3; 4]%Z;
   batch4 [false; true; false; false] [10; 20; 30; 40]%Z].

(** The sorted node after its first and its second call. *)
Definition sorted_after_one : VectorAggState :=
  after_call 20 (sorted_sets group_of_sevens).

Definition sorted_after_two : VectorAggState := after_call 20 sorted_after_one.

(** What the first call of the hashed node over [group_of_fives] answers,
    and the second call of the sorted node. *)
Definition hashed_first_call : option VectorTupleSlot * VectorAggState :=
  (None, after_call 20 (hashed_sum group_of_fives)).

Definition sorted_second_call : option VectorTupleSlot * VectorAggState :=
  (Some (resultSlot sorted_after_two), sorted_after_two).
(** ** Further notions and examples *)

(** *** Ordered aggregates with several inputs *)

(** The rows of a sorted run that [process_ordered_aggregate_multi] passes
    on: with DISTINCT a row is dropped when it has the abbreviated key of the
    row kept last and the equality expression says the two are equal. *)
Fixpoint collapse_rows
    (eq : list NullableDatum -> list NullableDatum -> option bool)
    (distinct : bool) (prev : option SortedRow) (rows : list SortedRow)
  : list SortedRow :=
  match rows with
  | [] => []
  | r :: rows' =>
      let keep :=
        match prev with
        | Some p =>
            negb distinct
            || negb (sr_abbrev r =? sr_abbrev p)%Z
            || match eq (sr_row r) (sr_row p) with
               | Some b => negb b
               | None => true
               end
        | None => true
        end in
      if keep
      then r :: collapse_rows eq distinct (if distinct then Some r else prev) rows'
      else collapse_rows eq distinct prev rows'
  end.


(** [f(x, y)] with two inputs, not strict: the state plus [x * y]; a sort of
    pairs that hands its rows out in the order they were put; DISTINCT on
    both columns. *)
Definition add_product : FmgrInfo :=
  mkFmgr 9004%Z false
    (fun a => match a with
              | [s; x; y] => Some (mkND (value s + value x * value y)%Z false)
              | _ => None
              end).

Definition pair_rows (rows : list (list NullableDatum)) : list SortedRow :=
  flat_map (fun r => match r with
                     | d :: more => [mkSR d more (value d)]
                     | [] => []
                     end) rows.

Definition pertrans_pairs (distinct : nat) (pairs : list (Z * Z))
  : AggStatePerTransData :=
  mkPerTrans 2 2 9004%Z InvalidOid InvalidOid 23%Z false
    add_product no_function 2 distinct pair_rows int4eq
    (fun a b => Some (bool_decide (map value a = map value b)))
    0%Z false true 4%Z true
    [Some (mkSort (map (fun p => [mkND (fst p) false; mkND (snd p) false]) pairs)
             pair_rows [])]
    (mkFcinfo false [null_datum; null_datum; null_datum]) (mkFcinfo false []).

(** *** Sharing of aggregates *)

(** The two comparisons of [find_compatible_peragg]: the same inputs, and
    the same aggregate function on top of them. *)
Definition same_inputs (newagg existingRef : Aggref) : bool :=
  (inputcollid newagg =? inputcollid existingRef)%Z
  && (ref_aggtranstype newagg =? ref_aggtranstype existingRef)%Z
  && eqb (aggstar newagg) (aggstar existingRef)
  && eqb (aggvariadic newagg) (aggvariadic existingRef)
  && (aggkind newagg =? aggkind existingRef)%Z
  && equal_list (ref_args newagg) (ref_args existingRef)
  && equal_list (aggorder newagg) (aggorder existingRef)
  && equal_list (aggdistinct newagg) (aggdistinct existingRef)
  && equal_opt (aggfilter newagg) (aggfilter existingRef).

Definition same_function (newagg existingRef : Aggref) : bool :=
  (aggfnoid newagg =? aggfnoid existingRef)%Z
  && (aggtype newagg =? aggtype existingRef)%Z
  && (aggcollid newagg =? aggcollid existingRef)%Z
  && equal_list (ref_aggdirectargs newagg) (ref_aggdirectargs existingRef).

(** The transition states offered for sharing by the aggregates
    [peraggs]: those of the shareable aggregates with the same inputs. *)
Definition offered_transnos (newagg : Aggref) (peraggs : list AggStatePerAggData)
  : list nat :=
  map transno
    (List.filter (fun pa => same_inputs newagg (aggref pa) && shareable pa)
       peraggs).

(** The test of [find_compatible_pertrans] on one transition state. *)
Definition compatible_pertrans
    (aggtransfn aggtranstype' aggserialfn aggdeserialfn : Oid)
    (initValue' : Datum) (initValueIsNull' : bool) (pertrans : AggStatePerTransData)
  : bool :=
  (aggtransfn =? transfn_oid pertrans)%Z
  && (aggtranstype' =? aggtranstype pertrans)%Z
  && (aggserialfn =? serialfn_oid pertrans)%Z
  && (aggdeserialfn =? deserialfn_oid pertrans)%Z
  && ((initValueIsNull' && initValueIsNull pertrans)
      || (negb initValueIsNull' && negb (initValueIsNull pertrans)
          && (initValue' =? initValue pertrans)%Z)).

(** The counters of the loop of [VExecInitAgg] over the aggregate calls
    are the indices of the last descriptors built, every aggregate refers to
    a transition state that exists, and every call was given an aggregate
    that exists. *)
Definition sharing_wf (st : SharingState) : Prop :=
  sh_aggno st = (Z.of_nat (length (sh_peragg st)) - 1)%Z
  /\ sh_transno st = (Z.of_nat (length (sh_pertrans st)) - 1)%Z
  /\ Forall (fun pa => (transno pa < length (sh_pertrans st))%nat) (sh_peragg st)
  /\ Forall (fun a => (0 <= a < Z.of_nat (length (sh_peragg st)))%Z)
       (sh_assigned st).

(** [avg(x)]-like and [stddev(x)]-like: two aggregates over the same column
    with the same transition function and different final functions. *)
Definition describe_by_fnoid (a : Aggref)
  : outcome (AggStatePerAggData * AggStatePerTransData) :=
  Done (mkPerAgg a 0 (aggfnoid a) double_final 1 [] 4%Z true true,
        single_input_pertrans int_add_nonstrict 0 0%Z false [None]).

Definition avg_of_column : Aggref := plain_aggref 2100%Z [mkNode 2 [1%Z] []].
Definition stddev_of_column : Aggref := plain_aggref 2712%Z [mkNode 2 [1%Z] []].

Definition sharing_start : SharingState := mkSharing [] [] (-1) (-1) [].

Definition sharing_after_avg : SharingState :=
  match init_one_aggregate calls_random describe_by_fnoid avg_of_column
          sharing_start with
  | Done st => st
  | Fail _ => sharing_start
  end.

Definition sharing_after_stddev : SharingState :=
  match init_one_aggregate calls_random describe_by_fnoid stddev_of_column
          sharing_after_avg with
  | Done st => st
  | Fail _ => sharing_after_avg
  end.

(** *** Buffer pins of a vector slot *)

(** The buffers pinned and the buffers released in a list of events. *)
Definition pinned (evs : list PinEvent) : list Buffer :=
  flat_map (fun e => match e with
                     | EvIncrBufferRefCount b => [b]
                     | EvReleaseBuffer _ => []
                     end) evs.

Definition released (evs : list PinEvent) : list Buffer :=
  flat_map (fun e => match e with
                     | EvReleaseBuffer b => [b]
                     | EvIncrBufferRefCount _ => []
                     end) evs.

(** A run of [VExecStoreTuple] calls on one slot, as a scan makes them
    while it fills a batch: each item is a tuple and the buffer it is in. *)
Fixpoint store_tuples (items : list (HeapTupleData * Buffer)) (slot : StoredSlot)
  : outcome (StoredSlot * list PinEvent) :=
  match items with
  | [] => Done (slot, [])
  | (tuple, buffer) :: rest =>
      match VExecStoreTuple tuple slot buffer false with
      | Fail f => Fail f
      | Done (slot1, evs1) =>
          match store_tuples rest slot1 with
          | Fail f => Fail f
          | Done (slot2, evs2) => Done (slot2, evs1 ++ evs2)
          end
      end
  end.

(** A slot as [tts_vector_init] leaves it, with room for [n] tuples. *)
Definition fresh_slot (n : nat) : StoredSlot :=
  mkStored
    (mkVSlot (mkSlot true false 0 [] []) 0 0 (replicate n InvalidBuffer)
       (replicate n true) [])
    (replicate n 0%Z).

(** What the slot code keeps true of the pins of a slot: no more buffers
    than tuples, and no buffer in the cells that are not in use. *)
Definition slot_pins_wf (slot : StoredSlot) : Prop :=
  (bufnum (st_slot slot) <= dim (st_slot slot))%nat
  /\ length (tts_buffers (st_slot slot)) = length (tts_tuples slot)
  /\ (forall i b, tts_buffers (st_slot slot) !! i = Some b ->
        (bufnum (st_slot slot) <= i)%nat -> b = InvalidBuffer).

(** *** Transition states of the grouping sets *)

(** The transition state that [initialize_aggregate] leaves. *)
Definition initial_state (pt : AggStatePerTransData) : AggStatePerGroupData :=
  mkPerGroup
    (if initValueIsNull pt then initValue pt
     else datumCopy (initValue pt) (transtypeByVal pt) (transtypeLen pt))
    (initValueIsNull pt) (initValueIsNull pt).

(** Two arrays of per-trans descriptors that start their groups alike. *)
Definition same_initial_states (pts pts' : list AggStatePerTransData) : Prop :=
  length pts' = length pts
  /\ forall i pt, pts !! i = Some pt ->
       exists pt', pts' !! i = Some pt' /\ initial_state pt' = initial_state pt.

(** Column [k] (counted from 0) is a grouping column of the query that
    the grouping set [grouped] does not group by. *)
Definition ungrouped_column (all_grouped grouped : list nat) (k : nat) : bool :=
  existsb (Nat.eqb (S k)) all_grouped && negb (existsb (Nat.eqb (S k)) grouped).

(** *** Groups of a hash aggregation *)

(** The hash key of row [row] of a batch: the values of the first [n]
    columns listed in [idx] (column numbers count from 1). *)
Definition row_key (cols : list vtype) (idx : list nat) (n row : nat)
  : list NullableDatum :=
  flat_map (fun a => match a with
                     | S varNumber =>
                         match cols !! varNumber with
                         | Some c =>
                             match v_values c !! row, v_isnull c !! row with
                             | Some v, Some b => [mkND v b]
                             | _, _ => []
                             end
                         | None => []
                         end
                     | O => []
                     end) (take n idx).

(** A hash entry whose [numtrans'] transition states hold the initial
    values of the aggregates [pts]. *)
Definition fresh_group (pts : list AggStatePerTransData) (numtrans' : nat)
    (e : TupleHashEntryData) : Prop :=
  exists pg, additional e = Some pg /\ length pg = numtrans'
    /\ forall i pt, (i < numtrans')%nat -> pts !! i = Some pt ->
         pg !! i = Some (initial_state pt).

(** *** Input of the phases *)


(** *** Target lists *)


(** The target list [SELECT a, b] over a relation of two [int4] columns,
    and the same with the columns swapped. *)
Definition int4_column : FormData_pg_attribute := mkAttribute 23 (-1) false false.

Definition column_entry (attrno : Z) : TargetEntry :=
  mkTargetEntry (Some (ExprVar (mkVar 1 attrno 23 (-1) 0))) attrno.

(** *** Columns of a hash table *)

(** A column that the entries of hash table [j] keep beside the columns
    [hashed] that are hashed: one the target list or the qualifier uses,
    that is not hashed already, and that the grouping set of the table does
    not read as null. *)
Definition stored_beside (base_colnos : Bitmapset)
    (grouped_cols0 : option (list Bitmapset)) (all_grouped : list nat)
    (j : nat) (hashed : list nat) (c : nat) : Prop :=
  In c base_colnos
  /\ ~ In c hashed
  /\ forall gcs grouped,
       grouped_cols0 = Some gcs -> gcs !! j = Some grouped ->
       In c all_grouped -> In c grouped.

(** *** Further nodes used in the examples *)

(** [SELECT x, y, sum(x) FROM t GROUP BY ROLLUP (x, y)] without the empty
    set: the grouping sets [(x, y)] and [(x)] of one sorted phase, with the
    sums 15 and 40 accumulated so far. *)
Definition rollup_node : Agg :=
  mkAgg AGG_SORTED 2 [1%nat; 2%nat] [[1%nat; 2%nat]; [1%nat]].

Definition rollup_phase : AggStatePerPhaseData :=
  mkPhase AGG_SORTED 2 (Some [2%nat; 1%nat]) (Some [[1%nat; 2%nat]; [1%nat]])
    (Some [Some same_key; Some same_key]) (Some rollup_node) None
    (Some sum_column_direct).

Definition rollup_state : AggState :=
  set_store
    (set_phase
       (built_state AGG_SORTED [dummy_phase; rollup_phase] []
          [2%nat; 1%nat] project_key_and_sum 2 [])
       1)
    (mkStore [pertrans_sum]
       (Some [[mkPerGroup 15 false false]; [mkPerGroup 40 false false]])
       [] [] []).

(** The representative row [(5, 6)] of a group. *)
Definition rollup_row : Slot := Plain (mkSlot false false 2 [5; 6]%Z [false; false]).

Definition rollup_prepared : option Slot * AggState :=
  match prepare_projection_slot rollup_state (Some rollup_row) 1 with
  | Done r => r
  | Fail _ => (None, rollup_state)
  end.

Definition rollup_reset : AggState :=
  match initialize_aggregates rollup_state 1 with
  | Done st => st
  | Fail _ => rollup_state
  end.

(** The hashed node after its first call, and after a rescan without and
    with a change of parameters. *)
Definition hashed_filled : AggState :=
  aggstate (after_call 20 (hashed_sum group_of_fives)).

Definition rescanned (params_overlap : bool) (node : AggState) : AggState :=
  match ExecReScanAgg params_overlap node with
  | Done st => st
  | Fail _ => node
  end.

(** [SELECT x, sum(x) FROM t GROUP BY x], sorted, no grouping sets. *)
Definition grouped_node : Agg := mkAgg AGG_SORTED 1 [1%nat] [].

Definition grouped_sum (input : list VectorTupleSlot) : VectorAggState :=
  start grouped_node
    (built_state AGG_SORTED
       [dummy_phase;
        mkPhase AGG_SORTED 0 None None (Some [Some same_key])
          (Some grouped_node) None (Some sum_column_direct)]
       [] [] project_key_and_sum 2 input)
    2.

(** The hashed node with a batch of the keys 5, 5, 7, 5, the second row
    skipped, as the current input; what the lookup answers. *)
Definition lookup_state : AggState :=
  set_tmpcontext (aggstate (hashed_sum []))
    (set_outertuple empty_econtext
       (Some (Vector (batch4 [false; true; false; false] [5; 5; 7; 5]%Z)))).

Definition looked_up : list (option nat) * AggState :=
  match lookup_hash_entry 4 lookup_state with
  | Done r => r
  | Fail _ => ([], lookup_state)
  end.



(** The zero-filled descriptor of a hash table that hashes two columns. *)
Definition blank_perhash : AggStatePerHashData :=
  mkPerHash false 0 (mkSlot true false 0 [] []) (fun _ _ => true) 2 0 0 [].

(** [GROUP BY ROLLUP (x)]: the grouping sets [(x)] and [()] of one sorted
    phase, at the start of a group. *)
Definition rollup_all_node : Agg := mkAgg AGG_SORTED 1 [1%nat] [[1%nat]; []].

Definition rollup_all_phase : AggStatePerPhaseData :=
  mkPhase AGG_SORTED 2 (Some [1%nat; 0%nat]) (Some [[1%nat]; []])
    (Some [Some same_key]) (Some rollup_all_node) None (Some sum_column_direct).

Definition rollup_all_state : AggState :=
  set_projected_set
    (set_phase
       (built_state AGG_SORTED [dummy_phase; rollup_all_phase] [] [1%nat]
          project_key_and_sum 2 [])
       1)
    0.

Definition rollup_all_locals : DirectLocals :=
  mkLocals (Some rollup_all_node) 2 None None.
(** * Properties *)

(** ** Transition-state manager *)

Unset Implicit Arguments.

Lemma any_null_arg_found (a : list NullableDatum) (n i j : nat) (d : NullableDatum) :
  (i <= j < i + n)%nat -> a !! j = Some d -> isnull d = true ->
  any_null_arg a i n = Done true.
Proof.
  revert i. induction n as [|n IH]; intros i Hij Hj Hd; [lia|].
  simpl. destruct (decide (i = j)) as [->|Hne].
  - rewrite Hj, Hd. reflexivity.
  - assert (Hlt : (i < length a)%nat).
    { apply lookup_lt_Some in Hj. lia. }
    destruct (lookup_lt_is_Some_2 a i Hlt) as [x Hx]. rewrite Hx.
    destruct (isnull x); [reflexivity|].
    apply IH; [lia | assumption | assumption].
Qed.

(** C1. With a strict transition function, advancing a group with an input
    row in which some transition input [j] (1 <= j <= numTransInputs) is
    null changes nothing: the accumulator, its null flag and the
    uninitialized flag are as before, the call descriptor is untouched, and
    the trace of function-manager calls is the same, that is, the transition
    function was not invoked. *)
Theorem strict_null_input_keeps_state
    (pertrans : AggStatePerTransData) (pergroupstate : AggStatePerGroupData)
    (tr : Trace) (j : nat) (d : NullableDatum) :
  fn_strict (transfn pertrans) = true ->
  (1 <= j <= numTransInputs pertrans)%nat ->
  args (transfn_fcinfo pertrans) !! j = Some d ->
  isnull d = true ->
  advance_transition_function pertrans pergroupstate tr
  = Done ((pertrans, pergroupstate), tr).
Proof.
  intros Hstrict Hj Hd Hnull. unfold advance_transition_function.
  rewrite Hstrict.
  rewrite (any_null_arg_found (args (transfn_fcinfo pertrans))
             (numTransInputs pertrans) 1 j d); [reflexivity | lia | assumption | assumption].
Qed.

Lemma C1_witness :
  advance_transition_function pertrans_max (mkPerGroup 7 false false) []
  = Done ((pertrans_max, mkPerGroup 7 false false), []).
Proof.
  apply (strict_null_input_keeps_state pertrans_max (mkPerGroup 7 false false)
           [] 1 null_datum); [reflexivity | simpl; lia | reflexivity | reflexivity].
Defined.

(** The three ways a strict transition function treats a row without null
    inputs. *)
Lemma strict_adopts_first_input
    (p : AggStatePerTransData) (pg : AggStatePerGroupData) (tr : Trace)
    (a1 : NullableDatum) :
  fn_strict (transfn p) = true ->
  noTransValue pg = true ->
  any_null_arg (args (transfn_fcinfo p)) 1 (numTransInputs p) = Done false ->
  args (transfn_fcinfo p) !! 1%nat = Some a1 ->
  advance_transition_function p pg tr
  = Done ((p, mkPerGroup (value a1) false false), tr).
Proof.
  intros Hs Hno Hnn Ha. unfold advance_transition_function.
  rewrite Hs, Hnn, Hno, Ha. reflexivity.
Qed.

Lemma strict_null_state_propagates
    (p : AggStatePerTransData) (pg : AggStatePerGroupData) (tr : Trace) :
  fn_strict (transfn p) = true ->
  noTransValue pg = false ->
  transValueIsNull pg = true ->
  any_null_arg (args (transfn_fcinfo p)) 1 (numTransInputs p) = Done false ->
  advance_transition_function p pg tr = Done ((p, pg), tr).
Proof.
  intros Hs Hno Hnull Hnn. unfold advance_transition_function.
  rewrite Hs, Hnn, Hno, Hnull. reflexivity.
Qed.

Lemma advance_calls_transfn
    (p : AggStatePerTransData) (pg : AggStatePerGroupData) (tr : Trace)
    (r : NullableDatum) :
  (fn_strict (transfn p) = true ->
   noTransValue pg = false /\ transValueIsNull pg = false /\
   any_null_arg (args (transfn_fcinfo p)) 1 (numTransInputs p) = Done false) ->
  is_Some (args (transfn_fcinfo p) !! 0%nat) ->
  fn_addr (transfn p) (call_args p pg) = Some r ->
  advance_transition_function p pg tr
  = Done ((set_transfn_fcinfo p (mkFcinfo (isnull r) (call_args p pg)),
           mkPerGroup (stored_value p pg r) (isnull r) (noTransValue pg)),
          tr ++ [EvTransfn (call_args p pg)]).
Proof.
  intros Hs [a0 Ha0] Hr. unfold advance_transition_function.
  destruct (fn_strict (transfn p)) eqn:E.
  - destruct (Hs eq_refl) as (Hno & Hnull & Hnn).
    unfold call_args, stored_value in *.
    rewrite Hnn, Hno, Hnull, Ha0. rewrite Hnull in Hr.
    unfold bind, FunctionCallInvoke, modify, ret. simpl.
    rewrite Hr. reflexivity.
  - unfold call_args, stored_value in *. rewrite Ha0.
    unfold bind, FunctionCallInvoke, modify, ret. simpl.
    rewrite Hr. reflexivity.
Qed.

Lemma initialize_aggregate_static
    (current_set : nat) (pt pt0 : AggStatePerTransData)
    (pg0 : AggStatePerGroupData) :
  initialize_aggregate current_set pt = Done (pt0, pg0) ->
  (exists ss, pt0 = set_sortstates pt ss) /\
  pg0 = mkPerGroup (initValue pt) (initValueIsNull pt) (initValueIsNull pt).
Proof.
  unfold initialize_aggregate. intros H.
  destruct (0 <? numSortCols pt)%nat.
  - destruct (sortstates pt !! current_set); [|discriminate].
    injection H as <- <-. split; [eexists; reflexivity|].
    unfold datumCopy. destruct (initValueIsNull pt); reflexivity.
  - injection H as <- <-. split.
    + exists (sortstates pt). destruct pt; reflexivity.
    + unfold datumCopy. destruct (initValueIsNull pt); reflexivity.
Qed.

(** C2 (amended).  For a strict transition function and no initial value,
    a freshly initialized group is uninitialized.  Then, for a row without
    null inputs: the first such row is adopted as the accumulator, both flags
    are cleared, and the transition function is not invoked (same trace);
    a later such row makes exactly one normal call of the transition function
    on (accumulator, inputs) as long as the accumulator is not NULL; once the
    transition function has answered NULL, later rows leave the state as it
    is, without a call.  Inputs [NULL; NULL; 5; 3] give a single call, on
    (5, 3). *)
Theorem strict_uninitialized_adoption
    (pt : AggStatePerTransData) (current_set : nat)
    (pt0 : AggStatePerTransData) (pg0 : AggStatePerGroupData) :
  fn_strict (transfn pt) = true ->
  initValueIsNull pt = true ->
  initialize_aggregate current_set pt = Done (pt0, pg0) ->
  (transValueIsNull pg0 = true /\ noTransValue pg0 = true) /\
  (forall (fc : FunctionCallInfoBaseData) (pg : AggStatePerGroupData) (tr : Trace),
      let p := set_transfn_fcinfo pt0 fc in
      any_null_arg (args fc) 1 (numTransInputs pt) = Done false ->
      (noTransValue pg = true ->
       forall a1, args fc !! 1%nat = Some a1 ->
         advance_transition_function p pg tr
         = Done ((p, mkPerGroup (value a1) false false), tr)) /\
      (noTransValue pg = false -> transValueIsNull pg = false ->
       is_Some (args fc !! 0%nat) ->
       forall r, fn_addr (transfn pt) (call_args p pg) = Some r ->
         advance_transition_function p pg tr
         = Done ((set_transfn_fcinfo p (mkFcinfo (isnull r) (call_args p pg)),
                  mkPerGroup (stored_value p pg r) (isnull r) false),
                 tr ++ [EvTransfn (call_args p pg)])) /\
      (noTransValue pg = false -> transValueIsNull pg = true ->
       advance_transition_function p pg tr = Done ((p, pg), tr))) /\
  (numTransInputs pt = 1%nat ->
   length (args (transfn_fcinfo pt)) = 2%nat ->
   forall tr : Trace,
     let five_three := [mkND 5 false; mkND 3 false] in
     process_ordered_single_loop false
       [datum_row null_datum; datum_row null_datum;
        datum_row (mkND 5 false); datum_row (mkND 3 false)]
       0 true false 0 pt0 pg0 tr
     = match fn_addr (transfn pt) five_three with
       | Some r =>
           Done ((set_transfn_fcinfo pt0 (mkFcinfo (isnull r) five_three),
                  mkPerGroup
                    (stored_value pt0 (mkPerGroup 5 false false) r)
                    (isnull r) false),
                 tr ++ [EvTransfn five_three])
       | None => Fail ERROR
       end).
Proof.
  intros Hstrict Hnoinit Hinit.
  destruct (initialize_aggregate_static _ _ _ _ Hinit) as [[ss Hpt0] Hpg0].
  rewrite Hnoinit in Hpg0. subst pg0.
  assert (Hfn : forall fc, transfn (set_transfn_fcinfo pt0 fc) = transfn pt)
    by (intros; subst pt0; reflexivity).
  assert (Hn : forall fc, numTransInputs (set_transfn_fcinfo pt0 fc)
                          = numTransInputs pt)
    by (intros; subst pt0; reflexivity).
  split; [split; reflexivity|]. split.
  - intros fc pg tr p Hnn. subst p. repeat split.
    + intros Hno a1 Ha1.
      apply strict_adopts_first_input;
        [rewrite Hfn; exact Hstrict | exact Hno | rewrite Hn; exact Hnn | exact Ha1].
    + intros Hno Hnull H0 r Hr.
      pose proof (advance_calls_transfn (set_transfn_fcinfo pt0 fc) pg tr r) as L.
      rewrite Hno in L.
      apply L; [intros _; rewrite Hn; auto | exact H0 | rewrite Hfn; exact Hr].
    + intros Hno Hnull.
      apply strict_null_state_propagates;
        [rewrite Hfn; exact Hstrict | exact Hno | exact Hnull | rewrite Hn; exact Hnn].
  - intros Hone Hlen tr five_three. subst five_three.
    assert (Hargs : exists a b, args (transfn_fcinfo pt) = [a; b]).
    { destruct (args (transfn_fcinfo pt)) as [|a [|b [|c l]]];
        simpl in Hlen; try discriminate. eauto. }
    destruct Hargs as (a & b & Hargs).
    subst pt0. clear Hinit Hfn Hn. unfold stored_value.
    destruct pt as [? ? ? ? ? ? ? [oid strict f] ? ? ? ? ? ? ? ? ? ? ? ? [fcn fca] ?];
      simpl in *. subst.
    unfold advance_transition_function, bind, ret, FunctionCallInvoke, modify,
      ExecAggTransReparent, datumCopy.
    simpl.
    destruct (f [mkND 5 false; mkND 3 false]) as [r|]; reflexivity.
Qed.

Lemma C2_witness :
  transValueIsNull (mkPerGroup 0 true true) = true /\
  advance_transition_function
    (set_transfn_fcinfo pertrans_max
       (mkFcinfo false [null_datum; mkND 5 false]))
    (mkPerGroup 0 true true) []
  = Done ((set_transfn_fcinfo pertrans_max
             (mkFcinfo false [null_datum; mkND 5 false]),
           mkPerGroup 5 false false), []).
Proof.
  destruct (strict_uninitialized_adoption pertrans_max 0 pertrans_max
              (mkPerGroup 0 true true) eq_refl eq_refl eq_refl)
    as [[H1 _] [H2 _]].
  split; [exact H1|].
  destruct (H2 (mkFcinfo false [null_datum; mkND 5 false])
              (mkPerGroup 0 true true) [] eq_refl) as [Hadopt _].
  exact (Hadopt eq_refl (mkND 5 false) eq_refl).
Defined.

(** C2 as stated fails: a later non-null input does not always cause a call.
    With a strict transition function that answers NULL, the inputs
    [5; 3; 4] produce one call only, on (5, 3); the non-null input 4 finds a
    NULL accumulator and is passed over. *)
Lemma later_nonnull_input_without_call :
  fn_strict (transfn pertrans_null) = true /\
  initialize_aggregate 0 pertrans_null
  = Done (pertrans_null, mkPerGroup 0 true true) /\
  process_ordered_single_loop false (int_rows [5; 3; 4]%Z)
    0 true false 0 pertrans_null (mkPerGroup 0 true true) []
  = Done ((set_transfn_fcinfo pertrans_null
             (mkFcinfo true [mkND 5 false; mkND 4 false]),
           mkPerGroup 0 true false),
          [EvTransfn [mkND 5 false; mkND 3 false]]).
Proof. repeat split. Qed.

(** ** Sort-based DISTINCT processing *)

Lemma bind_ret {S A B} (a : A) (k : A -> M S B) (s : S) :
  bind (ret a) k s = k a s.
Proof. reflexivity. Qed.

Lemma appends_ret {A} (a : A) : appends (ret a).
Proof. intros tr. unfold ret. rewrite app_nil_r. reflexivity. Qed.

Lemma appends_raise {A} (f : failure) : appends (@raise Trace A f).
Proof. intros tr. reflexivity. Qed.

Lemma appends_bind {A B} (m : M Trace A) (k : A -> M Trace B) :
  appends m -> (forall a, appends (k a)) -> appends (bind m k).
Proof.
  intros Hm Hk tr. unfold bind. rewrite (Hm tr).
  destruct (m []) as [[a ev]|f]; [|reflexivity].
  rewrite (Hk a (tr ++ ev)), (Hk a ev).
  destruct (k a []) as [[b ev']|f]; [|reflexivity].
  rewrite app_assoc. reflexivity.
Qed.

Lemma appends_invoke ev f fc : appends (FunctionCallInvoke ev f fc).
Proof.
  intros tr. unfold FunctionCallInvoke, bind, modify, ret, raise.
  destruct (fn_addr f (args fc)); reflexivity.
Qed.

Lemma appends_call2 f a b : appends (FunctionCall2Coll f a b).
Proof.
  unfold FunctionCall2Coll. apply appends_bind; [apply appends_invoke|].
  intros r. destruct (isnull r); [apply appends_raise | apply appends_ret].
Qed.

Lemma appends_advance p pg : appends (advance_transition_function p pg).
Proof.
  unfold advance_transition_function.
  assert (Hcall : forall k : NullableDatum -> M Trace (AggStatePerTransData * AggStatePerGroupData),
             (forall r, appends (k r)) ->
             forall fc, appends
               match args (transfn_fcinfo p) !! 0%nat with
               | None => raise SEGV
               | Some _ => bind (FunctionCallInvoke EvTransfn (transfn p) fc) k
               end).
  { intros k Hk fc. destruct (args (transfn_fcinfo p) !! 0%nat);
      [apply appends_bind; [apply appends_invoke | exact Hk] | apply appends_raise]. }
  destruct (fn_strict (transfn p)).
  - destruct (any_null_arg _ _ _) as [[|]|f];
      [apply appends_ret| |apply appends_raise].
    destruct (noTransValue pg).
    + destruct (args (transfn_fcinfo p) !! 1%nat);
        [apply appends_ret | apply appends_raise].
    + destruct (transValueIsNull pg); [apply appends_ret|].
      apply Hcall. intros r. apply appends_ret.
  - apply Hcall. intros r. apply appends_ret.
Qed.

Lemma transfn_calls_app t1 t2 :
  transfn_calls (t1 ++ t2) = transfn_calls t1 ++ transfn_calls t2.
Proof.
  induction t1 as [|e t1 IH]; [reflexivity|].
  destruct e; simpl; rewrite IH; reflexivity.
Qed.

Lemma agree_but_arg1_refl p : agree_but_arg1 p p.
Proof. intros d. reflexivity. Qed.

Lemma agree_but_arg1_set p q d :
  agree_but_arg1 p q ->
  agree_but_arg1 (set_transfn_fcinfo p (set_arg (transfn_fcinfo p) 1 d)) q.
Proof.
  intros H d'. rewrite <- (H d'). unfold set_transfn_fcinfo, set_arg. simpl.
  rewrite list_insert_insert_eq. reflexivity.
Qed.

Lemma agree_but_arg1_lookup p q :
  agree_but_arg1 p q ->
  is_Some (args (transfn_fcinfo p) !! 1%nat)
  <-> is_Some (args (transfn_fcinfo q) !! 1%nat).
Proof.
  intros H. pose proof (f_equal (fun x => length (args (transfn_fcinfo x)))
                          (H null_datum)) as Hlen.
  simpl in Hlen. rewrite !length_insert in Hlen.
  rewrite !lookup_lt_is_Some. rewrite Hlen. reflexivity.
Qed.

Lemma agree_but_arg1_equalfn p q :
  agree_but_arg1 p q -> equalfnOne p = equalfnOne q.
Proof. intros H. exact (f_equal equalfnOne (H null_datum)). Qed.

Lemma advance_keeps_equalfn p pg tr p' pg' tr' :
  advance_transition_function p pg tr = Done ((p', pg'), tr') ->
  equalfnOne p' = equalfnOne p.
Proof.
  unfold advance_transition_function, bind, ret, raise, FunctionCallInvoke, modify.
  intros H.
  repeat match type of H with
         | context [match ?x with _ => _ end] => destruct x eqn:?; simpl in H
         | Done _ = Done _ => injection H as <- <- <-
         | Fail _ = Done _ => discriminate H
         end; try reflexivity; try discriminate.
Qed.

Lemma advance_keeps_static p pg tr p' pg' tr' :
  advance_transition_function p pg tr = Done ((p', pg'), tr') ->
  length (args (transfn_fcinfo p')) = length (args (transfn_fcinfo p)) /\
  transfn p' = transfn p /\ sortstates p' = sortstates p.
Proof.
  unfold advance_transition_function, bind, ret, raise, FunctionCallInvoke, modify.
  intros H.
  repeat match type of H with
         | context [match ?x with _ => _ end] => destruct x eqn:?; simpl in H
         | Done _ = Done _ => injection H as <- <- <-
         | Fail _ = Done _ => discriminate H
         end; try discriminate; simpl; rewrite ?length_insert; auto.
Qed.

Lemma equal_check f eqop a b tr :
  equality_operator f eqop ->
  bind (FunctionCall2Coll f a b) (fun b0 => ret (DatumGetBool b0)) tr
  = Done (eqop a b, tr ++ [EvEqualfn [mkND a false; mkND b false]]).
Proof.
  intros Heq. destruct (Heq a b) as (v & Hv & Hb).
  unfold bind, FunctionCall2Coll, FunctionCallInvoke, bind, modify, ret.
  simpl. rewrite Hv. simpl. rewrite Hb. reflexivity.
Qed.

Lemma distinct_loop_refines (eqop : Datum -> Datum -> bool) (rows : list SortedRow) :
  forall ov oi ho oa prev ptd ptc pg trd trc ov' oi' ho' oa',
    equality_operator (equalfnOne ptd) eqop ->
    is_Some (args (transfn_fcinfo ptd) !! 1%nat) ->
    agree_but_arg1 ptd ptc ->
    transfn_calls trd = transfn_calls trc ->
    prior_value ho ov oi oa prev ->
    same_transitions
      (process_ordered_single_loop true rows ov oi ho oa ptd pg trd)
      (process_ordered_single_loop false (collapse_consecutive eqop prev rows)
         ov' oi' ho' oa' ptc pg trc).
Proof.
  induction rows as [|r rows IH];
    intros ov oi ho oa prev ptd ptc pg trd trc ov' oi' ho' oa' Heq Hsome Hag Htr Hprev.
  - simpl. unfold ret. auto.
  - (* what happens when the value is kept: both runs advance on it *)
    assert (Hkeep : forall trd1 ov1 oi1 ho1 oa1,
      transfn_calls trd1 = transfn_calls trc ->
      same_transitions
        (bind (advance_transition_function
                 (set_transfn_fcinfo ptd (set_arg (transfn_fcinfo ptd) 1 (sr_first r)))
                 pg)
              (fun p => process_ordered_single_loop true rows
                          (value (sr_first r)) (isnull (sr_first r)) true
                          (sr_abbrev r) (fst p) (snd p)) trd1)
        (process_ordered_single_loop false
           (r :: collapse_consecutive eqop (Some r) rows) ov1 oi1 ho1 oa1 ptc pg trc)).
    { intros trd1 ov1 oi1 ho1 oa1 Htr1. simpl.
      destruct (proj1 (agree_but_arg1_lookup _ _ Hag) Hsome) as [x Hx].
      rewrite Hx. rewrite <- (Hag (sr_first r)).
      rewrite bind_ret. unfold bind.
      rewrite (appends_advance _ pg trd1), (appends_advance _ pg trc).
      destruct (advance_transition_function _ pg []) as [[[p' pg'] ev]|f] eqn:Hadv;
        [|reflexivity].
      destruct (advance_keeps_static _ _ _ _ _ _ Hadv) as (Hlen & _ & _).
      pose proof (advance_keeps_equalfn _ _ _ _ _ _ Hadv) as Hef.
      simpl. apply IH.
      - rewrite Hef. exact Heq.
      - apply lookup_lt_is_Some. rewrite Hlen. simpl. rewrite length_insert.
        apply lookup_lt_is_Some. exact Hsome.
      - apply agree_but_arg1_refl.
      - rewrite !transfn_calls_app, Htr1. reflexivity.
      - simpl. auto. }
    (* what happens when it is passed over *)
    assert (Hskip : forall trd1,
      transfn_calls trd1 = transfn_calls trc ->
      same_transitions
        (process_ordered_single_loop true rows ov oi ho oa
           (set_transfn_fcinfo ptd (set_arg (transfn_fcinfo ptd) 1 (sr_first r)))
           pg trd1)
        (process_ordered_single_loop false (collapse_consecutive eqop prev rows)
           ov' oi' ho' oa' ptc pg trc)).
    { intros trd1 Htr1. apply IH; auto.
      - apply lookup_lt_is_Some. simpl. rewrite length_insert.
        apply lookup_lt_is_Some. exact Hsome.
      - apply agree_but_arg1_set. exact Hag. }
    destruct Hsome as [x Hx].
    cbn [process_ordered_single_loop]. rewrite Hx.
    destruct prev as [pr|]; simpl in Hprev.
    + destruct Hprev as (-> & -> & -> & ->).
      cbn [collapse_consecutive]. unfold distinct_equal.
      cbn [andb].
      destruct (isnull (sr_first pr) && isnull (sr_first r)) eqn:Hnn.
      * cbn [orb]. rewrite bind_ret. apply Hskip. exact Htr.
      * cbn [orb].
        destruct (negb (isnull (sr_first pr)) && negb (isnull (sr_first r))
                  && (sr_abbrev pr =? sr_abbrev r)%Z) eqn:Hab.
        -- cbn [andb]. cbn [equalfnOne set_transfn_fcinfo].
           unfold bind at 1.
           rewrite (equal_check _ eqop _ _ trd Heq).
           destruct (eqop (value (sr_first pr)) (value (sr_first r))).
           ++ apply Hskip. rewrite transfn_calls_app. simpl.
              rewrite app_nil_r. exact Htr.
           ++ apply Hkeep. rewrite transfn_calls_app. simpl.
              rewrite app_nil_r. exact Htr.
        -- cbn [andb]. rewrite bind_ret.
           apply Hkeep. exact Htr.
    + subst ho. cbn [andb collapse_consecutive].
      rewrite bind_ret. apply Hkeep. exact Htr.
Qed.

Lemma loop_keeps_static isDistinct rows :
  forall ov oi ho oa p pg tr p' pg' tr',
    process_ordered_single_loop isDistinct rows ov oi ho oa p pg tr
    = Done ((p', pg'), tr') ->
    transfn p' = transfn p /\ sortstates p' = sortstates p.
Proof.
  induction rows as [|r rows IH]; intros ov oi ho oa p pg tr p' pg' tr' H.
  - injection H as <- <- <-. auto.
  - cbn [process_ordered_single_loop] in H.
    destruct (args (transfn_fcinfo p) !! 1%nat); [|discriminate].
    unfold bind at 1 in H.
    match type of H with
    | match ?c tr with _ => _ end = _ =>
        destruct (c tr) as [[same t1]|f]; [|discriminate]
    end.
    destruct same.
    + apply IH in H. simpl in H. exact H.
    + unfold bind in H.
      destruct (advance_transition_function _ pg t1) as [[[p1 pg1] t2]|f] eqn:Hadv;
        [|discriminate].
      apply advance_keeps_static in Hadv. destruct Hadv as (_ & Hf & Hs).
      apply IH in H. simpl in H, Hf, Hs. destruct H as [H1 H2].
      rewrite H1, H2. auto.
Qed.

Lemma nonstrict_advance_calls p pg tr p' pg' tr' :
  fn_strict (transfn p) = false ->
  advance_transition_function p pg tr = Done ((p', pg'), tr') ->
  tr' = tr ++ [EvTransfn (call_args p pg)].
Proof.
  intros Hns. unfold advance_transition_function. rewrite Hns.
  destruct (args (transfn_fcinfo p) !! 0%nat); [|discriminate].
  unfold bind, FunctionCallInvoke, bind, modify, ret, raise. simpl.
  destruct (fn_addr _ _); [|discriminate].
  intros H. injection H as <- <- <-. reflexivity.
Qed.

(** Without DISTINCT, and with a transition function that is not strict,
    every value handed out by the sort is one invocation, carrying that value
    in argument position 1. *)
Lemma nonstrict_loop_calls rows :
  forall ov oi ho oa p pg tr p' pg' tr',
    fn_strict (transfn p) = false ->
    process_ordered_single_loop false rows ov oi ho oa p pg tr
    = Done ((p', pg'), tr') ->
    exists calls,
      tr' = tr ++ map EvTransfn calls /\
      Forall2 (fun c r => c !! 1%nat = Some (sr_first r)) calls rows.
Proof.
  induction rows as [|r rows IH]; intros ov oi ho oa p pg tr p' pg' tr' Hns H.
  - injection H as <- <- <-. exists []. rewrite app_nil_r. auto.
  - cbn [process_ordered_single_loop andb] in H.
    destruct (args (transfn_fcinfo p) !! 1%nat) as [x|] eqn:Hx; [|discriminate].
    rewrite bind_ret in H. unfold bind in H.
    destruct (advance_transition_function _ pg tr) as [[[p1 pg1] t1]|f] eqn:Hadv;
      [|discriminate].
    assert (Hns1 : fn_strict (transfn (set_transfn_fcinfo p
                      (set_arg (transfn_fcinfo p) 1 (sr_first r)))) = false)
      by exact Hns.
    pose proof (nonstrict_advance_calls _ _ _ _ _ _ Hns1 Hadv) as ->.
    destruct (advance_keeps_static _ _ _ _ _ _ Hadv) as (_ & Hf & _).
    apply IH in H; [|simpl; rewrite Hf; exact Hns].
    destruct H as (calls & -> & Hall).
    eexists (_ :: calls). split.
    + rewrite <- app_assoc. reflexivity.
    + constructor; [|exact Hall].
      unfold call_args. simpl.
      rewrite list_lookup_insert_ne by discriminate.
      apply list_lookup_insert_eq. apply lookup_lt_Some in Hx. exact Hx.
Qed.

Lemma transfn_calls_map calls : transfn_calls (map EvTransfn calls) = calls.
Proof. induction calls as [|c l IH]; simpl; [|rewrite IH]; reflexivity. Qed.

(** C3 (amended).  For a single-input DISTINCT aggregate, the sorted values
    are processed so that consecutive equal values (both NULL, or equal
    abbreviated keys and equal per the DISTINCT equality operator) are
    collapsed to exactly one call of [advance_transition_function]: the group
    state and the invocations of the transition function are those of
    advancing once on each surviving value, in order.  That advance invokes
    the transition function unless the rules for strict functions adopt or
    skip the value; with a transition function that is not strict every
    surviving value is one invocation.  When the function returns, the sort
    of this aggregate and grouping set is released (set to NULL).  The
    survivors of [1;1;2;2;2;3] are 1, 2 and 3. *)
Theorem distinct_collapses_equal_runs
    (eqop : Datum -> Datum -> bool) (current_set : nat)
    (pt : AggStatePerTransData) (pg : AggStatePerGroupData)
    (ts : Tuplesortstate) (tr : Trace) :
  (0 < numDistinctCols pt)%nat ->
  sortstates pt !! current_set = Some (Some ts) ->
  equality_operator (equalfnOne pt) eqop ->
  let kept := collapse_consecutive eqop None (ts_arrange ts (ts_put ts)) in
  same_group_effect
    (process_ordered_aggregate_single current_set pt pg tr)
    (process_ordered_single_loop false kept 0 true false 0 pt pg tr) /\
  (forall pt' pg' tr',
      process_ordered_aggregate_single current_set pt pg tr
      = Done ((pt', pg'), tr') ->
      sortstates pt' !! current_set = Some None /\
      (fn_strict (transfn pt) = false ->
       exists calls,
         transfn_calls tr' = transfn_calls tr ++ calls /\
         Forall2 (fun c r => c !! 1%nat = Some (sr_first r)) calls kept)) /\
  collapse_consecutive Z.eqb None (int_rows [1; 1; 2; 2; 2; 3]%Z)
  = int_rows [1; 2; 3]%Z.
Proof.
  intros Hdist Hsort Heq kept.
  assert (Hmain : same_group_effect
    (process_ordered_aggregate_single current_set pt pg tr)
    (process_ordered_single_loop false kept 0 true false 0 pt pg tr)).
  { unfold process_ordered_aggregate_single. rewrite Hsort.
    apply Nat.ltb_lt in Hdist. rewrite Hdist.
    cbn [tuplesort_performsort ts_out]. subst kept.
    destruct (args (transfn_fcinfo pt) !! 1%nat) as [x|] eqn:Hx.
    - pose proof (distinct_loop_refines eqop (ts_arrange ts (ts_put ts))
                    0%Z true false 0%Z None pt pt pg tr tr 0%Z true false 0%Z
                    Heq (ex_intro _ x Hx) (agree_but_arg1_refl pt) eq_refl eq_refl)
        as Href.
      unfold bind.
      destruct (process_ordered_single_loop true _ _ _ _ _ _ _ _)
        as [[[p1 g1] t1]|f1];
      destruct (process_ordered_single_loop false _ _ _ _ _ _ _ _)
        as [[[p2 g2] t2]|f2]; simpl in Href |- *; tauto.
    - destruct (ts_arrange ts (ts_put ts)) as [|r rows].
      + simpl. auto.
      + unfold bind. cbn [collapse_consecutive process_ordered_single_loop].
        rewrite Hx. reflexivity. }
  split; [exact Hmain|]. split; [|reflexivity].
  intros pt' pg' tr' Hrun. split.
  - unfold process_ordered_aggregate_single in Hrun. rewrite Hsort in Hrun.
    unfold bind in Hrun.
    match type of Hrun with
    | match ?c with _ => _ end = _ =>
        destruct c as [[[p1 g1] t1]|f1] eqn:Hloop; [|discriminate]
    end.
    unfold ret in Hrun. injection Hrun as <- <- <-. simpl.
    apply list_lookup_insert_eq.
    destruct (loop_keeps_static _ _ _ _ _ _ _ _ _ _ _ _ Hloop) as [_ Hs].
    rewrite Hs. apply lookup_lt_Some in Hsort. exact Hsort.
  - intros Hns. rewrite Hrun in Hmain.
    destruct (process_ordered_single_loop false kept _ _ _ _ _ _ _)
      as [[[p2 g2] t2]|f2] eqn:Hloop; simpl in Hmain; [|contradiction].
    destruct Hmain as [_ Htr].
    destruct (nonstrict_loop_calls _ _ _ _ _ _ _ _ _ _ _ Hns Hloop)
      as (calls & -> & Hall).
    exists calls. split; [|exact Hall].
    rewrite Htr, transfn_calls_app, transfn_calls_map. reflexivity.
Qed.

Lemma int4eq_is_equality : equality_operator int4eq Z.eqb.
Proof.
  intros a b. exists (if (a =? b)%Z then 1 else 0)%Z. split; [reflexivity|].
  destruct (a =? b)%Z; reflexivity.
Qed.

Lemma C3_witness :
  same_group_effect
    (process_ordered_aggregate_single 0 pertrans_sum_distinct
       (mkPerGroup 0 false false) [])
    (process_ordered_single_loop false (int_rows [1; 2; 3]%Z) 0 true false 0
       pertrans_sum_distinct (mkPerGroup 0 false false) []).
Proof.
  exact (proj1 (distinct_collapses_equal_runs Z.eqb 0 pertrans_sum_distinct
                  (mkPerGroup 0 false false) (sort_of [1; 1; 2; 2; 2; 3]%Z) []
                  (le_n 1) eq_refl int4eq_is_equality)).
Defined.

(** [sum(DISTINCT x)] over [1;1;2;2;2;3]: three invocations, on 1, 2 and 3. *)
Example distinct_sum_three_invocations :
  exists pt' tr,
    process_ordered_aggregate_single 0 pertrans_sum_distinct
      (mkPerGroup 0 false false) []
    = Done ((pt', mkPerGroup 6 false false), tr) /\
    sortstates pt' = [None] /\
    transfn_calls tr
    = [[mkND 0 false; mkND 1 false]; [mkND 1 false; mkND 2 false];
       [mkND 3 false; mkND 3 false]].
Proof. eexists. eexists. split; [lazy; reflexivity|]. split; reflexivity. Qed.

(** C3 as stated fails: [max(DISTINCT x)] has a strict transition function
    and no initial value, so the first survivor, 1, is adopted without an
    invocation; [1;1;2;2;2;3] causes two invocations, not three. *)
Lemma distinct_max_two_invocations :
  exists pt' tr,
    process_ordered_aggregate_single 0 pertrans_max_distinct
      (mkPerGroup 0 true true) []
    = Done ((pt', mkPerGroup 3 false false), tr) /\
    transfn_calls tr
    = [[mkND 1 false; mkND 2 false]; [mkND 2 false; mkND 3 false]] /\
    length (transfn_calls tr) <> 3%nat.
Proof.
  eexists. eexists. split; [lazy; reflexivity|]. split; [reflexivity|].
  simpl. discriminate.
Qed.

(** ** Finalization *)



(** ** Sharing of aggregate state *)



(** The same two calls over a plain column are recognized as identical and
    share slot 0. *)
Example stable_aggregate_is_shared :
  find_compatible_peragg calls_random sum_of_column
    [peragg_of sum_of_column] 0 = Done (0%Z, []).
Proof. reflexivity. Qed.

(** ** Scan executor *)

Section ScanProperties.

Context {AM : Type}.
Variable BATCHSIZE : nat.
Variable EvalPlanQualFetchRowMark :
  VectorScanState AM -> nat -> SlotPtr -> outcome (bool * VectorScanState AM).
Variables (accessMtd : VExecScanAccessMtd (AM := AM))
          (recheckMtd : VExecScanRecheckMtd (AM := AM)).


Lemma cleared_slot_is_empty (s s' : Slot) :
  VExecClearTuple s = Done s' -> TTS_EMPTY s' = true.
Proof.
  destruct s as [t|v]; simpl.
  - intros H. injection H as <-. reflexivity.
  - unfold tts_vector_clear.
    destruct (tts_empty (tts v)) eqn:E.
    + intros H. injection H as <-. exact E.
    + destruct (release_buffers _ _ _); [|discriminate].
      intros H. injection H as <-. reflexivity.
Qed.

Lemma project_batch_skip (p : ProjectionInfo) (s : SlotPtr)
    (st : VectorScanState AM) (r : SlotPtr) (st' : VectorScanState AM) :
  project_batch BATCHSIZE p s st = Done (Some r, st') ->
  r = pi_resultslot p /\ same_skip_mask BATCHSIZE st' r s /\
  ecxt_scantuple_ptr st' = ecxt_scantuple_ptr st.
Proof.
  unfold project_batch. intros H.
  destruct (es_tupleTable st !! s) as [scanned|] eqn:Hs; [|discriminate].
  destruct (es_tupleTable st !! pi_resultslot p) as [old|] eqn:Ho; [|discriminate].
  destruct (pi_exec p scanned old) as [projected|]; [|discriminate].
  destruct (<[pi_resultslot p:=projected]> (es_tupleTable st) !! pi_resultslot p)
    as [[|dst]|] eqn:Hd; try discriminate.
  destruct (<[pi_resultslot p:=projected]> (es_tupleTable st) !! s)
    as [[|src]|] eqn:Hsrc; try discriminate.
  unfold memcpy_skip in H.
  destruct ((BATCHSIZE <=? length (skip src))%nat
            && (BATCHSIZE <=? length (skip dst))%nat) eqn:Hlen; [|discriminate].
  apply andb_true_iff in Hlen. destruct Hlen as [Hl1 Hl2].
  apply Nat.leb_le in Hl1, Hl2.
  injection H as <- <-. split; [reflexivity|]. split; [|reflexivity].
  assert (Hrlt : (pi_resultslot p < length (es_tupleTable st))%nat)
    by (apply lookup_lt_Some in Ho; exact Ho).
  assert (Htake : take BATCHSIZE (take BATCHSIZE (skip src) ++ drop BATCHSIZE (skip dst))
                  = take BATCHSIZE (skip src)).
  { apply take_app_length'. rewrite length_take. lia. }
  assert (Hlen' : (BATCHSIZE <= length (take BATCHSIZE (skip src)
                                        ++ drop BATCHSIZE (skip dst)))%nat).
  { rewrite length_app, length_take. lia. }
  unfold same_skip_mask. simpl.
  destruct (decide (s = pi_resultslot p)) as [->|Hne].
  - rewrite Hd in Hsrc. injection Hsrc as <-.
    eexists. eexists. split; [|split].
    + apply list_lookup_insert_eq. rewrite length_insert. exact Hrlt.
    + apply list_lookup_insert_eq. rewrite length_insert. exact Hrlt.
    + simpl. auto.
  - eexists. exists src. split; [|split].
    + apply list_lookup_insert_eq. rewrite length_insert. exact Hrlt.
    + rewrite list_lookup_insert_ne by congruence. exact Hsrc.
    + simpl. auto.
Qed.

Lemma scan_loop_skip (p : ProjectionInfo) (q : option ScanQual) (fuel : nat) :
  forall (st : VectorScanState AM) (r : SlotPtr) (st' : VectorScanState AM),
    VExecScan_loop BATCHSIZE EvalPlanQualFetchRowMark fuel accessMtd
      recheckMtd q (Some p) st = Done (Some r, st') ->
    TupIsNullPtr st' (Some r) = Done false ->
    exists s, ecxt_scantuple_ptr st' = Some s /\
              r = pi_resultslot p /\ same_skip_mask BATCHSIZE st' r s.
Proof.
  induction fuel as [|fuel IH]; intros st r st' H Hnn; [discriminate|].
  cbn [VExecScan_loop] in H.
  destruct (ExecScanFetch _ _ _ st) as [[slot st1]|f]; [|discriminate].
  destruct (TupIsNullPtr st1 slot) as [[|]|f] eqn:Hnull; [| |discriminate].
  - (* end of the scan: the cleared result slot is empty *)
    exfalso. assert (Hclr : ExecClearTuple st1 (pi_resultslot p) = Done (Some r, st'))
      by (destruct slot; exact H).
    unfold ExecClearTuple in Hclr.
    destruct (es_tupleTable st1 !! pi_resultslot p) as [s0|] eqn:H0; [|discriminate].
    destruct (VExecClearTuple s0) as [s1|f] eqn:Hc; [|discriminate].
    injection Hclr as <- <-. simpl in Hnn.
    rewrite list_lookup_insert_eq in Hnn by (apply lookup_lt_Some in H0; exact H0).
    rewrite (cleared_slot_is_empty _ _ Hc) in Hnn. discriminate.
  - destruct slot as [sp|]; [|discriminate].
    match type of H with
    | match ?c with _ => _ end = _ => destruct c as [[[|] st3]|f] eqn:Hq
    end; [| |discriminate].
    + destruct (project_batch_skip _ _ _ _ _ H) as (Hr & Hmask & Hptr).
      exists sp. split; [|split; assumption].
      rewrite Hptr. destruct q as [q|].
      * unfold VExecScanQual in Hq.
        destruct (es_tupleTable _ !! sp); [|discriminate].
        destruct (q s) as [[b s']|]; [|discriminate].
        injection Hq as _ <-. reflexivity.
      * injection Hq as <-. reflexivity.
    + exact (IH _ _ _ H Hnn).
Qed.

(** C6. When a projection is configured, every non-empty batch that the
    scan returns is the projection's result slot, and the first BATCHSIZE
    entries of its skip mask are exactly those of the scanned batch that
    passed the predicate (the batch left in [ecxt_scantuple]). *)
Theorem projection_keeps_skip_mask (fuel : nat) (p : ProjectionInfo)
    (vss : VectorScanState AM) (r : SlotPtr) (vss' : VectorScanState AM) :
  ps_ProjInfo vss = Some p ->
  VExecScan BATCHSIZE EvalPlanQualFetchRowMark fuel accessMtd recheckMtd vss
  = Done (Some r, vss') ->
  TupIsNullPtr vss' (Some r) = Done false ->
  exists s, ecxt_scantuple_ptr vss' = Some s /\
            r = pi_resultslot p /\ same_skip_mask BATCHSIZE vss' r s.
Proof.
  intros Hp H Hnn. unfold VExecScan in H. rewrite Hp in H.
  assert (Hloop : VExecScan_loop BATCHSIZE EvalPlanQualFetchRowMark fuel
                    accessMtd recheckMtd (qual vss) (Some p)
                    (ResetExprContext vss) = Done (Some r, vss'))
    by (destruct (qual vss); exact H).
  exact (scan_loop_skip p (qual vss) fuel _ _ _ Hloop Hnn).
Qed.

End ScanProperties.




(** The first batch fails [x > 15] altogether, the second passes with its
    first row masked; the projected batch carries the same mask. *)
Lemma C6_witness :
  exists r st',
    VExecScan 4 no_rowmark 5 seq_next seq_recheck
      (scan_state (Some above_15) (Some double_projection)
         [batch4 [false; false; false; false] [1; 2; 3; 4]%Z;
          batch4 [false; false; false; false] [10; 20; 30; 40]%Z])
    = Done (Some r, st') /\
    (skip <$> (match es_tupleTable st' !! r with
               | Some (Vector v) => Some v
               | _ => None
               end)) = Some [true; false; false; false] /\
    exists s, ecxt_scantuple_ptr st' = Some s /\
              r = pi_resultslot double_projection /\
              same_skip_mask 4 st' r s.
Proof.
  eexists. eexists. split; [lazy; reflexivity|]. split; [reflexivity|].
  apply (projection_keeps_skip_mask 4 no_rowmark seq_next seq_recheck 5
           double_projection
           (scan_state (Some above_15) (Some double_projection)
              [batch4 [false; false; false; false] [1; 2; 3; 4]%Z;
               batch4 [false; false; false; false] [10; 20; 30; 40]%Z]));
    reflexivity.
Defined.

(** ** The aggregation driver *)

Lemma outcome_bind_inv {A B} (m : outcome A) (k : A -> outcome B) (b : B) :
  mbind k m = Done b -> exists a, m = Done a /\ k a = Done b.
Proof. destruct m; simpl; [eauto | discriminate]. Qed.

(** Case analysis of a run that is known to return. *)
Ltac run_step :=
  match goal with
  | H : Fail _ = Done _ |- _ => discriminate H
  | H : Done _ = Done _ |- _ => inversion H; clear H; subst
  | H : mbind _ _ = Done _ |- _ =>
      apply outcome_bind_inv in H; destruct H as (? & ? & H)
  | H : (if ?c then _ else _) = Done _ |- _ => destruct c eqn:?
  | H : match ?c with _ => _ end = Done _ |- _ => destruct c eqn:?
  end.

Ltac run_inv := repeat run_step.

Lemma initialize_phase_view aggstate newphase st :
  initialize_phase aggstate newphase = Done st ->
  phase_view st = (phases aggstate, numphases aggstate, newphase, newphase).
Proof.
  unfold initialize_phase. intros H. run_inv; reflexivity.
Qed.

Lemma fetch_input_tuple_view st :
  phase_view (snd (fetch_input_tuple st)) = phase_view st.
Proof.
  unfold fetch_input_tuple.
  repeat match goal with
         | |- context [match ?c with _ => _ end] => destruct c eqn:?
         end; reflexivity.
Qed.

Lemma initialize_aggregates_view st numReset st' :
  initialize_aggregates st numReset = Done st' -> phase_view st' = phase_view st.
Proof. unfold initialize_aggregates. intros H. run_inv; reflexivity. Qed.

Lemma advance_aggregates_view st st' :
  advance_aggregates st = Done st' -> phase_view st' = phase_view st.
Proof. unfold advance_aggregates. intros H. run_inv; reflexivity. Qed.

Lemma prepare_projection_slot_view st slot currentSet r :
  prepare_projection_slot st slot currentSet = Done r ->
  phase_view (snd r) = phase_view st.
Proof. unfold prepare_projection_slot. intros H. run_inv; reflexivity. Qed.

Lemma finalize_aggregates_view st pergroup r :
  finalize_aggregates st pergroup = Done r -> phase_view (snd r) = phase_view st.
Proof. unfold finalize_aggregates. intros H. run_inv; reflexivity. Qed.

Lemma project_aggregates_view st r :
  project_aggregates st = Done r -> phase_view (snd r) = phase_view st.
Proof. unfold project_aggregates. intros H. run_inv; reflexivity. Qed.

Lemma ResetTupleHashIterator_view st setno st' :
  ResetTupleHashIterator st setno = Done st' -> phase_view st' = phase_view st.
Proof. unfold ResetTupleHashIterator. intros H. run_inv; reflexivity. Qed.

Lemma build_hash_table_view n : forall i st st',
  build_hash_table_loop i n st = Done st' -> phase_view st' = phase_view st.
Proof.
  induction n as [|n IH]; simpl; intros i st st' H.
  - run_inv. reflexivity.
  - run_inv. apply IH in H. exact H.
Qed.

Section DriverFrames.

Variable BATCHSIZE : nat.
Variable indeterminate_slot : option Slot.

Lemma lookup_hash_entry_view st r :
  lookup_hash_entry BATCHSIZE st = Done r -> phase_view (snd r) = phase_view st.
Proof. unfold lookup_hash_entry. intros H. run_inv; reflexivity. Qed.

Lemma lookup_hash_entries_loop_view n : forall setno st st',
  lookup_hash_entries_loop BATCHSIZE setno n st = Done st' ->
  phase_view st' = phase_view st.
Proof.
  induction n as [|n IH]; simpl; intros setno st st' H.
  - run_inv. reflexivity.
  - run_inv. apply IH in H. rewrite H.
    match goal with
    | E : lookup_hash_entry _ _ = Done _ |- _ =>
        apply lookup_hash_entry_view in E; exact E
    end.
Qed.

Lemma lookup_hash_entries_view st st' :
  lookup_hash_entries BATCHSIZE st = Done st' -> phase_view st' = phase_view st.
Proof. apply lookup_hash_entries_loop_view. Qed.

Lemma agg_fill_loop_view fuel : forall st st',
  agg_fill_loop BATCHSIZE fuel st = Done st' -> phase_view st' = phase_view st.
Proof.
  induction fuel as [|fuel IH]; simpl; intros st st' H.
  - discriminate.
  - pose proof (fetch_input_tuple_view st) as F.
    run_inv; [exact F|].
    apply IH in H. rewrite H.
    repeat match goal with
           | E : lookup_hash_entries _ _ = Done _ |- _ =>
               apply lookup_hash_entries_view in E
           | E : advance_aggregates _ = Done _ |- _ =>
               apply advance_aggregates_view in E
           end.
    unfold phase_view in *; simpl in *; congruence.
Qed.

(** Forward use of the frame lemmas on the calls of a run. *)
Ltac note_fetch st :=
  lazymatch goal with
  | _ : phase_view (snd (fetch_input_tuple st)) = phase_view st |- _ => fail
  | _ => pose proof (fetch_input_tuple_view st)
  end.

Ltac frames :=
  repeat match goal with
         | E : lookup_hash_entries _ _ = Done _ |- _ =>
             apply lookup_hash_entries_view in E
         | E : advance_aggregates _ = Done _ |- _ =>
             apply advance_aggregates_view in E
         | E : initialize_aggregates _ _ = Done _ |- _ =>
             apply initialize_aggregates_view in E
         | E : prepare_projection_slot _ _ _ = Done _ |- _ =>
             apply prepare_projection_slot_view in E
         | E : finalize_aggregates _ _ = Done _ |- _ =>
             apply finalize_aggregates_view in E
         | E : project_aggregates _ = Done _ |- _ =>
             apply project_aggregates_view in E
         | E : ResetTupleHashIterator _ _ = Done _ |- _ =>
             apply ResetTupleHashIterator_view in E
         | E : initialize_phase _ _ = Done _ |- _ =>
             apply initialize_phase_view in E
         | E : agg_fill_loop _ _ _ = Done _ |- _ =>
             apply agg_fill_loop_view in E
         | E : build_hash_table_loop _ _ _ = Done _ |- _ =>
             apply build_hash_table_view in E
         | |- context [fetch_input_tuple ?st] => note_fetch st
         | _ : context [fetch_input_tuple ?st] |- _ => note_fetch st
         end;
  unfold phase_view in *; simpl in *.

Lemma agg_fill_hash_table_view fuel st st' :
  agg_fill_hash_table BATCHSIZE fuel st = Done st' ->
  phase_view st' = phase_view st.
Proof.
  unfold agg_fill_hash_table. intros H. run_inv. frames. congruence.
Qed.

Lemma agg_retrieve_hash_loop_view fuel : forall row vas vas',
  agg_retrieve_hash_loop BATCHSIZE fuel row vas = Done vas' ->
  phase_view (aggstate vas') = phase_view (aggstate vas).
Proof.
  induction fuel as [|fuel IH]; simpl; intros row vas vas' H.
  - discriminate.
  - run_inv; try reflexivity;
      try (apply IH in H; rewrite H; clear H IH); frames; congruence.
Qed.

Lemma agg_retrieve_hash_table_view fuel vas r :
  agg_retrieve_hash_table BATCHSIZE fuel vas = Done r ->
  phase_view (aggstate (snd r)) = phase_view (aggstate vas).
Proof.
  unfold agg_retrieve_hash_table. intros H. run_inv.
  match goal with
  | E : agg_retrieve_hash_loop _ _ _ _ = Done _ |- _ =>
      apply agg_retrieve_hash_loop_view in E; exact E
  end.
Qed.

Lemma agg_group_loop_view fuel : forall hgs node firstSlot st r,
  agg_group_loop BATCHSIZE fuel hgs node firstSlot st = Done r ->
  phase_view (snd r) = phase_view st.
Proof.
  induction fuel as [|fuel IH]; simpl; intros hgs node firstSlot st r H.
  - discriminate.
  - run_inv; try (apply IH in H; rewrite H; clear H IH); frames; congruence.
Qed.

Lemma skip_nonempty_sets_view fuel : forall n st st',
  skip_nonempty_sets fuel n st = Done st' -> phase_view st' = phase_view st.
Proof.
  induction fuel as [|fuel IH]; simpl; intros n st st' H.
  - discriminate.
  - run_inv; try (apply IH in H; rewrite H; clear H IH); reflexivity.
Qed.

Lemma no_input_tuples_view hgs loc st r :
  no_input_tuples hgs loc st = Done r -> phase_view (snd r) = phase_view st.
Proof.
  unfold no_input_tuples. intros H.
  run_inv; simpl;
    try match goal with
        | E : skip_nonempty_sets _ _ _ = Done _ |- _ =>
            apply skip_nonempty_sets_view in E; rewrite E
        end; reflexivity.
Qed.

Lemma agg_project_group_view loc vas r :
  agg_project_group loc vas = Done r ->
  phase_view (aggstate (snd r)) = phase_view (aggstate vas).
Proof.
  unfold agg_project_group. intros H. run_inv. frames. congruence.
Qed.

Ltac frames2 :=
  repeat match goal with
         | E : agg_group_loop _ _ _ _ _ _ = Done _ |- _ =>
             apply agg_group_loop_view in E
         | E : no_input_tuples _ _ _ = Done _ |- _ =>
             apply no_input_tuples_view in E
         | E : agg_project_group _ _ = Done _ |- _ =>
             apply agg_project_group_view in E
         | E : agg_retrieve_hash_table _ _ _ = Done _ |- _ =>
             apply agg_retrieve_hash_table_view in E
         | E : agg_fill_hash_table _ _ _ = Done _ |- _ =>
             apply agg_fill_hash_table_view in E
         end;
  frames.

Lemma agg_start_group_view fuel hgs numReset loc vas r :
  agg_start_group BATCHSIZE fuel hgs numReset loc vas = Done r ->
  phase_view (aggstate (snd r)) = phase_view (aggstate vas).
Proof.
  unfold agg_start_group. intros H. run_inv; frames2; congruence.
Qed.

Lemma agg_next_group_view fuel hgs numReset loc vas r :
  agg_next_group BATCHSIZE fuel hgs numReset loc vas = Done r ->
  phase_view (aggstate (snd r)) = phase_view (aggstate vas).
Proof.
  unfold agg_next_group. intros H. run_inv;
    try match goal with
        | E : agg_start_group _ _ _ _ _ _ = Done _ |- _ =>
            apply agg_start_group_view in E
        end; frames2; congruence.
Qed.

Ltac frames3 :=
  repeat match goal with
         | E : agg_next_group _ _ _ _ _ _ = Done _ |- _ =>
             apply agg_next_group_view in E
         | E : agg_start_group _ _ _ _ _ _ = Done _ |- _ =>
             apply agg_start_group_view in E
         end;
  frames2;
  repeat match goal with
         | E : (_, _) = (_, _) |- _ => injection E as ?
         end.

Ltac phase_goal :=
  first
    [ left; congruence
    | right;
      match goal with
      | |- phase_move ?p ?q =>
          first [ replace q with (p + 1)%Z by congruence; constructor
                | replace q with 0%Z by congruence; constructor
                | replace q with 1%Z by congruence; constructor ]
      end ].

(** One pass through the body of the loop of [agg_retrieve_direct] leaves
    the phase list alone, and the current phase where it is unless it
    moves to the next phase or, in mixed mode, back to phase 0. *)
Lemma agg_retrieve_direct_body_phase fuel hgs loc vas r :
  agg_retrieve_direct_body BATCHSIZE fuel hgs loc vas = Done r ->
  phases (aggstate (snd r)) = phases (aggstate vas)
  /\ numphases (aggstate (snd r)) = numphases (aggstate vas)
  /\ (current_phase (aggstate (snd r)) = current_phase (aggstate vas)
      \/ phase_move (current_phase (aggstate vas))
           (current_phase (aggstate (snd r)))).
Proof.
  unfold agg_retrieve_direct_body. intros H.
  run_inv; frames3; (split; [congruence|]); (split; [congruence|]);
    phase_goal.
Qed.

Lemma phase_path_trans p q r :
  phase_path p q -> phase_path q r -> phase_path p r.
Proof.
  intros Hpq Hqr. induction Hqr as [|q' r' _ IH Hm]; [exact Hpq|].
  eapply path_move; eassumption.
Qed.

Lemma agg_retrieve_direct_loop_phase fuel : forall hgs loc vas r,
  agg_retrieve_direct_loop BATCHSIZE fuel hgs loc vas = Done r ->
  phases (aggstate (snd r)) = phases (aggstate vas)
  /\ numphases (aggstate (snd r)) = numphases (aggstate vas)
  /\ phase_path (current_phase (aggstate vas))
       (current_phase (aggstate (snd r))).
Proof.
  induction fuel as [|fuel IH]; simpl; intros hgs loc vas r H.
  - discriminate.
  - destruct (agg_done (aggstate vas)).
    { run_inv. simpl. split; [reflexivity|]. split; [reflexivity|]. constructor. }
    apply outcome_bind_inv in H. destruct H as ([[c loc1] vas1] & Hbody & H).
    apply agg_retrieve_direct_body_phase in Hbody. simpl in Hbody.
    destruct Hbody as (Hp & Hn & Hc).
    assert (Hpath : phase_path (current_phase (aggstate vas))
                      (current_phase (aggstate vas1))).
    { destruct Hc as [-> | Hm]; [constructor|].
      eapply path_move; [constructor | exact Hm]. }
    destruct c as [| |x].
    + apply IH in H. destruct H as (Hp' & Hn' & Hc').
      split; [congruence|]. split; [congruence|].
      eapply phase_path_trans; eassumption.
    + run_inv. simpl. auto.
    + run_inv. simpl. auto.
Qed.

(** One call of the node. *)
Lemma VExecAgg_phase fuel vas r :
  VExecAgg BATCHSIZE indeterminate_slot fuel vas = Done r ->
  phases (aggstate (snd r)) = phases (aggstate vas)
  /\ numphases (aggstate (snd r)) = numphases (aggstate vas)
  /\ phase_path (current_phase (aggstate vas))
       (current_phase (aggstate (snd r))).
Proof.
  unfold VExecAgg, agg_retrieve_direct. intros H.
  destruct (negb (agg_done (aggstate vas)));
    [|run_inv; simpl; split; [reflexivity|]; split; [reflexivity|]; constructor].
  apply outcome_bind_inv in H. destruct H as (ph & Hph & H).
  apply outcome_bind_inv in H. destruct H as ([x vas1] & Hrun & H).
  assert (Hgoal :
    phases (aggstate vas1) = phases (aggstate vas)
    /\ numphases (aggstate vas1) = numphases (aggstate vas)
    /\ phase_path (current_phase (aggstate vas)) (current_phase (aggstate vas1))).
  { destruct (ph_aggstrategy ph).
    - rewrite Hph in Hrun. simpl in Hrun.
      apply agg_retrieve_direct_loop_phase in Hrun. exact Hrun.
    - rewrite Hph in Hrun. simpl in Hrun.
      apply agg_retrieve_direct_loop_phase in Hrun. exact Hrun.
    - run_inv; frames3; (split; [congruence|]); (split; [congruence|]);
        match goal with
        | |- phase_path ?p ?q => replace q with p by congruence; constructor
        end.
    - frames3. split; [congruence|]. split; [congruence|].
      match goal with
      | |- phase_path ?p ?q => replace q with p by congruence; constructor
      end. }
  clear Hrun. simpl in H. run_inv; exact Hgoal.
Qed.

(** A rescan: the phase list stays, the current phase stays or goes back
    to 1. *)
Lemma ExecReScanAgg_phase params_overlap node node' :
  ExecReScanAgg params_overlap node = Done node' ->
  phases node' = phases node
  /\ numphases node' = numphases node
  /\ (current_phase node' = current_phase node
      \/ phase_move (current_phase node) (current_phase node')).
Proof.
  unfold ExecReScanAgg, build_hash_table. intros H.
  run_inv; frames3; (split; [congruence|]); (split; [congruence|]);
    phase_goal.
Qed.

(** The initial phase. *)
Lemma VExecInitAgg_initial_phase_spec node built st :
  VExecInitAgg_initial_phase node built = Done st ->
  phases st = phases built
  /\ numphases st = numphases built
  /\ current_phase st
     = match node_aggstrategy node with AGG_HASHED => 0 | _ => 1 end%Z.
Proof.
  unfold VExecInitAgg_initial_phase. intros H.
  destruct (node_aggstrategy node); simpl in H; run_inv; frames3;
    (split; [congruence|]); (split; congruence).
Qed.

End DriverFrames.

(** ** The rows of the result batch *)


(** [tts_vector_clear] leaves a slot that is empty with every row skipped,
    if empty slots have every row skipped. *)
Lemma tts_vector_clear_spec v v' :
  empty_is_all_skipped v ->
  tts_vector_clear v = Done v' ->
  tts_empty (tts v') = true
  /\ skip v' = replicate (length (skip v)) true
  /\ length (columns v') = length (columns v).
Proof.
  unfold tts_vector_clear, empty_is_all_skipped. intros Hinv H.
  destruct (tts_empty (tts v)) eqn:He.
  - run_inv. auto.
  - run_inv. simpl. split; [reflexivity|]. split.
    + clear. induction (skip v) as [|b l IH]; simpl; [reflexivity|].
      f_equal. exact IH.
    + apply length_map.
Qed.


Lemma project_aggregates_natts st r :
  project_aggregates st = Done r -> result_natts (snd r) = result_natts st.
Proof. unfold project_aggregates. intros H. run_inv; reflexivity. Qed.

Section DirectRows.

Variable BATCHSIZE : nat.
Variable indeterminate_slot : option Slot.


Lemma agg_retrieve_hash_table_none fuel vas r :
  agg_retrieve_hash_table BATCHSIZE fuel vas = Done r -> fst r = None.
Proof. unfold agg_retrieve_hash_table. intros H. run_inv. reflexivity. Qed.

(** The loop of the hash retrieval writes the columns of the result batch
    and nothing else of it. *)
Lemma agg_retrieve_hash_loop_slot fuel : forall row vas vas',
  agg_retrieve_hash_loop BATCHSIZE fuel row vas = Done vas' ->
  tts (resultSlot vas') = tts (resultSlot vas)
  /\ skip (resultSlot vas') = skip (resultSlot vas).
Proof.
  induction fuel as [|fuel IH]; simpl; intros row vas vas' H.
  - discriminate.
  - run_inv; try (apply IH in H; exact H); auto.
Qed.

(** After the hash retrieval the result batch is empty, every row of it
    skipped. *)
Lemma agg_retrieve_hash_table_slot fuel vas r :
  empty_is_all_skipped (resultSlot vas) ->
  agg_retrieve_hash_table BATCHSIZE fuel vas = Done r ->
  tts_empty (tts (resultSlot (snd r))) = true
  /\ skip (resultSlot (snd r)) = replicate (length (skip (resultSlot vas))) true.
Proof.
  unfold agg_retrieve_hash_table. intros Hinv H. run_inv. simpl.
  match goal with
  | E : tts_vector_clear _ = Done _ |- _ =>
      destruct (tts_vector_clear_spec _ _ Hinv E) as (He & Hskip & _)
  end.
  match goal with
  | E : agg_retrieve_hash_loop _ _ _ _ = Done _ |- _ =>
      apply agg_retrieve_hash_loop_slot in E; destruct E as (Et & Es)
  end.
  simpl in *. rewrite Et, Es. auto.
Qed.










End DirectRows.

(** ** The driver: retrieval and phases *)

Lemma tts_vector_init_all_skipped buildvtype atttypids v :
  empty_is_all_skipped (tts_vector_init buildvtype atttypids v).
Proof.
  unfold empty_is_all_skipped, tts_vector_init; simpl. intros _.
  rewrite length_map. induction (skip v) as [|b l IH]; simpl; [reflexivity|].
  f_equal. exact IH.
Qed.

(** C4 (the code does not do this). A call of the node in a hashed phase
    returns NULL, whatever the hash tables hold: the rows of the groups are
    written into the columns of the result batch, but the batch is left
    marked empty with every row skipped, and it is not handed to the
    caller. *)
Theorem hash_retrieval_returns_no_batch (BATCHSIZE : nat)
    (indeterminate_slot : option Slot) (fuel : nat) (vas : VectorAggState)
    (ph : AggStatePerPhaseData)
    (r : option VectorTupleSlot * VectorAggState) :
  agg_done (aggstate vas) = false ->
  cur_phase (aggstate vas) = Done ph ->
  ph_aggstrategy ph = AGG_HASHED \/ ph_aggstrategy ph = AGG_MIXED ->
  empty_is_all_skipped (resultSlot vas) ->
  VExecAgg BATCHSIZE indeterminate_slot fuel vas = Done r ->
  fst r = None
  /\ tts_empty (tts (resultSlot (snd r))) = true
  /\ skip (resultSlot (snd r)) = replicate (length (skip (resultSlot vas))) true.
Proof.
  intros Hdone Hph Hs Hinv H. unfold VExecAgg in H.
  rewrite Hdone, Hph in H. simpl in H.
  apply outcome_bind_inv in H. destruct H as ([x vas1] & Hrun & H).
  assert (Hhash : exists st,
             agg_retrieve_hash_table BATCHSIZE fuel (set_aggstate vas st)
             = Done (x, vas1)).
  { destruct Hs as [Hs | Hs]; rewrite Hs in Hrun.
    - apply outcome_bind_inv in Hrun. destruct Hrun as (st & _ & Hrun).
      exists st. exact Hrun.
    - exists (aggstate vas). destruct vas; exact Hrun. }
  clear Hrun. destruct Hhash as (st & Hrun).
  pose proof (agg_retrieve_hash_table_none _ _ _ _ Hrun) as Hnone.
  apply agg_retrieve_hash_table_slot in Hrun; [|exact Hinv].
  simpl in *. subst x. simpl in H. injection H as <-. simpl. auto.
Qed.

Lemma C4_witness :
  agg_done (aggstate (hashed_sum group_of_fives)) = false
  /\ cur_phase (aggstate (hashed_sum group_of_fives))
     = Done (mkPhase AGG_HASHED 1 (Some [1%nat]) (Some [[1%nat]]) None
               (Some hashed_node) None (Some sum_column_hashed))
  /\ VExecAgg 4 None 20 (hashed_sum group_of_fives) = Done hashed_first_call
  /\ fst hashed_first_call = None
  /\ tts_empty (tts (resultSlot (snd hashed_first_call))) = true
  /\ skip (resultSlot (snd hashed_first_call))
     = replicate (length (skip (resultSlot (hashed_sum group_of_fives)))) true.
Proof.
  split; [reflexivity|]. split; [reflexivity|].
  split; [vm_compute; reflexivity|].
  apply (hash_retrieval_returns_no_batch 4 None 20 (hashed_sum group_of_fives)
           (mkPhase AGG_HASHED 1 (Some [1%nat]) (Some [[1%nat]]) None
              (Some hashed_node) None (Some sum_column_hashed))
           hashed_first_call).
  - reflexivity.
  - reflexivity.
  - left. reflexivity.
  - apply tts_vector_init_all_skipped.
  - vm_compute. reflexivity.
Defined.

(** The only group of the input, key 5 with sum 20, is finalized, projected
    and written to row 0 of the result columns; the call answers NULL and
    marks the aggregation as done, so the next call answers NULL too: the
    caller never sees the group. *)
Example hashed_group_is_lost :
  VExecAgg 4 None 20 (hashed_sum group_of_fives)
  = Done (None, after_call 20 (hashed_sum group_of_fives))
  /\ map (fun c => v_values c !! 0%nat)
       (columns (resultSlot (after_call 20 (hashed_sum group_of_fives))))
     = [Some 5%Z; Some 20%Z]
  /\ agg_done (aggstate (after_call 20 (hashed_sum group_of_fives))) = true
  /\ VExecAgg 4 None 20 (after_call 20 (hashed_sum group_of_fives))
     = Done (None, after_call 20 (hashed_sum group_of_fives)).
Proof.
  split; [vm_compute; reflexivity|].
  split; [vm_compute; reflexivity|].
  split; vm_compute; reflexivity.
Qed.



(** The sum of the seven rows that are not skipped, 90, is row 0 of the only
    column; the three other rows of the batch of four stay skipped. *)
Example plain_sum_one_row :
  exists v vas',
    VExecAgg 4 None 20 (plain_sum two_batches) = Done (Some v, vas')
    /\ skip v = [false; true; true; true]
    /\ map (fun c => v_values c !! 0%nat) (columns v) = [Some 90%Z].
Proof.
  eexists. eexists. split; [vm_compute; reflexivity|].
  split; reflexivity.
Qed.

(** C8. The phase list is fixed when the node is set up, and the current
    phase only moves to the next phase or back to phase 0 or 1:
    - the set-up starts in phase 0 for a hashed node and in phase 1 for a
      plain, sorted or mixed one, with the phase list as built;
    - [initialize_phase], the only place that assigns the current phase,
      leaves the phase list alone;
    - one pass through the loop of the non-hashed retrieval leaves the phase
      list alone and the current phase where it is, or moves it;
    - so does a whole call of the node, in any number of moves;
    - and so does a rescan. *)
Theorem phase_list_is_fixed (BATCHSIZE : nat) (indeterminate_slot : option Slot) :
  (forall node built st,
      VExecInitAgg_initial_phase node built = Done st ->
      phases st = phases built
      /\ current_phase st
         = match node_aggstrategy node with AGG_HASHED => 0 | _ => 1 end%Z)
  /\ (forall st newphase st',
         initialize_phase st newphase = Done st' ->
         phases st' = phases st /\ current_phase st' = newphase)
  /\ (forall fuel hasGroupingSets loc vas r,
         agg_retrieve_direct_body BATCHSIZE fuel hasGroupingSets loc vas = Done r ->
         phases (aggstate (snd r)) = phases (aggstate vas)
         /\ (current_phase (aggstate (snd r)) = current_phase (aggstate vas)
             \/ phase_move (current_phase (aggstate vas))
                  (current_phase (aggstate (snd r)))))
  /\ (forall fuel vas r,
         VExecAgg BATCHSIZE indeterminate_slot fuel vas = Done r ->
         phases (aggstate (snd r)) = phases (aggstate vas)
         /\ phase_path (current_phase (aggstate vas))
              (current_phase (aggstate (snd r))))
  /\ (forall params_overlap node node',
         ExecReScanAgg params_overlap node = Done node' ->
         phases node' = phases node
         /\ (current_phase node' = current_phase node
             \/ phase_move (current_phase node) (current_phase node'))).
Proof.
  split.
  { intros node built st H.
    apply VExecInitAgg_initial_phase_spec in H. destruct H as (Hp & _ & Hc).
    auto. }
  split.
  { intros st newphase st' H. apply initialize_phase_view in H.
    unfold phase_view in H. injection H as Hp _ Hc _. auto. }
  split.
  { intros fuel hgs loc vas r H.
    apply agg_retrieve_direct_body_phase in H. destruct H as (Hp & _ & Hc).
    auto. }
  split.
  { intros fuel vas r H.
    apply VExecAgg_phase in H. destruct H as (Hp & _ & Hc). auto. }
  intros po node node' H.
  apply ExecReScanAgg_phase in H. destruct H as (Hp & _ & Hc). auto.
Qed.

(** The second call of the sorted node with two sort passes moves from
    phase 1 to phase 2. *)
Lemma C8_witness :
  VExecAgg 4 None 20 sorted_after_one = Done sorted_second_call
  /\ current_phase (aggstate sorted_after_one) = 1%Z
  /\ current_phase (aggstate (snd sorted_second_call)) = 2%Z
  /\ phases (aggstate (snd sorted_second_call))
     = phases (aggstate sorted_after_one)
  /\ phase_path (current_phase (aggstate sorted_after_one))
       (current_phase (aggstate (snd sorted_second_call))).
Proof.
  split; [vm_compute; reflexivity|].
  split; [vm_compute; reflexivity|].
  split; [vm_compute; reflexivity|].
  apply (proj1 (proj2 (proj2 (proj2 (phase_list_is_fixed 4 None)))) 20
           sorted_after_one sorted_second_call).
  vm_compute. reflexivity.
Defined.

(** * Further properties of the code *)

(** ** Final functions *)

(** X1. A strict final function is not called when the transition value, a
    direct argument or a missing trailing argument is NULL: the result of
    [finalize_aggregate] is NULL and no call is made. *)
Theorem strict_finalfn_skipped_on_null
    (econtext : ExprContext) (peragg : AggStatePerAggData)
    (pertrans : AggStatePerTransData) (pg : AggStatePerGroupData)
    (tr : Trace) (directs : list NullableDatum) :
  eval_direct_args (aggdirectargs peragg) econtext = Done directs ->
  OidIsValid (finalfn_oid peragg) = true ->
  fn_strict (finalfn peragg) = true ->
  transValueIsNull pg = true \/ existsb isnull directs = true
  \/ (S (length directs) < numFinalArgs peragg)%nat ->
  finalize_aggregate econtext peragg pertrans pg tr
  = Done ((mkND 0 true, pg), tr).
Proof.
  intros Hd Hoid Hs Hnull. unfold finalize_aggregate.
  rewrite Hd, Hoid, Hs. cbn [andb].
  assert (Hany : (existsb isnull directs || transValueIsNull pg
                  || (S (length directs) <? numFinalArgs peragg)%nat) = true).
  { destruct Hnull as [-> | [-> | Hlt]].
    - rewrite orb_true_r. reflexivity.
    - reflexivity.
    - apply Nat.ltb_lt in Hlt. rewrite Hlt. apply orb_true_r. }
  rewrite Hany. rewrite bind_ret. unfold ret. simpl.
  rewrite andb_false_r. reflexivity.
Qed.

Lemma X1_witness :
  eval_direct_args (aggdirectargs peragg_double) empty_econtext = Done []
  /\ OidIsValid (finalfn_oid peragg_double) = true
  /\ fn_strict (finalfn peragg_double) = true
  /\ finalize_aggregate empty_econtext peragg_double pertrans_max
       (mkPerGroup 0 true true) []
     = Done ((mkND 0 true, mkPerGroup 0 true true), []).
Proof.
  split; [reflexivity|]. split; [reflexivity|]. split; [reflexivity|].
  apply (strict_finalfn_skipped_on_null empty_econtext peragg_double
           pertrans_max (mkPerGroup 0 true true) [] []);
    [reflexivity | reflexivity | reflexivity | left; reflexivity].
Defined.




(** ** Ordered aggregates with several inputs *)

Lemma advance_only_changes_fcinfo p pg tr p' pg' tr' :
  advance_transition_function p pg tr = Done ((p', pg'), tr') ->
  exists fc, p' = set_transfn_fcinfo p fc
             /\ length (args fc) = length (args (transfn_fcinfo p)).
Proof.
  unfold advance_transition_function, bind, ret, raise, FunctionCallInvoke, modify.
  intros H.
  assert (Hid : p = set_transfn_fcinfo p (transfn_fcinfo p)) by (destruct p; reflexivity).
  repeat match type of H with
         | context [match ?x with _ => _ end] => destruct x eqn:?; simpl in H
         | Done _ = Done _ => injection H as <- <- <-
         | Fail _ = Done _ => discriminate H
         end; try discriminate;
    first [ exists (transfn_fcinfo p); split; [exact Hid | reflexivity]
          | eexists; split; [reflexivity | simpl; rewrite ?length_insert; reflexivity] ].
Qed.

Lemma load_trans_args_spec row : forall n i fc fc',
  load_trans_args fc row i n = Done fc' ->
  length (args fc') = length (args fc)
  /\ (forall j, (i <= j < i + n)%nat -> args fc' !! S j = row !! j)
  /\ (forall j, (j <= i)%nat -> args fc' !! j = args fc !! j).
Proof.
  induction n as [|n IH]; simpl; intros i fc fc' H.
  - injection H as <-. split; [reflexivity|]. split; [intros j Hj; lia|auto].
  - destruct (row !! i) as [d|] eqn:Hd; [|discriminate].
    destruct (args fc !! S i) as [x|] eqn:Hx; [|discriminate].
    apply IH in H. destruct H as (Hlen & Hin & Hout).
    unfold set_arg in *. simpl in *. rewrite length_insert in Hlen.
    split; [exact Hlen|]. split.
    + intros j Hj. destruct (decide (j = i)) as [->|Hne].
      * rewrite Hout by lia. rewrite Hd.
        apply list_lookup_insert_eq. eapply lookup_lt_Some. exact Hx.
      * apply Hin. lia.
    + intros j Hj. rewrite Hout by lia.
      apply list_lookup_insert_ne. lia.
Qed.

Lemma multi_loop_calls rows :
  forall prev have oa p pg tr p' pg' tr' prevr,
    fn_strict (transfn p) = false ->
    match prevr with
    | None => have = false
    | Some r0 => have = true /\ prev = sr_row r0 /\ oa = sr_abbrev r0
    end ->
    process_ordered_multi_loop rows prev have oa p pg tr = Done ((p', pg'), tr') ->
    (exists fc, p' = set_transfn_fcinfo p fc)
    /\ exists calls,
         tr' = tr ++ map EvTransfn calls
         /\ Forall2 (fun c r => forall i, (i < numTransInputs p)%nat ->
                                  c !! S i = sr_row r !! i)
              calls
              (collapse_rows (equalfnMulti p) (0 <? numDistinctCols p)%nat
                 prevr rows).
Proof.
  induction rows as [|r rows IH];
    intros prev have oa p pg tr p' pg' tr' prevr Hns Hprev H.
  - injection H as <- <- <-. split.
    + exists (transfn_fcinfo p). destruct p; reflexivity.
    + exists []. rewrite app_nil_r. split; [reflexivity|constructor].
  - cbn [process_ordered_multi_loop] in H.
    set (distinct := (0 <? numDistinctCols p)%nat) in *.
    (* whether the row is passed on *)
    assert (Hkeep :
      forall b t1,
        (if (numDistinctCols p =? 0)%nat then ret true
         else if negb have then ret true
         else if negb (sr_abbrev r =? oa)%Z then ret true
         else match equalfnMulti p (sr_row r) prev with
              | Some b0 => ret (negb b0)
              | None => raise ERROR
              end) tr = Done (b, t1) ->
        t1 = tr
        /\ b = match prevr with
               | Some p0 =>
                   negb distinct || negb (sr_abbrev r =? sr_abbrev p0)%Z
                   || match equalfnMulti p (sr_row r) (sr_row p0) with
                      | Some b0 => negb b0
                      | None => true
                      end
               | None => true
               end).
    { intros b t1 Hb. subst distinct.
      destruct (numDistinctCols p) as [|k]; simpl in Hb |- *.
      - injection Hb as <- <-. destruct prevr; auto.
      - destruct prevr as [p0|].
        + destruct Hprev as (-> & -> & ->). simpl in Hb.
          destruct (sr_abbrev r =? sr_abbrev p0)%Z; simpl in Hb |- *.
          * destruct (equalfnMulti p (sr_row r) (sr_row p0)); [|discriminate].
            injection Hb as <- <-. auto.
          * injection Hb as <- <-. auto.
        + subst have. simpl in Hb. injection Hb as <- <-. auto. }
    unfold bind at 1 in H.
    match type of H with
    | match ?c tr with _ => _ end = _ =>
        destruct (c tr) as [[b t1]|f] eqn:Hc; [|discriminate]
    end.
    destruct (Hkeep b t1 eq_refl) as (-> & Hb). clear Hkeep Hc.
    cbn [collapse_rows]. fold distinct. rewrite <- Hb.
    destruct b.
    + destruct (load_trans_args (transfn_fcinfo p) (sr_row r) 0 (numTransInputs p))
        as [fc|f] eqn:Hload; [|discriminate].
      unfold bind in H.
      destruct (advance_transition_function (set_transfn_fcinfo p fc) pg tr)
        as [[[p1 pg1] t2]|f] eqn:Hadv; [|discriminate].
      assert (Hns1 : fn_strict (transfn (set_transfn_fcinfo p fc)) = false)
        by exact Hns.
      pose proof (nonstrict_advance_calls _ _ _ _ _ _ Hns1 Hadv) as ->.
      destruct (advance_only_changes_fcinfo _ _ _ _ _ _ Hadv) as (fc1 & -> & _).
      destruct (load_trans_args_spec _ _ _ _ _ Hload) as (Hlen & Hin & _).
      assert (Hcall : forall i, (i < numTransInputs p)%nat ->
                call_args (set_transfn_fcinfo p fc) pg !! S i = sr_row r !! i).
      { intros i Hi. unfold call_args. simpl.
        rewrite list_lookup_insert_ne by discriminate. apply Hin. lia. }
      assert (Hstep : forall prev1 have1 oa1 prevr1,
        match prevr1 with
        | None => have1 = false
        | Some r0 => have1 = true /\ prev1 = sr_row r0 /\ oa1 = sr_abbrev r0
        end ->
        process_ordered_multi_loop rows prev1 have1 oa1
          (set_transfn_fcinfo (set_transfn_fcinfo p fc) fc1) pg1
          (tr ++ [EvTransfn (call_args (set_transfn_fcinfo p fc) pg)])
        = Done (p', pg', tr') ->
        (exists fc0, p' = set_transfn_fcinfo p fc0)
        /\ exists calls,
             tr' = tr ++ map EvTransfn calls
             /\ Forall2 (fun c r0 => forall i, (i < numTransInputs p)%nat ->
                                       c !! S i = sr_row r0 !! i)
                  calls (r :: collapse_rows (equalfnMulti p) distinct prevr1 rows)).
      { intros prev1 have1 oa1 prevr1 Hp1 Hrun.
        apply (IH _ _ _ _ _ _ _ _ _ prevr1) in Hrun; [|exact Hns|exact Hp1].
        destruct Hrun as ((fc0 & ->) & calls & -> & Hall). split.
        - exists fc0. reflexivity.
        - exists (call_args (set_transfn_fcinfo p fc) pg :: calls). split.
          + rewrite <- app_assoc. reflexivity.
          + constructor; [exact Hcall | exact Hall]. }
      subst distinct. simpl in H.
      destruct (0 <? numDistinctCols p)%nat.
      * apply Hstep with (prev1 := sr_row r) (have1 := true)
                         (oa1 := sr_abbrev r) (prevr1 := Some r);
          [auto | exact H].
      * apply Hstep with (prev1 := prev) (have1 := have) (oa1 := oa)
                         (prevr1 := prevr);
          [exact Hprev | exact H].
    + apply (IH _ _ _ _ _ _ _ _ _ prevr) in H; [exact H | exact Hns | exact Hprev].
Qed.

(** X3. An ordered aggregate with several inputs and a transition function
    that is not strict: [process_ordered_aggregate_multi] sorts the rows of
    the current grouping set and calls the transition function once for every
    sorted row, in order, with the first [numTransInputs] columns in argument
    positions 1 and up; with DISTINCT a row that has the abbreviated key of
    the row passed on last and is equal to it by the equality expression is
    left out.  Nothing else is called, and the sort of this grouping set, and
    of no other, is ended. *)
Theorem ordered_multi_passes_sorted_rows
    (current_set : nat) (pt : AggStatePerTransData) (pg : AggStatePerGroupData)
    (ts : Tuplesortstate) (tr : Trace)
    (pt' : AggStatePerTransData) (pg' : AggStatePerGroupData) (tr' : Trace) :
  fn_strict (transfn pt) = false ->
  sortstates pt !! current_set = Some (Some ts) ->
  process_ordered_aggregate_multi current_set pt pg tr = Done ((pt', pg'), tr') ->
  sortstates pt' = <[current_set := None]> (sortstates pt)
  /\ exists calls,
       tr' = tr ++ map EvTransfn calls
       /\ Forall2 (fun c r => forall i, (i < numTransInputs pt)%nat ->
                                c !! S i = sr_row r !! i)
            calls
            (collapse_rows (equalfnMulti pt) (0 <? numDistinctCols pt)%nat None
               (ts_arrange ts (ts_put ts))).
Proof.
  intros Hns Hsort H. unfold process_ordered_aggregate_multi in H.
  rewrite Hsort in H. unfold bind in H.
  match type of H with
  | match ?c with _ => _ end = _ =>
      destruct c as [[[p1 g1] t1]|f1] eqn:Hloop; [|discriminate]
  end.
  unfold ret in H. injection H as <- <- <-.
  apply (multi_loop_calls _ _ _ _ _ _ _ _ _ _ None) in Hloop;
    [|exact Hns|reflexivity].
  destruct Hloop as ((fc & ->) & calls & -> & Hall).
  split; [reflexivity|]. exists calls. auto.
Qed.

Lemma X3_witness :
  fn_strict (transfn (pertrans_pairs 2 [(1, 10); (1, 10); (2, 20)]%Z)) = false
  /\ process_ordered_aggregate_multi 0
       (pertrans_pairs 2 [(1, 10); (1, 10); (2, 20)]%Z)
       (mkPerGroup 0 false false) []
     = Done ((set_transfn_fcinfo
                (set_sortstates (pertrans_pairs 2 [(1, 10); (1, 10); (2, 20)]%Z)
                   [None])
                (mkFcinfo false [mkND 10 false; mkND 2 false; mkND 20 false]),
              mkPerGroup 50 false false),
             [EvTransfn [mkND 0 false; mkND 1 false; mkND 10 false];
              EvTransfn [mkND 10 false; mkND 2 false; mkND 20 false]])
  /\ sortstates
       (set_transfn_fcinfo
          (set_sortstates (pertrans_pairs 2 [(1, 10); (1, 10); (2, 20)]%Z) [None])
          (mkFcinfo false [mkND 10 false; mkND 2 false; mkND 20 false]))
     = <[0%nat := None]>
         (sortstates (pertrans_pairs 2 [(1, 10); (1, 10); (2, 20)]%Z)).
Proof.
  split; [reflexivity|]. split; [vm_compute; reflexivity|].
  apply (ordered_multi_passes_sorted_rows 0
           (pertrans_pairs 2 [(1, 10); (1, 10); (2, 20)]%Z)
           (mkPerGroup 0 false false)
           (mkSort [[mkND 1 false; mkND 10 false]; [mkND 1 false; mkND 10 false];
                    [mkND 2 false; mkND 20 false]] pair_rows [])
           []
           (set_transfn_fcinfo
              (set_sortstates (pertrans_pairs 2 [(1, 10); (1, 10); (2, 20)]%Z)
                 [None])
              (mkFcinfo false [mkND 10 false; mkND 2 false; mkND 20 false]))
           (mkPerGroup 50 false false)
           [EvTransfn [mkND 0 false; mkND 1 false; mkND 10 false];
            EvTransfn [mkND 10 false; mkND 2 false; mkND 20 false]]).
  - reflexivity.
  - reflexivity.
  - vm_compute. reflexivity.
Defined.

(** ** Sharing of aggregates and transition states *)

Lemma inputs_test (newagg existingRef : Aggref) :
  negb (inputcollid newagg =? inputcollid existingRef)%Z
  || negb (ref_aggtranstype newagg =? ref_aggtranstype existingRef)%Z
  || negb (eqb (aggstar newagg) (aggstar existingRef))
  || negb (eqb (aggvariadic newagg) (aggvariadic existingRef))
  || negb (aggkind newagg =? aggkind existingRef)%Z
  || negb (equal_list (ref_args newagg) (ref_args existingRef))
  || negb (equal_list (aggorder newagg) (aggorder existingRef))
  || negb (equal_list (aggdistinct newagg) (aggdistinct existingRef))
  || negb (equal_opt (aggfilter newagg) (aggfilter existingRef))
  = negb (same_inputs newagg existingRef).
Proof. unfold same_inputs. rewrite !negb_andb. reflexivity. Qed.

(** The loop of [find_compatible_peragg], started at [a] with the transition
    states [acc] collected from the aggregates before [a]. *)
Lemma find_compatible_peragg_loop_spec newagg peraggs : forall n a acc res ts,
  find_compatible_peragg_loop newagg peraggs a n acc = Done (res, ts) ->
  (res = (-1)%Z
   /\ ts = acc ++ offered_transnos newagg (take n (drop a peraggs))
   /\ forall i pa, (a <= i < a + n)%nat -> peraggs !! i = Some pa ->
        same_inputs newagg (aggref pa) && same_function newagg (aggref pa) = false)
  \/ (exists i pa,
        res = Z.of_nat i /\ (a <= i < a + n)%nat /\ peraggs !! i = Some pa
        /\ same_inputs newagg (aggref pa) = true
        /\ same_function newagg (aggref pa) = true
        /\ ts = []
        /\ forall j pb, (a <= j < i)%nat -> peraggs !! j = Some pb ->
             same_inputs newagg (aggref pb) && same_function newagg (aggref pb)
             = false).
Proof.
  induction n as [|n IH]; intros a acc res ts H; simpl in H.
  - injection H as <- <-. left. split; [reflexivity|]. split.
    + simpl. unfold offered_transnos. simpl. rewrite app_nil_r. reflexivity.
    + intros i pa Hi. lia.
  - destruct (peraggs !! a) as [pa|] eqn:Hpa; [|discriminate].
    rewrite inputs_test in H. fold (same_function newagg (aggref pa)) in H.
    assert (Hdrop : take (S n) (drop a peraggs) = pa :: take n (drop (S a) peraggs)).
    { rewrite (drop_S _ _ _ Hpa). reflexivity. }
    destruct (same_inputs newagg (aggref pa)) eqn:Hin; simpl in H.
    + destruct (same_function newagg (aggref pa)) eqn:Hfn.
      * injection H as <- <-. right. exists a, pa.
        split; [reflexivity|]. split; [lia|]. split; [exact Hpa|].
        split; [exact Hin|]. split; [exact Hfn|]. split; [reflexivity|].
        intros j pb Hj. lia.
      * apply IH in H. destruct H as [(-> & -> & Hnone) | (i & pb & -> & Hi & Hpb & Hi1 & Hi2 & -> & Hbefore)].
        -- left. split; [reflexivity|]. split.
           ++ rewrite Hdrop. unfold offered_transnos. simpl. rewrite Hin. simpl.
              destruct (shareable pa); simpl; [rewrite <- app_assoc|]; reflexivity.
           ++ intros i pb Hi Hpb. destruct (decide (i = a)) as [->|Hne].
              ** rewrite Hpa in Hpb. injection Hpb as <-. rewrite Hin, Hfn. reflexivity.
              ** apply (Hnone i pb); [lia | exact Hpb].
        -- right. exists i, pb. split; [reflexivity|]. split; [lia|].
           split; [exact Hpb|]. split; [exact Hi1|]. split; [exact Hi2|].
           split; [reflexivity|].
           intros j pc Hj Hpc. destruct (decide (j = a)) as [->|Hne].
           ** rewrite Hpa in Hpc. injection Hpc as <-. rewrite Hin, Hfn. reflexivity.
           ** apply (Hbefore j pc); [lia | exact Hpc].
    + apply IH in H. destruct H as [(-> & -> & Hnone) | (i & pb & -> & Hi & Hpb & Hi1 & Hi2 & -> & Hbefore)].
      * left. split; [reflexivity|]. split.
        -- rewrite Hdrop. unfold offered_transnos. simpl. rewrite Hin. reflexivity.
        -- intros i pb Hi Hpb. destruct (decide (i = a)) as [->|Hne].
           ++ rewrite Hpa in Hpb. injection Hpb as <-. rewrite Hin. reflexivity.
           ++ apply (Hnone i pb); [lia | exact Hpb].
      * right. exists i, pb. split; [reflexivity|]. split; [lia|].
        split; [exact Hpb|]. split; [exact Hi1|]. split; [exact Hi2|].
        split; [reflexivity|].
        intros j pc Hj Hpc. destruct (decide (j = a)) as [->|Hne].
        -- rewrite Hpa in Hpc. injection Hpc as <-. rewrite Hin. reflexivity.
        -- apply (Hbefore j pc); [lia | exact Hpc].
Qed.



Lemma find_compatible_pertrans_loop_spec pertranss tf tt sf df iv ivn :
  forall transnos res,
    find_compatible_pertrans_loop pertranss tf tt sf df iv ivn transnos = Done res ->
    (res = (-1)%Z
     /\ forall t pt, In t transnos -> pertranss !! t = Some pt ->
          compatible_pertrans tf tt sf df iv ivn pt = false)
    \/ (exists before t after pt,
          res = Z.of_nat t /\ transnos = before ++ t :: after
          /\ pertranss !! t = Some pt
          /\ compatible_pertrans tf tt sf df iv ivn pt = true
          /\ forall u pu, In u before -> pertranss !! u = Some pu ->
               compatible_pertrans tf tt sf df iv ivn pu = false).
Proof.
  induction transnos as [|t rest IH]; intros res H; simpl in H.
  - injection H as <-. left. split; [reflexivity|]. intros t pt [].
  - destruct (pertranss !! t) as [pt|] eqn:Hpt; [|discriminate].
    assert (Hskip :
      compatible_pertrans tf tt sf df iv ivn pt = false ->
      find_compatible_pertrans_loop pertranss tf tt sf df iv ivn rest = Done res ->
      (res = (-1)%Z
       /\ forall u pu, In u (t :: rest) -> pertranss !! u = Some pu ->
            compatible_pertrans tf tt sf df iv ivn pu = false)
      \/ (exists before u after pu,
            res = Z.of_nat u /\ t :: rest = before ++ u :: after
            /\ pertranss !! u = Some pu
            /\ compatible_pertrans tf tt sf df iv ivn pu = true
            /\ forall v pv, In v before -> pertranss !! v = Some pv ->
                 compatible_pertrans tf tt sf df iv ivn pv = false)).
    { intros Hno Hrest. apply IH in Hrest.
      destruct Hrest as [(-> & Hnone) | (before & u & after & pu & -> & -> & Hpu & Hc & Hb)].
      - left. split; [reflexivity|]. intros u pu [<- | Hin] Hu.
        + rewrite Hpt in Hu. injection Hu as <-. exact Hno.
        + apply (Hnone u pu Hin Hu).
      - right. exists (t :: before), u, after, pu.
        split; [reflexivity|]. split; [reflexivity|]. split; [exact Hpu|].
        split; [exact Hc|]. intros v pv [<- | Hin] Hv.
        + rewrite Hpt in Hv. injection Hv as <-. exact Hno.
        + apply (Hb v pv Hin Hv). }
    assert (Hhit :
      compatible_pertrans tf tt sf df iv ivn pt = true ->
      res = Z.of_nat t ->
      exists before u after pu,
        res = Z.of_nat u /\ t :: rest = before ++ u :: after
        /\ pertranss !! u = Some pu
        /\ compatible_pertrans tf tt sf df iv ivn pu = true
        /\ forall v pv, In v before -> pertranss !! v = Some pv ->
             compatible_pertrans tf tt sf df iv ivn pv = false).
    { intros Hyes ->. exists [], t, rest, pt.
      split; [reflexivity|]. split; [reflexivity|]. split; [exact Hpt|].
      split; [exact Hyes|]. intros v pv []. }
    unfold compatible_pertrans, datumIsEqual in *.
    destruct (tf =? transfn_oid pt)%Z, (tt =? aggtranstype pt)%Z;
      simpl in H, Hskip, Hhit; try (apply Hskip; [reflexivity | exact H]).
    destruct (sf =? serialfn_oid pt)%Z, (df =? deserialfn_oid pt)%Z;
      simpl in H, Hskip, Hhit; try (apply Hskip; [reflexivity | exact H]).
    destruct ivn, (initValueIsNull pt); simpl in H, Hskip, Hhit;
      try (right; apply Hhit; [reflexivity | injection H as <-; reflexivity]);
      try (apply Hskip; [reflexivity | exact H]).
    destruct (iv =? initValue pt)%Z; simpl in H, Hskip, Hhit.
    + right. apply Hhit; [reflexivity | injection H as <-; reflexivity].
    + apply Hskip; [reflexivity | exact H].
Qed.

(** X5. [find_compatible_pertrans] answers with the first of the offered
    transition states that has the same transition function, state type,
    serialization and deserialization functions and the same initial value
    (both NULL, or both not NULL and equal), and with -1 when there is none;
    an aggregate that is not shareable gets -1 whatever is offered. *)
Theorem find_compatible_pertrans_first_compatible
    (pertranss : list AggStatePerTransData) (shareable' : bool)
    (aggtransfn aggtranstype' aggserialfn aggdeserialfn : Oid)
    (initValue' : Datum) (initValueIsNull' : bool) (transnos : list nat)
    (res : Z) :
  find_compatible_pertrans pertranss shareable' aggtransfn aggtranstype'
    aggserialfn aggdeserialfn initValue' initValueIsNull' transnos = Done res ->
  (res = (-1)%Z
   /\ (shareable' = true ->
       forall t pt, In t transnos -> pertranss !! t = Some pt ->
         compatible_pertrans aggtransfn aggtranstype' aggserialfn aggdeserialfn
           initValue' initValueIsNull' pt = false))
  \/ (shareable' = true
      /\ exists before t after pt,
           res = Z.of_nat t /\ transnos = before ++ t :: after
           /\ pertranss !! t = Some pt
           /\ compatible_pertrans aggtransfn aggtranstype' aggserialfn
                aggdeserialfn initValue' initValueIsNull' pt = true
           /\ forall u pu, In u before -> pertranss !! u = Some pu ->
                compatible_pertrans aggtransfn aggtranstype' aggserialfn
                  aggdeserialfn initValue' initValueIsNull' pu = false).
Proof.
  unfold find_compatible_pertrans. intros H.
  destruct shareable'; simpl in H.
  - apply find_compatible_pertrans_loop_spec in H.
    destruct H as [(-> & Hnone) | Hhit].
    + left. split; [reflexivity|]. intros _. exact Hnone.
    + right. split; [reflexivity|]. exact Hhit.
  - injection H as <-. left. split; [reflexivity|]. discriminate.
Qed.

Lemma X5_witness :
  find_compatible_pertrans (sh_pertrans sharing_after_avg) true 9002 23 0 0 0
    false [0%nat]
  = Done 0%Z
  /\ ((0 = -1)%Z
      /\ (true = true ->
          forall t pt, In t [0%nat] ->
            sh_pertrans sharing_after_avg !! t = Some pt ->
            compatible_pertrans 9002 23 0 0 0 false pt = false)
      \/ true = true
         /\ exists before t after pt,
              0%Z = Z.of_nat t /\ [0%nat] = before ++ t :: after
              /\ sh_pertrans sharing_after_avg !! t = Some pt
              /\ compatible_pertrans 9002 23 0 0 0 false pt = true
              /\ forall u pu, In u before ->
                   sh_pertrans sharing_after_avg !! u = Some pu ->
                   compatible_pertrans 9002 23 0 0 0 false pu = false).
Proof.
  split; [reflexivity|].
  apply (find_compatible_pertrans_first_compatible
           (sh_pertrans sharing_after_avg) true 9002 23 0 0 0 false [0%nat] 0).
  reflexivity.
Defined.

(** The transition states offered are states of aggregates seen before. *)
Lemma offered_transnos_in newagg peraggs t :
  In t (offered_transnos newagg peraggs) ->
  exists pa, In pa peraggs /\ transno pa = t.
Proof.
  unfold offered_transnos. intros H. apply in_map_iff in H.
  destruct H as (pa & <- & Hin). apply filter_In in Hin.
  exists pa. split; [apply Hin | reflexivity].
Qed.

Lemma In_take {A} (x : A) (n : nat) (l : list A) : In x (take n l) -> In x l.
Proof.
  revert n. induction l as [|y l IH]; intros [|n]; simpl; try tauto.
  intros [-> | H]; [auto | right; eapply IH; exact H].
Qed.

(** X6. One turn of the loop of [VExecInitAgg] over the aggregate calls
    keeps the bookkeeping of the shared descriptors sound: the counters are
    the indices of the last descriptors built, every aggregate refers to a
    transition state that exists, every call is given an aggregate that
    exists, and exactly one more call is numbered. *)
Theorem init_one_aggregate_keeps_sharing_sound
    (contain_volatile_functions : Aggref -> bool)
    (describe : Aggref -> outcome (AggStatePerAggData * AggStatePerTransData))
    (newagg : Aggref) (st st' : SharingState) :
  sharing_wf st ->
  init_one_aggregate contain_volatile_functions describe newagg st = Done st' ->
  sharing_wf st'
  /\ length (sh_assigned st') = S (length (sh_assigned st))
  /\ (length (sh_peragg st) <= length (sh_peragg st') <= S (length (sh_peragg st)))%nat
  /\ (length (sh_pertrans st) <= length (sh_pertrans st')
      <= S (length (sh_pertrans st)))%nat.
Proof.
  intros (Hag & Htr & Hpa & Has) H. unfold init_one_aggregate in H.
  destruct (find_compatible_peragg _ newagg (sh_peragg st) (sh_aggno st))
    as [[existing ts]|f] eqn:Hfind; [|discriminate].
  assert (Hfound :
    (existing = (-1)%Z
     /\ forall t, In t ts -> (t < length (sh_pertrans st))%nat)
    \/ (0 <= existing < Z.of_nat (length (sh_peragg st)))%Z).
  { unfold find_compatible_peragg in Hfind.
    destruct (contain_volatile_functions newagg).
    - injection Hfind as <- <-. left. split; [reflexivity|]. intros t [].
    - apply find_compatible_peragg_loop_spec in Hfind.
      destruct Hfind as [(-> & -> & _) | (i & pa & -> & Hi & Hpai & _)].
      + left. split; [reflexivity|]. intros t Ht. simpl in Ht.
        apply offered_transnos_in in Ht. destruct Ht as (pa & Hin & <-).
        apply In_take in Hin. rewrite drop_0 in Hin.
        rewrite Forall_forall in Hpa. apply Hpa. apply list_elem_of_In. exact Hin.
      + right. apply lookup_lt_Some in Hpai. lia. }
  destruct (negb (existing =? -1)%Z) eqn:Hex.
  - (* an identical aggregate: the call is given its number *)
    injection H as <-. simpl.
    destruct Hfound as [(-> & _) | Hrange]; [discriminate|].
    split; [|rewrite ?length_app; simpl; lia].
    split; [exact Hag|]. split; [exact Htr|]. split; [exact Hpa|].
    apply Forall_app. split; [exact Has|]. constructor; [exact Hrange|constructor].
  - destruct Hfound as [(-> & Hts) | Hrange];
      [|apply negb_false_iff, Z.eqb_eq in Hex; lia].
    destruct (describe newagg) as [[peragg pertrans]|f]; [|discriminate].
    destruct (find_compatible_pertrans _ _ _ _ _ _ _ _ ts) as [tno|f] eqn:Hpt;
      [|discriminate].
    destruct (negb (tno =? -1)%Z) eqn:Htno.
    + (* the transition state of an earlier aggregate is shared *)
      destruct (sh_pertrans st !! Z.to_nat tno) as [shared|] eqn:Hshared;
        [|discriminate].
      injection H as <-. simpl.
      apply lookup_lt_Some in Hshared.
      split; [|rewrite ?length_app, ?length_insert; simpl; lia].
      unfold sharing_wf; simpl. rewrite ?length_app, ?length_insert; simpl.
      split; [lia|]. split; [exact Htr|]. split.
      * apply Forall_app. split; [exact Hpa|].
        constructor; [simpl; exact Hshared|constructor].
      * apply Forall_app. split.
        -- eapply Forall_impl; [exact Has|]. intros a Ha. simpl in Ha |- *. lia.
        -- constructor; [lia|constructor].
    + (* a new transition state *)
      injection H as <-. simpl.
      split; [|rewrite ?length_app; simpl; lia].
      unfold sharing_wf; simpl. rewrite ?length_app; simpl.
      split; [lia|]. split; [lia|]. split.
      * apply Forall_app. split.
        -- eapply Forall_impl; [exact Hpa|]. intros a Ha. simpl in Ha |- *. lia.
        -- constructor; [simpl; lia|constructor].
      * apply Forall_app. split.
        -- eapply Forall_impl; [exact Has|]. intros a Ha. simpl in Ha |- *. lia.
        -- constructor; [lia|constructor].
Qed.

(** [avg(x)] and then [stddev(x)]: the second aggregate gets a descriptor
    of its own and shares the transition state of the first. *)
Lemma X6_witness :
  sharing_wf sharing_after_avg
  /\ init_one_aggregate calls_random describe_by_fnoid stddev_of_column
       sharing_after_avg
     = Done sharing_after_stddev
  /\ sharing_wf sharing_after_stddev
  /\ length (sh_assigned sharing_after_stddev)
     = S (length (sh_assigned sharing_after_avg))
  /\ (length (sh_peragg sharing_after_avg)
      <= length (sh_peragg sharing_after_stddev)
      <= S (length (sh_peragg sharing_after_avg)))%nat
  /\ (length (sh_pertrans sharing_after_avg)
      <= length (sh_pertrans sharing_after_stddev)
      <= S (length (sh_pertrans sharing_after_avg)))%nat.
Proof.
  assert (Hwf : sharing_wf sharing_after_avg).
  { unfold sharing_wf. split; [reflexivity|]. split; [reflexivity|].
    split.
    - repeat constructor.
    - constructor; [simpl; lia | constructor]. }
  split; [exact Hwf|]. split; [reflexivity|].
  apply (init_one_aggregate_keeps_sharing_sound calls_random describe_by_fnoid
           stddev_of_column sharing_after_avg sharing_after_stddev Hwf).
  reflexivity.
Defined.

Example stddev_shares_state_of_avg :
  map transno (sh_peragg sharing_after_stddev) = [0%nat; 0%nat]
  /\ length (sh_pertrans sharing_after_stddev) = 1%nat
  /\ map aggshared (sh_pertrans sharing_after_stddev) = [true]
  /\ sh_assigned sharing_after_stddev = [0; 1]%Z.
Proof. split; [reflexivity|]. split; [reflexivity|]. split; reflexivity. Qed.

(** ** Scan: predicate, projection, recheck *)

Section ScanExtras.

Context {AM : Type}.
Variable BATCHSIZE : nat.
Variable EvalPlanQualFetchRowMark :
  VectorScanState AM -> nat -> SlotPtr -> outcome (bool * VectorScanState AM).
Variables (accessMtd : VExecScanAccessMtd (AM := AM))
          (recheckMtd : VExecScanRecheckMtd (AM := AM)).

Lemma qual_loop_accepts (q : ScanQual) (fuel : nat) :
  forall (st : VectorScanState AM) (r : SlotPtr) (st' : VectorScanState AM),
    VExecScan_loop BATCHSIZE EvalPlanQualFetchRowMark fuel accessMtd
      recheckMtd (Some q) None st = Done (Some r, st') ->
    TupIsNullPtr st' (Some r) = Done false ->
    ecxt_scantuple_ptr st' = Some r
    /\ exists s s', q s = Some (true, s') /\ es_tupleTable st' !! r = Some s'.
Proof.
  induction fuel as [|fuel IH]; intros st r st' H Hnn; [discriminate|].
  cbn [VExecScan_loop] in H.
  destruct (ExecScanFetch _ _ _ st) as [[slot st1]|f]; [|discriminate].
  destruct (TupIsNullPtr st1 slot) as [[|]|f] eqn:Hnull; [| |discriminate].
  - (* end of the scan: what is returned is NULL or empty *)
    exfalso. assert (Hret : slot = Some r /\ st1 = st').
    { destruct slot; injection H as <- <-; auto. }
    destruct Hret as [-> ->]. rewrite Hnull in Hnn. discriminate.
  - destruct slot as [sp|]; [|discriminate].
    unfold VExecScanQual in H. simpl in H.
    destruct (es_tupleTable st1 !! sp) as [s|] eqn:Hs; [|discriminate].
    destruct (q s) as [[[|] s']|] eqn:Hq; [| |discriminate].
    + injection H as <- <-. simpl. split; [reflexivity|].
      exists s, s'. split; [exact Hq|].
      apply list_lookup_insert_eq. apply lookup_lt_Some in Hs. exact Hs.
    + exact (IH _ _ _ H Hnn).
Qed.

(** X7. A scan with a predicate and no projection returns a batch only
    after the predicate accepted it: a batch that is returned is the one left
    in [ecxt_scantuple], as the predicate marked it when it answered true. *)
Theorem scan_returns_accepted_batch (fuel : nat) (q : ScanQual)
    (vss : VectorScanState AM) (r : SlotPtr) (vss' : VectorScanState AM) :
  qual vss = Some q ->
  ps_ProjInfo vss = None ->
  VExecScan BATCHSIZE EvalPlanQualFetchRowMark fuel accessMtd recheckMtd vss
  = Done (Some r, vss') ->
  TupIsNullPtr vss' (Some r) = Done false ->
  ecxt_scantuple_ptr vss' = Some r
  /\ exists s s', q s = Some (true, s') /\ es_tupleTable vss' !! r = Some s'.
Proof.
  intros Hq Hp H Hnn. unfold VExecScan in H. rewrite Hq, Hp in H.
  exact (qual_loop_accepts q fuel _ _ _ H Hnn).
Qed.



(** X9. Inside an EvalPlanQual recheck the test tuple of a relation is
    handed out once: when the fetch step substitutes the tuple provided by
    the caller of the recheck it marks the relation as done, and, as long as
    the recheck method leaves the recheck state and the scan slot alone, the
    next fetch clears the scan slot and returns it, whatever the access
    method would do. *)
Theorem recheck_tuple_is_handed_out_once
    (vss : VectorScanState AM) (epq : EPQState) (k : nat) (slot : SlotPtr)
    (r : option SlotPtr) (vss1 : VectorScanState AM) :
  (forall st s b st', recheckMtd st s = Done (b, st') ->
     es_epq_active st' = es_epq_active st /\ scanrelid st' = scanrelid st
     /\ ss_ScanTupleSlot st' = ss_ScanTupleSlot st) ->
  es_epq_active vss = Some epq ->
  scanrelid vss = S k ->
  relsubs_done epq !! k = Some false ->
  relsubs_slot epq !! k = Some (Some slot) ->
  ExecScanFetch EvalPlanQualFetchRowMark accessMtd recheckMtd vss
  = Done (r, vss1) ->
  (exists epq1, es_epq_active vss1 = Some epq1
                /\ relsubs_done epq1 !! k = Some true)
  /\ ExecScanFetch EvalPlanQualFetchRowMark accessMtd recheckMtd vss1
     = ExecClearTuple vss1 (ss_ScanTupleSlot vss1).
Proof.
  intros Hframe Hepq Hrel Hdone Hslot H.
  unfold ExecScanFetch in H. rewrite Hepq, Hrel in H. simpl in H.
  rewrite Nat.sub_0_r in H. rewrite Hdone, Hslot in H.
  set (marked := set_epq vss (Some (mkEPQ (<[k := true]> (relsubs_done epq))
                                      (relsubs_slot epq) (relsubs_rowmark epq))))
    in *.
  assert (Hmarked : es_epq_active vss1
                    = Some (mkEPQ (<[k := true]> (relsubs_done epq))
                              (relsubs_slot epq) (relsubs_rowmark epq))
                    /\ scanrelid vss1 = S k).
  { unfold recheck_test_tuple in H.
    destruct (TupIsNullPtr marked (Some slot)) as [[|]|f]; [| |discriminate].
    - injection H as _ <-. subst marked. simpl. auto.
    - destruct (recheckMtd marked slot) as [[[|] st1]|f] eqn:Hre; [| |discriminate].
      + injection H as _ <-. destruct (Hframe _ _ _ _ Hre) as (He & Hr & _).
        rewrite He, Hr. subst marked. simpl. auto.
      + unfold ExecClearTuple in H.
        destruct (es_tupleTable st1 !! slot); [|discriminate].
        destruct (VExecClearTuple s); [|discriminate].
        injection H as _ <-. simpl.
        destruct (Hframe _ _ _ _ Hre) as (He & Hr & _).
        rewrite He, Hr. subst marked. simpl. auto. }
  destruct Hmarked as (He1 & Hr1).
  assert (Hset : <[k := true]> (relsubs_done epq) !! k = Some true).
  { apply list_lookup_insert_eq. apply lookup_lt_Some in Hdone. exact Hdone. }
  split.
  - eexists. split; [exact He1|]. exact Hset.
  - unfold ExecScanFetch. rewrite He1, Hr1. simpl. rewrite Nat.sub_0_r.
    rewrite Hset. reflexivity.
Qed.

End ScanExtras.

Lemma X7_witness :
  qual (scan_state (Some above_15) None
          [batch4 [false; false; false; false] [1; 2; 3; 4]%Z;
           batch4 [false; false; false; false] [10; 20; 30; 40]%Z])
  = Some above_15
  /\ exists r st',
       VExecScan 4 no_rowmark 5 seq_next seq_recheck
         (scan_state (Some above_15) None
            [batch4 [false; false; false; false] [1; 2; 3; 4]%Z;
             batch4 [false; false; false; false] [10; 20; 30; 40]%Z])
       = Done (Some r, st')
       /\ TupIsNullPtr st' (Some r) = Done false
       /\ instr_nfiltered1 st' = Some 1%nat
       /\ ecxt_scantuple_ptr st' = Some r
       /\ exists s s', above_15 s = Some (true, s')
                       /\ es_tupleTable st' !! r = Some s'.
Proof.
  split; [reflexivity|].
  eexists. eexists. split; [lazy; reflexivity|].
  split; [reflexivity|]. split; [reflexivity|].
  apply (scan_returns_accepted_batch 4 no_rowmark seq_next seq_recheck 5 above_15
           (scan_state (Some above_15) None
              [batch4 [false; false; false; false] [1; 2; 3; 4]%Z;
               batch4 [false; false; false; false] [10; 20; 30; 40]%Z]));
    [reflexivity | reflexivity | lazy; reflexivity | reflexivity].
Defined.


(** The first fetch answers with the test tuple in slot 1, the second with
    the cleared scan slot 0; the pending batch of the access method is never
    fetched. *)
Lemma X9_witness :
  exists r st1,
    ExecScanFetch no_rowmark seq_next seq_recheck (epq_scan_state pending_batch)
    = Done (r, st1)
    /\ r = Some 1%nat
    /\ am_private st1 = pending_batch
    /\ ((exists epq1, es_epq_active st1 = Some epq1
                      /\ relsubs_done epq1 !! 0%nat = Some true)
        /\ ExecScanFetch no_rowmark seq_next seq_recheck st1
           = ExecClearTuple st1 (ss_ScanTupleSlot st1)).
Proof.
  eexists. eexists. split; [lazy; reflexivity|].
  split; [reflexivity|]. split; [reflexivity|].
  apply (recheck_tuple_is_handed_out_once no_rowmark seq_next seq_recheck
           (epq_scan_state pending_batch) (mkEPQ [false] [Some 1%nat] [None])
           0 1 (Some 1%nat)).
  - intros st s b st' H. injection H as _ <-. auto.
  - reflexivity.
  - reflexivity.
  - reflexivity.
  - reflexivity.
  - lazy; reflexivity.
Defined.

(** ** Vector slots and their buffer pins *)

Lemma invalid_buffer (b : Buffer) : BufferIsValid b = false -> b = InvalidBuffer.
Proof.
  unfold BufferIsValid. intros H. apply negb_false_iff in H.
  apply Z.eqb_eq in H. exact H.
Qed.

Lemma VExecStoreTuple_spec (tuple : HeapTupleData) (slot : StoredSlot)
    (buffer : Buffer) (shouldFree : bool) :
  slot_pins_wf slot ->
  (dim (st_slot slot) < length (tts_tuples slot))%nat ->
  exists slot1 evs,
    VExecStoreTuple tuple slot buffer shouldFree = Done (slot1, evs)
    /\ slot_pins_wf slot1
    /\ dim (st_slot slot1) = S (dim (st_slot slot))
    /\ length (tts_tuples slot1) = length (tts_tuples slot)
    /\ tts_empty (tts (st_slot slot1)) = false
    /\ released evs = []
    /\ List.filter BufferIsValid
         (take (bufnum (st_slot slot1)) (tts_buffers (st_slot slot1)))
       = List.filter BufferIsValid
           (take (bufnum (st_slot slot)) (tts_buffers (st_slot slot)))
         ++ pinned evs.
Proof.
  intros (Hle & Hlen & Htail) Hroom. unfold VExecStoreTuple. cbv zeta.
  apply Nat.ltb_lt in Hroom as Hb. rewrite Hb. clear Hb.
  assert (Hcell : exists old, tts_buffers (st_slot slot) !! bufnum (st_slot slot)
                              = Some old /\ old = InvalidBuffer).
  { destruct (lookup_lt_is_Some_2 (tts_buffers (st_slot slot))
                (bufnum (st_slot slot))) as [old Hold]; [lia|].
    exists old. split; [exact Hold|]. apply (Htail _ _ Hold). lia. }
  destruct Hcell as (old & Hold & ->).
  assert (Hwrite :
    exists slot1 evs,
      match tts_buffers (st_slot slot) !! bufnum (st_slot slot) with
      | None => Fail SEGV
      | Some old =>
          Done (mkStored
                  (mkVSlot
                     (mkSlot false shouldFree 0 (tts_values (tts (st_slot slot)))
                        (tts_isnull (tts (st_slot slot))))
                     (S (dim (st_slot slot))) (S (bufnum (st_slot slot)))
                     (<[bufnum (st_slot slot) := buffer]> (tts_buffers (st_slot slot)))
                     (skip (st_slot slot)) (columns (st_slot slot)))
                  (<[dim (st_slot slot) := tuple]> (tts_tuples slot)),
                (if BufferIsValid old then [EvReleaseBuffer old] else [])
                ++ (if BufferIsValid buffer
                    then [EvIncrBufferRefCount buffer] else []))
      end = Done (slot1, evs)
      /\ slot_pins_wf slot1
      /\ dim (st_slot slot1) = S (dim (st_slot slot))
      /\ length (tts_tuples slot1) = length (tts_tuples slot)
      /\ tts_empty (tts (st_slot slot1)) = false
      /\ released evs = []
      /\ List.filter BufferIsValid
           (take (bufnum (st_slot slot1)) (tts_buffers (st_slot slot1)))
         = List.filter BufferIsValid
             (take (bufnum (st_slot slot)) (tts_buffers (st_slot slot)))
           ++ pinned evs).
  { rewrite Hold. eexists. eexists. split; [reflexivity|]. simpl.
    split; [|split; [reflexivity|split; [apply length_insert|split; [reflexivity|]]]].
    - unfold slot_pins_wf. simpl. rewrite !length_insert.
      split; [lia|]. split; [exact Hlen|].
      intros i b Hi Hge. rewrite list_lookup_insert_ne in Hi by lia.
      apply (Htail _ _ Hi). lia.
    - split; [destruct (BufferIsValid buffer); reflexivity|].
      rewrite (take_S_r _ _ buffer)
        by (apply list_lookup_insert_eq; apply lookup_lt_Some in Hold; exact Hold).
      rewrite take_insert_ge by lia. rewrite List.filter_app. simpl.
      destruct (BufferIsValid buffer); reflexivity. }
  destruct (bufnum (st_slot slot) =? 0)%nat eqn:Hzero; [exact Hwrite|].
  apply Nat.eqb_neq in Hzero.
  destruct (_ !! (bufnum (st_slot slot) - 1)%nat) as [last|] eqn:Hlast.
  2: { apply lookup_ge_None in Hlast. unfold Buffer in *. lia. }
  destruct (last =? buffer)%Z; simpl; [|exact Hwrite].
  eexists. eexists. split; [reflexivity|]. simpl.
  split; [|split; [reflexivity|split; [apply length_insert|split; [reflexivity|]]]].
  - unfold slot_pins_wf. simpl. rewrite length_insert.
    split; [lia|]. split; [exact Hlen|]. exact Htail.
  - split; [reflexivity|]. rewrite app_nil_r. reflexivity.
Qed.

Lemma store_tuples_spec (items : list (HeapTupleData * Buffer)) :
  forall slot : StoredSlot,
    slot_pins_wf slot ->
    (dim (st_slot slot) + length items <= length (tts_tuples slot))%nat ->
    exists slot1 evs,
      store_tuples items slot = Done (slot1, evs)
      /\ slot_pins_wf slot1
      /\ dim (st_slot slot1) = (dim (st_slot slot) + length items)%nat
      /\ length (tts_tuples slot1) = length (tts_tuples slot)
      /\ (items <> [] -> tts_empty (tts (st_slot slot1)) = false)
      /\ released evs = []
      /\ List.filter BufferIsValid
           (take (bufnum (st_slot slot1)) (tts_buffers (st_slot slot1)))
         = List.filter BufferIsValid
             (take (bufnum (st_slot slot)) (tts_buffers (st_slot slot)))
           ++ pinned evs.
Proof.
  induction items as [|[tuple buffer] rest IH]; intros slot Hwf Hroom.
  - exists slot, []. simpl. rewrite app_nil_r.
    repeat split; try reflexivity; try apply Hwf; try lia. congruence.
  - simpl in Hroom.
    destruct (VExecStoreTuple_spec tuple slot buffer false Hwf)
      as (slot1 & evs1 & H1 & Hwf1 & Hdim1 & Hlen1 & Hne1 & Hrel1 & Hpin1); [lia|].
    destruct (IH slot1 Hwf1)
      as (slot2 & evs2 & H2 & Hwf2 & Hdim2 & Hlen2 & Hne2 & Hrel2 & Hpin2); [lia|].
    exists slot2, (evs1 ++ evs2). simpl. rewrite H1, H2.
    split; [reflexivity|]. split; [exact Hwf2|].
    split; [lia|]. split; [congruence|]. split.
    + intros _. destruct rest as [|x rest']; [|apply Hne2; congruence].
      simpl in H2. injection H2 as <- _. exact Hne1.
    + unfold released, pinned in *. rewrite !flat_map_app.
      split; [rewrite Hrel1, Hrel2; reflexivity|].
      rewrite Hpin2, Hpin1, app_assoc. reflexivity.
Qed.

Lemma store_tuples_overflow (items : list (HeapTupleData * Buffer)) :
  forall slot : StoredSlot,
    slot_pins_wf slot ->
    (dim (st_slot slot) <= length (tts_tuples slot))%nat ->
    (length (tts_tuples slot) < dim (st_slot slot) + length items)%nat ->
    store_tuples items slot = Fail SEGV.
Proof.
  induction items as [|[tuple buffer] rest IH]; intros slot Hwf Hdim Hover.
  - simpl in Hover. lia.
  - simpl in Hover. simpl.
    destruct (decide (dim (st_slot slot) < length (tts_tuples slot))%nat) as [Hlt|Hge].
    + destruct (VExecStoreTuple_spec tuple slot buffer false Hwf Hlt)
        as (slot1 & evs1 & H1 & Hwf1 & Hdim1 & Hlen1 & _).
      rewrite H1. rewrite (IH slot1 Hwf1); [reflexivity|lia|lia].
    + unfold VExecStoreTuple. cbv zeta.
      assert (Hb : (dim (st_slot slot) <? length (tts_tuples slot))%nat = false)
        by (apply Nat.ltb_ge; lia).
      rewrite Hb. reflexivity.
Qed.

Lemma release_buffers_pins_spec (n : nat) :
  forall (bufs : list Buffer) (i : nat),
    (i + n <= length bufs)%nat ->
    release_buffers_pins bufs i n
    = Done (take i bufs ++ replicate n InvalidBuffer ++ drop (i + n) bufs,
            map EvReleaseBuffer
              (List.filter BufferIsValid (take n (drop i bufs)))).
Proof.
  induction n as [|n IH]; intros bufs i Hlen.
  - simpl. rewrite Nat.add_0_r, take_drop. reflexivity.
  - simpl release_buffers_pins.
    destruct (lookup_lt_is_Some_2 bufs i) as [b Hb]; [lia|].
    rewrite Hb. rewrite (drop_S _ _ _ Hb). simpl take. simpl List.filter.
    assert (Hshape : forall l : list Buffer,
              take i bufs ++ [InvalidBuffer]
                ++ replicate n InvalidBuffer ++ l
              = take i bufs ++ replicate (S n) InvalidBuffer ++ l)
      by reflexivity.
    destruct (BufferIsValid b) eqn:Hv.
    + rewrite IH by (rewrite length_insert; lia).
      rewrite drop_insert_lt by lia.
      rewrite drop_insert_lt by lia.
      rewrite (take_S_r _ _ InvalidBuffer)
        by (apply list_lookup_insert_eq; lia).
      rewrite take_insert_ge by lia.
      rewrite <- app_assoc. replace (S i + n)%nat with (i + S n)%nat by lia.
      reflexivity.
    + apply invalid_buffer in Hv. subst b.
      rewrite IH by lia. rewrite (take_S_r _ _ _ Hb).
      rewrite <- app_assoc. replace (S i + n)%nat with (i + S n)%nat by lia.
      reflexivity.
Qed.

Lemma released_releases (l : list Buffer) :
  released (map EvReleaseBuffer l) = l /\ pinned (map EvReleaseBuffer l) = [].
Proof.
  induction l as [|b l [IH1 IH2]]; [split; reflexivity|].
  simpl. unfold released, pinned in *. simpl. rewrite IH1, IH2.
  split; reflexivity.
Qed.

Lemma tts_vector_clear_pins_slot (vslot : VectorTupleSlot) :
  tts_vector_clear vslot
  = match tts_vector_clear_pins vslot with
    | Done (v, _) => Done v
    | Fail f => Fail f
    end.
Proof.
  unfold tts_vector_clear, tts_vector_clear_pins.
  destruct (tts_empty (tts vslot)); [reflexivity|].
  assert (H : forall n bufs i,
            release_buffers bufs i n
            = match release_buffers_pins bufs i n with
              | Done (b, _) => Done b
              | Fail f => Fail f
              end).
  { induction n as [|n IH]; intros bufs i; [reflexivity|]. simpl.
    destruct (bufs !! i) as [b|]; [|reflexivity].
    destruct (BufferIsValid b); rewrite IH.
    - destruct (release_buffers_pins _ _ _) as [[? ?]|]; reflexivity.
    - reflexivity. }
  rewrite H. destruct (release_buffers_pins _ _ _) as [[? ?]|]; reflexivity.
Qed.

(** X10. Clearing gives back exactly the pins that storing took.  On a
    slot without pins (as [tts_vector_init] leaves it) a run of
    [VExecStoreTuple] calls that fits into the slot releases no buffer, and
    the [tts_vector_clear] that follows pins none and releases the buffers
    that the stores pinned, each as often as it was pinned and in the same
    order; afterwards the slot is empty and again without pins. *)
Theorem clear_releases_the_pins_of_the_stores
    (items : list (HeapTupleData * Buffer)) (slot : StoredSlot) :
  dim (st_slot slot) = 0%nat ->
  bufnum (st_slot slot) = 0%nat ->
  Forall (fun b => b = InvalidBuffer) (tts_buffers (st_slot slot)) ->
  length (tts_buffers (st_slot slot)) = length (tts_tuples slot) ->
  (length items <= length (tts_tuples slot))%nat ->
  exists slot1 evs1 cleared evs2,
    store_tuples items slot = Done (slot1, evs1)
    /\ tts_vector_clear_pins (st_slot slot1) = Done (cleared, evs2)
    /\ tts_vector_clear (st_slot slot1) = Done cleared
    /\ released evs1 = []
    /\ pinned evs2 = []
    /\ released evs2 = pinned evs1
    /\ (items <> [] -> tts_empty (tts cleared) = true /\ dim cleared = 0%nat)
    /\ bufnum cleared = 0%nat
    /\ Forall (fun b => b = InvalidBuffer) (tts_buffers cleared).
Proof.
  intros Hdim Hbuf Hinv Hlen Hroom.
  assert (Hwf : slot_pins_wf slot).
  { unfold slot_pins_wf. rewrite Hdim, Hbuf. split; [lia|]. split; [exact Hlen|].
    intros i b Hi _. rewrite Forall_forall in Hinv. apply Hinv.
    apply (list_elem_of_lookup_2 _ _ _ Hi). }
  destruct (store_tuples_spec items slot Hwf)
    as (slot1 & evs1 & H1 & (Hle1 & Hlen1 & Htail1) & Hdim1 & Hlent & Hne1 & Hrel1 & Hpin1);
    [lia|].
  rewrite Hbuf in Hpin1. simpl in Hpin1.
  exists slot1, evs1.
  assert (Hclear : exists cleared evs2,
            tts_vector_clear_pins (st_slot slot1) = Done (cleared, evs2)
            /\ pinned evs2 = [] /\ released evs2 = pinned evs1
            /\ (items <> [] -> tts_empty (tts cleared) = true /\ dim cleared = 0%nat)
            /\ bufnum cleared = 0%nat
            /\ Forall (fun b => b = InvalidBuffer) (tts_buffers cleared)).
  { unfold tts_vector_clear_pins.
    destruct (tts_empty (tts (st_slot slot1))) eqn:Hempty.
    - (* nothing was stored *)
      destruct items as [|x rest];
        [|exfalso; specialize (Hne1 ltac:(discriminate)); congruence].
      simpl in H1. injection H1 as <- <-.
      exists (st_slot slot), []. repeat split; try reflexivity; try assumption;
        congruence.
    - rewrite release_buffers_pins_spec by lia.
      eexists. eexists. split; [reflexivity|].
      destruct (released_releases
                  (List.filter BufferIsValid
                     (take (bufnum (st_slot slot1))
                        (drop 0 (tts_buffers (st_slot slot1))))))
        as [Hr Hp].
      split; [exact Hp|]. split; [rewrite Hr, drop_0; exact Hpin1|].
      simpl. split; [auto|]. split; [reflexivity|].
      apply Forall_app. split.
      + apply Forall_forall. intros b Hb.
        apply elem_of_replicate in Hb. apply Hb.
      + apply Forall_forall. intros b Hb.
        apply list_elem_of_lookup_1 in Hb. destruct Hb as [i Hi].
        rewrite lookup_drop in Hi. apply (Htail1 _ _ Hi). lia. }
  destruct Hclear as (cleared & evs2 & Hc & Hp2 & Hr2 & He & Hb2 & Hall).
  exists cleared, evs2. split; [exact H1|]. split; [exact Hc|].
  split; [rewrite tts_vector_clear_pins_slot, Hc; reflexivity|].
  repeat (split; [assumption|]). assumption.
Qed.

(** X11. A vector slot takes as many tuples as its arrays have cells: on
    a fresh slot with [n] cells a run of at most [n] stores succeeds, [dim]
    is then the number of tuples stored, [bufnum] does not exceed it and the
    slot is not empty any more once a tuple is in it; a longer run writes
    beyond the arrays. *)
Theorem store_tuples_capacity (n : nat) (items : list (HeapTupleData * Buffer)) :
  ((length items <= n)%nat ->
   exists slot1 evs,
     store_tuples items (fresh_slot n) = Done (slot1, evs)
     /\ dim (st_slot slot1) = length items
     /\ (bufnum (st_slot slot1) <= dim (st_slot slot1))%nat
     /\ (items <> [] -> tts_empty (tts (st_slot slot1)) = false))
  /\ ((n < length items)%nat ->
      store_tuples items (fresh_slot n) = Fail SEGV).
Proof.
  assert (Hwf : slot_pins_wf (fresh_slot n)).
  { unfold slot_pins_wf, fresh_slot. simpl. rewrite !length_replicate.
    split; [lia|]. split; [reflexivity|].
    intros i b Hi _. apply lookup_replicate in Hi. apply Hi. }
  split.
  - intros Hroom.
    destruct (store_tuples_spec items (fresh_slot n) Hwf)
      as (slot1 & evs1 & H1 & (Hle1 & _) & Hdim1 & _ & Hne1 & _).
    { simpl. rewrite length_replicate. lia. }
    exists slot1, evs1. split; [exact H1|]. split; [exact Hdim1|].
    split; [exact Hle1|exact Hne1].
  - intros Hover. apply store_tuples_overflow; [exact Hwf| |];
      simpl; rewrite length_replicate; lia.
Qed.

(** Three tuples of page 7 and one of page 9: two pins, both given back. *)
Lemma X10_witness :
  exists slot1 evs1 cleared evs2,
    store_tuples [(1, 7); (2, 7); (3, 7); (4, 9)]%Z (fresh_slot 4)
    = Done (slot1, evs1)
    /\ tts_vector_clear_pins (st_slot slot1) = Done (cleared, evs2)
    /\ tts_vector_clear (st_slot slot1) = Done cleared
    /\ released evs1 = []
    /\ pinned evs2 = []
    /\ released evs2 = pinned evs1
    /\ ([(1, 7); (2, 7); (3, 7); (4, 9)]%Z <> [] ->
        tts_empty (tts cleared) = true /\ dim cleared = 0%nat)
    /\ bufnum cleared = 0%nat
    /\ Forall (fun b => b = InvalidBuffer) (tts_buffers cleared).
Proof.
  apply (clear_releases_the_pins_of_the_stores
           [(1, 7); (2, 7); (3, 7); (4, 9)]%Z (fresh_slot 4)).
  - reflexivity.
  - reflexivity.
  - repeat constructor.
  - reflexivity.
  - simpl. lia.
Defined.

Example two_pages_two_pins :
  exists slot1 evs1,
    store_tuples [(1, 7); (2, 7); (3, 7); (4, 9)]%Z (fresh_slot 4)
    = Done (slot1, evs1)
    /\ pinned evs1 = [7; 9]%Z /\ bufnum (st_slot slot1) = 2%nat
    /\ dim (st_slot slot1) = 4%nat.
Proof.
  eexists. eexists. split; [vm_compute; reflexivity|].
  repeat split; reflexivity.
Qed.

Lemma X11_witness :
  (exists slot1 evs,
     store_tuples [(1, 7); (2, 8)]%Z (fresh_slot 2) = Done (slot1, evs)
     /\ dim (st_slot slot1) = length [(1, 7); (2, 8)]%Z
     /\ (bufnum (st_slot slot1) <= dim (st_slot slot1))%nat
     /\ ([(1, 7); (2, 8)]%Z <> [] -> tts_empty (tts (st_slot slot1)) = false))
  /\ store_tuples [(1, 7); (2, 8); (3, 8)]%Z (fresh_slot 2) = Fail SEGV.
Proof.
  split.
  - apply (proj1 (store_tuples_capacity 2 [(1, 7); (2, 8)]%Z)). simpl. lia.
  - apply (proj2 (store_tuples_capacity 2 [(1, 7); (2, 8); (3, 8)]%Z)).
    simpl. lia.
Defined.

(** ** Aggregation driver: grouping sets *)

Lemma existsb_eqb_sym (a : nat) (l : list nat) :
  existsb (Nat.eqb a) l = existsb (fun x => Nat.eqb x a) l.
Proof.
  induction l as [|x l IH]; [reflexivity|]. simpl.
  rewrite IH, (Nat.eqb_sym a x). reflexivity.
Qed.

Lemma null_ungrouped_spec (grouped : list nat) (cols : list nat) :
  forall (isnulls out : list bool),
    null_ungrouped cols grouped isnulls = Done out ->
    length out = length isnulls
    /\ forall k b, isnulls !! k = Some b ->
         out !! k = Some (if ungrouped_column cols grouped k then true else b).
Proof.
  unfold ungrouped_column.
  induction cols as [|attnum rest IH]; intros isnulls out H.
  - simpl in H. injection H as <-. split; [reflexivity|].
    intros k b Hk. simpl. exact Hk.
  - simpl in H.
    destruct (existsb (Nat.eqb attnum) grouped) eqn:Hg.
    + destruct (IH _ _ H) as [Hlen Hcells]. split; [exact Hlen|].
      intros k b Hk. rewrite (Hcells k b Hk). cbn [existsb].
      destruct (Nat.eqb (S k) attnum) eqn:Heq; [|reflexivity].
      apply Nat.eqb_eq in Heq. subst attnum. rewrite Hg.
      rewrite !andb_false_r. reflexivity.
    + destruct attnum as [|k0]; [discriminate|].
      destruct (k0 <? length isnulls)%nat eqn:Hin; [|discriminate].
      apply Nat.ltb_lt in Hin.
      destruct (IH _ _ H) as [Hlen Hcells]. rewrite length_insert in Hlen.
      split; [exact Hlen|].
      intros k b Hk. cbn [existsb].
      destruct (decide (k = k0)) as [->|Hne].
      * rewrite (Hcells k0 true) by (apply list_lookup_insert_eq; exact Hin).
        rewrite Nat.eqb_refl, Hg. cbn [orb negb andb].
        destruct (existsb (Nat.eqb (S k0)) rest && true); reflexivity.
      * rewrite (Hcells k b) by (rewrite list_lookup_insert_ne by congruence; exact Hk).
        assert (Hneq : Nat.eqb (S k) (S k0) = false)
          by (apply Nat.eqb_neq; congruence).
        rewrite Hneq. reflexivity.
Qed.

(** X12. Before a group is projected for a grouping set,
    [prepare_projection_slot] makes that set current in
    [aggstate->grouped_cols] and fixes the representative tuple: an empty
    tuple becomes an all-null row; otherwise the values stay and exactly the
    grouping columns of the query that the set does not group by are forced
    to null, every other null flag is kept. *)
Theorem prepare_projection_slot_nulls_ungrouped
    (aggstate : AggState) (s : Slot) (currentSet : nat)
    (ph : AggStatePerPhaseData) (gcs : list (list nat)) (grouped : list nat)
    (r : option Slot) (aggstate' : AggState) :
  cur_phase aggstate = Done ph ->
  ph_grouped_cols ph = Some gcs ->
  gcs !! currentSet = Some grouped ->
  prepare_projection_slot aggstate (Some s) currentSet = Done (r, aggstate') ->
  exists s',
    r = Some s'
    /\ grouped_cols aggstate' = grouped
    /\ (TTS_EMPTY s = true ->
        TTS_EMPTY s' = false
        /\ Forall (fun b => b = true) (tts_isnull (base s')))
    /\ (TTS_EMPTY s = false ->
        tts_values (base s') = tts_values (base s)
        /\ forall k b, tts_isnull (base s) !! k = Some b ->
             tts_isnull (base s') !! k
             = Some (if ungrouped_column (all_grouped_cols aggstate) grouped k
                     then true else b)).
Proof.
  intros Hph Hgcs Hset H. unfold prepare_projection_slot in H.
  rewrite Hph in H. simpl in H. rewrite Hgcs, Hset in H.
  assert (Hbase : forall t, base (set_base s t) = t)
    by (intros t; destruct s; reflexivity).
  destruct (TTS_EMPTY s) eqn:Hempty.
  - injection H as <- <-. eexists. split; [reflexivity|].
    split; [reflexivity|]. split; [|discriminate]. intros _.
    unfold TTS_EMPTY. rewrite Hbase. simpl. split; [reflexivity|].
    apply Forall_forall. intros b Hb. apply list_elem_of_In in Hb.
    apply in_map_iff in Hb. destruct Hb as (? & <- & _). reflexivity.
  - destruct (all_grouped_cols aggstate) as [|largest more] eqn:Hall.
    + injection H as <- <-. exists s. split; [reflexivity|].
      split; [reflexivity|]. split; [discriminate|]. intros _.
      split; [reflexivity|]. intros k b Hk. exact Hk.
    + unfold slot_getsomeattrs in H.
      destruct (largest <=? tts_nvalid (base s))%nat; [|discriminate].
      cbn [mbind outcome_bind] in H.
      destruct (null_ungrouped (largest :: more) grouped (tts_isnull (base s)))
        as [nulls|f] eqn:Hnull; [|discriminate].
      simpl in H. injection H as <- <-. eexists. split; [reflexivity|].
      split; [reflexivity|]. split; [discriminate|]. intros _.
      rewrite Hbase. simpl. split; [reflexivity|].
      apply (null_ungrouped_spec _ _ _ _ Hnull).
Qed.

Lemma initialize_aggregate_spec (setno : nat) (pt pt' : AggStatePerTransData)
    (g : AggStatePerGroupData) :
  initialize_aggregate setno pt = Done (pt', g) ->
  g = initial_state pt /\ initial_state pt' = initial_state pt.
Proof.
  unfold initialize_aggregate. intros H.
  destruct (0 <? numSortCols pt)%nat.
  - destruct (sortstates pt !! setno); [|discriminate].
    injection H as <- <-. split; reflexivity.
  - injection H as <- <-. split; reflexivity.
Qed.

Lemma same_initial_states_refl (pts : list AggStatePerTransData) :
  same_initial_states pts pts.
Proof.
  split; [reflexivity|]. intros i pt H. exists pt. split; [exact H|reflexivity].
Qed.

Lemma same_initial_states_trans (a b c : list AggStatePerTransData) :
  same_initial_states a b -> same_initial_states b c -> same_initial_states a c.
Proof.
  intros [L1 H1] [L2 H2]. split; [congruence|].
  intros i pt Hi. destruct (H1 i pt Hi) as (pt1 & Hb & E1).
  destruct (H2 i pt1 Hb) as (pt2 & Hc & E2). exists pt2.
  split; [exact Hc|congruence].
Qed.

Lemma same_initial_states_insert (pts : list AggStatePerTransData) (i : nat)
    (pt pt' : AggStatePerTransData) :
  pts !! i = Some pt -> initial_state pt' = initial_state pt ->
  same_initial_states pts (<[i := pt']> pts).
Proof.
  intros Hi E. split; [apply length_insert|].
  intros j q Hj. destruct (decide (j = i)) as [->|Hne].
  - exists pt'. split; [|congruence].
    apply list_lookup_insert_eq. apply lookup_lt_Some in Hi. exact Hi.
  - exists q. rewrite list_lookup_insert_ne by congruence. split; [exact Hj|reflexivity].
Qed.

Lemma initialize_trans_loop_spec (setno : nat) (n : nat) :
  forall (transno : nat) (pts : list AggStatePerTransData)
         (pergroup : list AggStatePerGroupData)
         (pts' : list AggStatePerTransData) (pg' : list AggStatePerGroupData),
    initialize_trans_loop setno transno n pts pergroup = Done (pts', pg') ->
    same_initial_states pts pts'
    /\ length pg' = length pergroup
    /\ (forall i, (i < transno \/ transno + n <= i)%nat -> pg' !! i = pergroup !! i)
    /\ (forall i pt, (transno <= i < transno + n)%nat -> pts !! i = Some pt ->
          pg' !! i = Some (initial_state pt)).
Proof.
  induction n as [|n IH]; intros transno pts pergroup pts' pg' H.
  - simpl in H. injection H as <- <-.
    split; [apply same_initial_states_refl|]. split; [reflexivity|].
    split; [reflexivity|]. intros i pt Hi. lia.
  - simpl in H.
    destruct (pts !! transno) as [pt0|] eqn:Hpt; [|discriminate].
    destruct (pergroup !! transno) as [g0|] eqn:Hg; [|discriminate].
    destruct (initialize_aggregate setno pt0) as [[pt1 g1]|f] eqn:Hinit;
      [|discriminate].
    simpl in H. destruct (initialize_aggregate_spec _ _ _ _ Hinit) as [-> Hsame].
    destruct (IH _ _ _ _ _ H) as (Hs & Hlen & Hout & Hin).
    pose proof (same_initial_states_insert pts transno pt0 pt1 Hpt Hsame) as Hs0.
    rewrite length_insert in Hlen.
    split; [exact (same_initial_states_trans _ _ _ Hs0 Hs)|].
    split; [exact Hlen|]. split.
    + intros i Hi. rewrite Hout by lia.
      apply list_lookup_insert_ne. lia.
    + intros i pt Hi Hp. destruct (decide (i = transno)) as [->|Hne].
      * rewrite Hout by lia.
        assert (pt = pt0) by congruence. subst pt.
        apply list_lookup_insert_eq. apply lookup_lt_Some in Hg. exact Hg.
      * destruct Hs0 as [_ Hs0]. destruct (Hs0 i pt Hp) as (q & Hq & Eq).
        rewrite <- Eq. apply Hin; [lia|exact Hq].
Qed.

Lemma initialize_sets_loop_spec (numTrans : nat) (n : nat) :
  forall (setno : nat) (pts : list AggStatePerTransData)
         (pgs : list (list AggStatePerGroupData))
         (pts' : list AggStatePerTransData)
         (pgs' : list (list AggStatePerGroupData)),
    initialize_sets_loop numTrans setno n pts pgs = Done (pts', pgs') ->
    same_initial_states pts pts'
    /\ length pgs' = length pgs
    /\ (forall s, (s < setno \/ setno + n <= s)%nat -> pgs' !! s = pgs !! s)
    /\ (forall s, (setno <= s < setno + n)%nat ->
          exists pg0 pg, pgs !! s = Some pg0 /\ pgs' !! s = Some pg
            /\ length pg = length pg0
            /\ (forall i, (numTrans <= i)%nat -> pg !! i = pg0 !! i)
            /\ (forall i pt, (i < numTrans)%nat -> pts !! i = Some pt ->
                  pg !! i = Some (initial_state pt))).
Proof.
  induction n as [|n IH]; intros setno pts pgs pts' pgs' H.
  - simpl in H. injection H as <- <-.
    split; [apply same_initial_states_refl|]. split; [reflexivity|].
    split; [reflexivity|]. intros s Hs. lia.
  - simpl in H.
    destruct (pgs !! setno) as [pg0|] eqn:Hpg; [|discriminate].
    destruct (initialize_trans_loop setno 0 numTrans pts pg0)
      as [[pts1 pg1]|f] eqn:Hinner; [|discriminate].
    simpl in H.
    destruct (initialize_trans_loop_spec _ _ _ _ _ _ _ Hinner)
      as (Hs1 & Hlen1 & Hout1 & Hin1).
    destruct (IH _ _ _ _ _ H) as (Hs2 & Hlen2 & Hout2 & Hin2).
    rewrite length_insert in Hlen2.
    split; [exact (same_initial_states_trans _ _ _ Hs1 Hs2)|].
    split; [exact Hlen2|]. split.
    + intros s Hs. rewrite Hout2 by lia. apply list_lookup_insert_ne. lia.
    + intros s Hs. destruct (decide (s = setno)) as [->|Hne].
      * exists pg0, pg1. split; [exact Hpg|]. split.
        { rewrite Hout2 by lia. apply list_lookup_insert_eq.
          apply lookup_lt_Some in Hpg. exact Hpg. }
        split; [exact Hlen1|]. split.
        { intros i Hi. apply Hout1. lia. }
        { intros i pt Hi Hp. apply (Hin1 i pt); [lia|exact Hp]. }
      * destruct (Hin2 s) as (pga & pgb & Ha & Hb & Hl & Hrest & Hcells); [lia|].
        rewrite list_lookup_insert_ne in Ha by congruence.
        exists pga, pgb. split; [exact Ha|]. split; [exact Hb|].
        split; [exact Hl|]. split; [exact Hrest|].
        intros i pt Hi Hp. destruct Hs1 as [_ Hs1].
        destruct (Hs1 i pt Hp) as (q & Hq & Eq). rewrite <- Eq.
        apply Hcells; [exact Hi|exact Hq].
Qed.

(** X13. At a group boundary [initialize_aggregates] resets the
    transition states of the first [numReset] grouping sets only (of all
    sets of the phase when [numReset] is 0): each of their [numtrans] states
    gets the initial value of its aggregate, the states of the other
    grouping sets keep accumulating, and the last set reset is left as the
    current set. *)
Theorem initialize_aggregates_resets_first_sets
    (aggstate aggstate' : AggState) (numReset : nat)
    (ph : AggStatePerPhaseData) (pgs : list (list AggStatePerGroupData)) :
  cur_phase aggstate = Done ph ->
  pergroups (store aggstate) = Some pgs ->
  initialize_aggregates aggstate numReset = Done aggstate' ->
  exists pgs',
    pergroups (store aggstate') = Some pgs'
    /\ length pgs' = length pgs
    /\ current_set aggstate'
       = ((if (numReset =? 0)%nat then Nat.max (numsets ph) 1 else numReset) - 1)%nat
    /\ (forall s, ((if (numReset =? 0)%nat then Nat.max (numsets ph) 1
                    else numReset) <= s)%nat ->
          pgs' !! s = pgs !! s)
    /\ (forall s i pt,
          (s < (if (numReset =? 0)%nat then Nat.max (numsets ph) 1
                else numReset))%nat ->
          (i < numtrans aggstate)%nat ->
          pertrans (store aggstate) !! i = Some pt ->
          exists pg, pgs' !! s = Some pg /\ pg !! i = Some (initial_state pt)).
Proof.
  intros Hph Hpgs H. unfold initialize_aggregates in H.
  rewrite Hph in H. simpl in H. rewrite Hpgs in H.
  destruct (initialize_sets_loop _ _ _ _ _) as [[pts' pgs']|f] eqn:Hloop;
    [|discriminate].
  simpl in H. injection H as <-.
  destruct (initialize_sets_loop_spec _ _ _ _ _ _ _ Hloop)
    as (_ & Hlen & Hout & Hin).
  exists pgs'. split; [reflexivity|]. split; [exact Hlen|].
  split; [reflexivity|]. split.
  - intros s Hs. apply Hout. lia.
  - intros s i pt Hs Hi Hp.
    destruct (Hin s) as (pg0 & pg & _ & Hb & _ & _ & Hcells); [lia|].
    exists pg. split; [exact Hb|]. exact (Hcells i pt Hi Hp).
Qed.

(** ** Aggregation driver: rescan and empty input *)

Lemma build_hash_table_loop_spec (n : nat) :
  forall (i : nat) (st st' : AggState),
    build_hash_table_loop i n st = Done st' ->
    (forall k, (i <= k < i + n)%nat ->
       hash_entries (store st') !! k = Some []
       /\ exists ph, perhash st' !! k = Some ph /\ hashtable ph = true)
    /\ (forall k, (k < i)%nat ->
          hash_entries (store st') !! k = hash_entries (store st) !! k
          /\ perhash st' !! k = perhash st !! k)
    /\ pergroups (store st') = pergroups (store st)
    /\ pertrans (store st') = pertrans (store st)
    /\ fmgr_trace (store st') = fmgr_trace (store st)
    /\ outerPlan st' = outerPlan st
    /\ table_filled st' = table_filled st
    /\ agg_done st' = agg_done st
    /\ aggstrategy st' = aggstrategy st
    /\ numaggs st' = numaggs st.
Proof.
  induction n as [|n IH]; intros i st st' H.
  - simpl in H. injection H as <-.
    split; [intros k Hk; lia|]. split; [auto|]. repeat split.
  - simpl in H.
    destruct (perhash st !! i) as [ph|] eqn:Hph; [|discriminate].
    destruct (i <? length (hash_entries (store st)))%nat eqn:Hlen; [|discriminate].
    apply Nat.ltb_lt in Hlen.
    destruct (IH _ _ _ H) as (Hnew & Hold & Hpg & Hpt & Htr & Hop & Htf & Had & Has & Hna).
    simpl in Hold, Hpg, Hpt, Htr, Hop, Htf, Had, Has, Hna.
    split.
    + intros k Hk. destruct (decide (k = i)) as [->|Hne].
      * destruct (Hold i) as [He Hp]; [lia|]. rewrite He, Hp. split.
        { apply list_lookup_insert_eq. exact Hlen. }
        { exists (set_hashtable ph true). split; [|reflexivity].
          apply list_lookup_insert_eq. apply lookup_lt_Some in Hph. exact Hph. }
      * apply Hnew. lia.
    + split.
      * intros k Hk. destruct (Hold k) as [He Hp]; [lia|]. rewrite He, Hp.
        rewrite !list_lookup_insert_ne by lia. split; reflexivity.
      * repeat split; assumption.
Qed.

Lemma build_hash_table_spec (st st' : AggState) :
  build_hash_table st = Done st' ->
  (forall k, (k < num_hashes st)%nat ->
     hash_entries (store st') !! k = Some []
     /\ exists ph, perhash st' !! k = Some ph /\ hashtable ph = true)
  /\ pergroups (store st') = pergroups (store st)
  /\ outerPlan st' = outerPlan st
  /\ agg_done st' = agg_done st.
Proof.
  unfold build_hash_table. intros H.
  destruct (build_hash_table_loop_spec _ _ _ _ H)
    as (Hnew & _ & Hpg & _ & _ & Hop & _ & Had & _ & _).
  split; [intros k Hk; apply Hnew; lia|]. repeat split; assumption.
Qed.

Lemma if_true_eq {A : Type} (a b : A) : (if true then a else b) = a.
Proof. reflexivity. Qed.

Lemma if_false_eq {A : Type} (a b : A) : (if false then a else b) = b.
Proof. reflexivity. Qed.

Lemma negb_true_eq : negb true = false.
Proof. reflexivity. Qed.

Lemma negb_false_eq : negb false = true.
Proof. reflexivity. Qed.

(** Evaluation of the boolean tests of a run, by rewriting. *)
Ltac bool_steps H :=
  repeat first
    [ rewrite negb_true_eq in H | rewrite negb_false_eq in H
    | rewrite andb_true_l in H | rewrite andb_false_l in H
    | rewrite orb_true_l in H | rewrite orb_false_l in H
    | rewrite if_true_eq in H | rewrite if_false_eq in H ].

(** X14. Rescan of a hash aggregation whose table is filled.  When no
    parameter of the input has changed the groups are kept: neither the
    transition states nor the child plan are touched, only the iterator of
    the first table is put back to the start.  Otherwise every hash table is
    emptied and the node is marked as not filled, so that the next call
    reads the input again; the child is rescanned here unless its own
    parameters changed.  In both cases [agg_done] is cleared. *)
Theorem rescan_of_filled_hash_aggregation (params_overlap : bool)
    (node node' : AggState) :
  aggstrategy node = AGG_HASHED ->
  table_filled node = true ->
  ExecReScanAgg params_overlap node = Done node' ->
  agg_done node' = false
  /\ (chgParam (outerPlan node) = false -> params_overlap = false ->
      store node' = store node
      /\ outerPlan node' = outerPlan node
      /\ table_filled node' = true
      /\ current_set node' = 0%nat
      /\ exists ph, perhash node !! 0%nat = Some ph
                    /\ perhash node' = <[0%nat := set_hashiter ph 0]> (perhash node))
  /\ (chgParam (outerPlan node) = true \/ params_overlap = true ->
      table_filled node' = false
      /\ (forall k, (k < num_hashes node)%nat ->
            hash_entries (store node') !! k = Some []
            /\ exists ph, perhash node' !! k = Some ph /\ hashtable ph = true)
      /\ pergroups (store node') = pergroups (store node)
      /\ outerPlan node'
         = (if chgParam (outerPlan node) then outerPlan node
            else ExecReScan (outerPlan node))).
Proof.
  intros Hs Hfilled H. unfold ExecReScanAgg in H. cbv zeta in H.
  assert (Hh : AggStrategy_eqb (aggstrategy node) AGG_HASHED = true)
    by (rewrite Hs; reflexivity).
  change (aggstrategy (set_agg_done node false)) with (aggstrategy node) in H.
  change (table_filled (set_agg_done node false)) with (table_filled node) in H.
  change (outerPlan (set_agg_done node false)) with (outerPlan node) in H.
  rewrite Hh, Hfilled in H.
  destruct (chgParam (outerPlan node)) eqn:Hchg;
    destruct params_overlap eqn:Hpar; bool_steps H.
  4: { (* the table is kept *)
    apply outcome_bind_inv in H. destruct H as (st & Hreset & H).
    injection H as <-. unfold ResetTupleHashIterator in Hreset.
    change (perhash (set_agg_done node false)) with (perhash node) in Hreset.
    destruct (perhash node !! 0%nat) as [ph|] eqn:Hph; [|discriminate].
    destruct (hashtable ph); [|discriminate]. injection Hreset as <-.
    split; [reflexivity|]. split.
    - intros _ _. split; [reflexivity|]. split; [reflexivity|].
      split; [exact Hfilled|]. split; [reflexivity|].
      exists ph. split; reflexivity.
    - intros [Hc|Hc]; discriminate. }
  all: apply outcome_bind_inv in H; destruct H as (pts & _ & H);
    apply outcome_bind_inv in H; destruct H as (vals & _ & H);
    apply outcome_bind_inv in H; destruct H as (nulls & _ & H);
    apply outcome_bind_inv in H; destruct H as (st4 & H4 & H);
    bool_steps H4;
    apply outcome_bind_inv in H4; destruct H4 as (stb & Hb & H4);
    injection H4 as <-;
    apply outcome_bind_inv in H; destruct H as (st5 & H5 & H);
    bool_steps H5; injection H5 as <-;
    destruct (build_hash_table_spec _ _ Hb) as (Hnew & Hpg & Hop & Had);
    change (outerPlan stb = outerPlan node) in Hop;
    change (pergroups (store stb) = pergroups (store node)) in Hpg;
    change (agg_done stb = false) in Had;
    change (outerPlan (set_table_filled stb false)) with (outerPlan stb) in H;
    rewrite Hop, Hchg in H; bool_steps H; injection H as <-;
    (split; [exact Had|]);
    (split; [intros; discriminate|]);
    intros _;
    (split; [reflexivity|]);
    (split; [intros k Hk; apply Hnew; exact Hk|]);
    (split; [exact Hpg|]);
    cbn [outerPlan set_outerPlan set_table_filled];
    rewrite ?Hop; reflexivity.
Qed.

Lemma reset_pergroups_spec (numaggs' : nat) (n : nat) :
  forall (setno : nat) (pgs pgs' : list (list AggStatePerGroupData)),
    reset_pergroups numaggs' setno n pgs = Done pgs' ->
    length pgs' = length pgs
    /\ (forall s, (s < setno \/ setno + n <= s)%nat -> pgs' !! s = pgs !! s)
    /\ (forall s, (setno <= s < setno + n)%nat ->
          exists pg, pgs !! s = Some pg
            /\ pgs' !! s = Some (replicate numaggs' (mkPerGroup 0 false false)
                                 ++ drop numaggs' pg)).
Proof.
  induction n as [|n IH]; intros setno pgs pgs' H.
  - simpl in H. injection H as <-. split; [reflexivity|].
    split; [reflexivity|]. intros s Hs. lia.
  - simpl in H. destruct (pgs !! setno) as [pg|] eqn:Hpg; [|discriminate].
    unfold MemSet in H.
    destruct (numaggs' <=? length pg)%nat; [|discriminate].
    cbn [mbind outcome_bind] in H.
    destruct (IH _ _ _ H) as (Hlen & Hout & Hin). rewrite length_insert in Hlen.
    split; [exact Hlen|]. split.
    + intros s Hs. rewrite Hout by lia. apply list_lookup_insert_ne. lia.
    + intros s Hs. destruct (decide (s = setno)) as [->|Hne].
      * exists pg. split; [exact Hpg|]. rewrite Hout by lia.
        apply list_lookup_insert_eq. apply lookup_lt_Some in Hpg. exact Hpg.
      * destruct (Hin s) as (pg1 & H1 & H2); [lia|].
        rewrite list_lookup_insert_ne in H1 by congruence.
        exists pg1. split; assumption.
Qed.

Lemma initialize_phase_one (st st' : AggState) :
  initialize_phase st 1 = Done st' ->
  phase st' = 1%Z /\ current_phase st' = 1%Z /\ sort_in st' = None
  /\ store st' = store st /\ outerPlan st' = outerPlan st
  /\ grp_firstTuple st' = grp_firstTuple st /\ agg_done st' = agg_done st
  /\ ss_ss_ScanTupleSlot st' = ss_ss_ScanTupleSlot st.
Proof.
  unfold initialize_phase. intros H.
  change (1 <=? 1)%Z with true in H. cbv iota in H.
  run_inv; repeat split; reflexivity.
Qed.


Lemma build_hash_table_frame (st st' : AggState) :
  build_hash_table st = Done st' ->
  exists entries hashes,
    st' = set_perhash
            (set_store st (set_hash_entries (store st) entries)) hashes.
Proof.
  unfold build_hash_table. generalize (num_hashes st) 0%nat. intros n.
  revert st st'.
  induction n as [|n IH]; intros st st' i H.
  - simpl in H. injection H as <-.
    exists (hash_entries (store st)), (perhash st).
    destruct st. match goal with s : TransStore |- _ => destruct s end.
    reflexivity.
  - simpl in H.
    destruct (perhash st !! i) as [ph|]; [|discriminate].
    destruct (i <? length (hash_entries (store st)))%nat; [|discriminate].
    destruct (IH _ _ _ H) as (entries & hashes & ->).
    exists entries, hashes. reflexivity.
Qed.

(** X15. Rescan of an aggregation that is not hashed puts the node back
    to where a first call starts: phase 1, no group projected or pending
    ([projected_set] is -1, [grp_firstTuple] is NULL, the scan slot is empty),
    [input_done] and [agg_done] cleared, no sorted input left over, and the
    first [numaggs] transition states of every grouping set zeroed; the
    child plan is rescanned unless a parameter of its own has changed. *)
Theorem rescan_of_direct_aggregation (params_overlap : bool)
    (node node' : AggState) :
  aggstrategy node <> AGG_HASHED ->
  ExecReScanAgg params_overlap node = Done node' ->
  agg_done node' = false /\ input_done node' = false
  /\ projected_set node' = (-1)%Z
  /\ phase node' = 1%Z /\ current_phase node' = 1%Z
  /\ grp_firstTuple node' = None /\ sort_in node' = None
  /\ tts_empty (ss_ss_ScanTupleSlot node') = true
  /\ (exists pgs pgs',
        pergroups (store node) = Some pgs
        /\ pergroups (store node') = Some pgs'
        /\ length pgs' = length pgs
        /\ forall s, (s < Nat.max (maxsets node) 1)%nat ->
             exists pg, pgs !! s = Some pg
               /\ pgs' !! s
                  = Some (replicate (numaggs node) (mkPerGroup 0 false false)
                          ++ drop (numaggs node) pg))
  /\ outerPlan node'
     = (if chgParam (outerPlan node) then outerPlan node
        else ExecReScan (outerPlan node)).
Proof.
  intros Hs H. unfold ExecReScanAgg in H. cbv zeta in H.
  assert (Hh : AggStrategy_eqb (aggstrategy node) AGG_HASHED = false)
    by (destruct (aggstrategy node); try reflexivity; congruence).
  change (aggstrategy (set_agg_done node false)) with (aggstrategy node) in H.
  rewrite Hh in H. bool_steps H.
  apply outcome_bind_inv in H; destruct H as (pts & _ & H).
  apply outcome_bind_inv in H; destruct H as (vals & _ & H).
  apply outcome_bind_inv in H; destruct H as (nulls & _ & H).
  apply outcome_bind_inv in H; destruct H as (st4 & H4 & H).
  apply outcome_bind_inv in H; destruct H as (st5 & H5 & H).
  bool_steps H4. bool_steps H5.
  assert (Hst4 : pergroups (store st4) = pergroups (store node)
                 /\ outerPlan st4 = outerPlan node
                 /\ grp_firstTuple st4 = None
                 /\ tts_empty (ss_ss_ScanTupleSlot st4) = true
                 /\ numaggs st4 = numaggs node
                 /\ agg_done st4 = false).
  { destruct (AggStrategy_eqb _ AGG_MIXED).
    - apply outcome_bind_inv in H4; destruct H4 as (stb & Hb & H4).
      injection H4 as <-.
      destruct (build_hash_table_frame _ _ Hb) as (entries & hashes & ->).
      repeat split.
    - injection H4 as <-. repeat split. }
  clear H4. destruct Hst4 as (Hpg4 & Hop4 & Hft4 & Hss4 & Hna4 & Had4).
  destruct (pergroups (store st4)) as [pgs4|] eqn:Hpgs4; [|discriminate].
  apply outcome_bind_inv in H5; destruct H5 as (pgs' & Hreset & H5).
  apply outcome_bind_inv in H5; destruct H5 as (stp & Hphase & H5).
  injection H5 as <-.
  destruct (initialize_phase_one _ _ Hphase)
    as (Hp1 & Hp2 & Hp3 & Hp4 & Hp5 & Hp6 & Hp7 & Hp8).
  change (store stp = set_pergroups (store st4) (Some pgs')) in Hp4.
  change (outerPlan stp = outerPlan st4) in Hp5.
  change (grp_firstTuple stp = grp_firstTuple st4) in Hp6.
  change (agg_done stp = agg_done st4) in Hp7.
  change (ss_ss_ScanTupleSlot stp = ss_ss_ScanTupleSlot st4) in Hp8.
  destruct (reset_pergroups_spec _ _ _ _ _ Hreset) as (Hlen & _ & Hin).
  change (outerPlan (set_projected_set (set_input_done stp false) (-1)))
    with (outerPlan stp) in H.
  rewrite Hp5, Hop4 in H.
  assert (Hres : agg_done node' = agg_done stp
                 /\ input_done node' = false
                 /\ projected_set node' = (-1)%Z
                 /\ phase node' = phase stp
                 /\ current_phase node' = current_phase stp
                 /\ grp_firstTuple node' = grp_firstTuple stp
                 /\ sort_in node' = sort_in stp
                 /\ ss_ss_ScanTupleSlot node' = ss_ss_ScanTupleSlot stp
                 /\ store node' = store stp
                 /\ outerPlan node'
                    = (if chgParam (outerPlan node) then outerPlan stp
                       else ExecReScan (outerPlan node))).
  { destruct (chgParam (outerPlan node)); bool_steps H; injection H as <-;
      repeat split. }
  destruct Hres as (R1 & R2 & R3 & R4 & R5 & R6 & R7 & R8 & R9 & R10).
  split; [rewrite R1, Hp7; exact Had4|]. split; [exact R2|].
  split; [exact R3|]. split; [rewrite R4; exact Hp1|].
  split; [rewrite R5; exact Hp2|]. split; [rewrite R6, Hp6; exact Hft4|].
  split; [rewrite R7; exact Hp3|]. split; [rewrite R8, Hp8; exact Hss4|].
  split.
  - exists pgs4, pgs'. split; [symmetry; exact Hpg4|].
    split; [rewrite R9, Hp4; reflexivity|]. split; [exact Hlen|].
    intros s Hlt. rewrite <- Hna4. apply Hin. lia.
  - rewrite R10, Hp5, Hop4. reflexivity.
Qed.

(** X16. A grouped aggregation without grouping sets over an input that
    has no rows returns no row: the first call answers NULL and marks the
    node as done without initializing, advancing or finalizing any
    transition state, and every further call answers NULL again. *)
Theorem grouped_aggregation_of_empty_input (BATCHSIZE : nat)
    (indeterminate_slot : option Slot) (fuel : nat) (vas : VectorAggState)
    (ph : AggStatePerPhaseData) (nd : Agg) :
  agg_done (aggstate vas) = false ->
  input_done (aggstate vas) = false ->
  projected_set (aggstate vas) = (-1)%Z ->
  grp_firstTuple (aggstate vas) = None ->
  sort_in (aggstate vas) = None ->
  pending (outerPlan (aggstate vas)) = [] ->
  cur_phase (aggstate vas) = Done ph ->
  ph_aggstrategy ph = AGG_SORTED ->
  numsets ph = 0%nat ->
  aggnode ph = Some nd ->
  node_aggstrategy nd <> AGG_PLAIN ->
  exists vas',
    VExecAgg BATCHSIZE indeterminate_slot (S fuel) vas = Done (None, vas')
    /\ agg_done (aggstate vas') = true
    /\ store (aggstate vas') = store (aggstate vas)
    /\ resultSlot vas' = resultSlot vas
    /\ VExecAgg BATCHSIZE indeterminate_slot (S fuel) vas' = Done (None, vas').
Proof.
  intros Hdone Hinput Hps Hft Hsi Hpend Hph Hstrat Hsets Hnode Hplain.
  assert (Hnp : AggStrategy_eqb (node_aggstrategy nd) AGG_PLAIN = false)
    by (destruct (node_aggstrategy nd); try reflexivity; congruence).
  eexists. split; [|split; [|split; [|split]]].
  - unfold VExecAgg. cbv zeta. rewrite Hdone. cbn [negb].
    rewrite Hph. cbn [mbind outcome_bind]. rewrite Hstrat.
    unfold agg_retrieve_direct. rewrite Hph. cbn [mbind outcome_bind].
    rewrite Hsets, Hnode. cbn [agg_retrieve_direct_loop]. rewrite Hdone.
    unfold agg_retrieve_direct_body. cbv zeta. rewrite Hinput, Hps.
    cbn [andb l_numGroupingSets].
    unfold agg_next_group. cbv zeta. rewrite Hps.
    cbn [Z.leb Z.compare andb mbind outcome_bind l_node l_numGroupingSets].
    simpl input_done. rewrite Hinput. rewrite Hnp.
    cbn [negb andb Z.eqb mbind outcome_bind].
    unfold agg_start_group. cbv zeta.
    simpl grp_firstTuple. rewrite Hft.
    unfold fetch_input_tuple. simpl sort_in. rewrite Hsi.
    unfold ExecProcNode. simpl outerPlan. rewrite Hpend.
    cbn [fst snd mbind outcome_bind].
    unfold no_input_tuples. cbn [Nat.ltb Nat.leb l_node mbind outcome_bind].
    rewrite Hnp. cbn [negb mbind outcome_bind fst snd option_map TupIsNull].
    reflexivity.
  - reflexivity.
  - reflexivity.
  - reflexivity.
  - reflexivity.
Qed.

(** ** Hash aggregation: looking up the groups of a batch *)

Lemma fill_hashslot_spec (cols : list vtype) (idx : list nat) (row : nat) (n : nat) :
  forall (j : nat) (vals : list Datum) (nulls : list bool)
         (vals' : list Datum) (nulls' : list bool),
    fill_hashslot cols idx row j n vals nulls = Done (vals', nulls') ->
    length vals' = length vals /\ length nulls' = length nulls
    /\ take j vals' = take j vals /\ take j nulls' = take j nulls
    /\ zip_with mkND (take n (drop j vals')) (take n (drop j nulls'))
       = row_key cols (drop j idx) n row.
Proof.
  induction n as [|n IH]; intros j vals nulls vals' nulls' H.
  - simpl in H. injection H as <- <-. repeat split; reflexivity.
  - simpl in H.
    destruct (idx !! j) as [[|varNumber]|] eqn:Hidx; try discriminate.
    destruct (cols !! varNumber) as [column|] eqn:Hcol; [|discriminate].
    destruct (v_values column !! row) as [v|] eqn:Hv; [|discriminate].
    destruct (v_isnull column !! row) as [b|] eqn:Hb; [|discriminate].
    destruct ((j <? length vals)%nat && (j <? length nulls)%nat) eqn:Hin;
      [|discriminate].
    apply andb_true_iff in Hin. destruct Hin as [Hin1 Hin2].
    apply Nat.ltb_lt in Hin1, Hin2.
    destruct (IH _ _ _ _ _ H) as (Hl1 & Hl2 & Ht1 & Ht2 & Hkey).
    rewrite length_insert in Hl1. rewrite length_insert in Hl2.
    assert (Hvj : vals' !! j = Some v).
    { rewrite <- (lookup_take_lt vals' (S j) j) by lia. rewrite Ht1.
      rewrite lookup_take_lt by lia. apply list_lookup_insert_eq. exact Hin1. }
    assert (Hnj : nulls' !! j = Some b).
    { rewrite <- (lookup_take_lt nulls' (S j) j) by lia. rewrite Ht2.
      rewrite lookup_take_lt by lia. apply list_lookup_insert_eq. exact Hin2. }
    split; [exact Hl1|]. split; [exact Hl2|]. split; [|split].
    + pose proof (f_equal (take j) Ht1) as Hp. rewrite !take_take in Hp.
      replace (j `min` S j)%nat with j in Hp by lia. rewrite Hp.
      apply take_insert_ge. lia.
    + pose proof (f_equal (take j) Ht2) as Hp. rewrite !take_take in Hp.
      replace (j `min` S j)%nat with j in Hp by lia. rewrite Hp.
      apply take_insert_ge. lia.
    + rewrite (drop_S _ _ _ Hvj), (drop_S _ _ _ Hnj). simpl take. simpl zip_with.
      rewrite Hkey. unfold row_key. rewrite (drop_S _ _ _ Hidx). simpl take.
      simpl flat_map. rewrite Hcol, Hv, Hb. reflexivity.
Qed.

Lemma find_entry_spec (same : list NullableDatum -> list NullableDatum -> bool)
    (key : list NullableDatum) (entries : list TupleHashEntryData) :
  forall (i e : nat),
    find_entry same key entries i = Some e ->
    (i <= e)%nat
    /\ exists ent, entries !! (e - i)%nat = Some ent
                   /\ same (firstTuple ent) key = true.
Proof.
  induction entries as [|x rest IH]; intros i e H; [discriminate|].
  simpl in H. destruct (same (firstTuple x) key) eqn:Hs.
  - injection H as <-. split; [lia|]. exists x. rewrite Nat.sub_diag.
    split; [reflexivity|exact Hs].
  - destruct (IH _ _ H) as (Hle & ent & Hent & Hsame). split; [lia|].
    exists ent. split; [|exact Hsame].
    replace (e - i)%nat with (S (e - S i)) by lia. exact Hent.
Qed.

Lemma initialize_entry_loop_spec (setno : nat) (n : nat) :
  forall (transno : nat) (pts : list AggStatePerTransData)
         (acc : list AggStatePerGroupData)
         (pts' : list AggStatePerTransData) (pg : list AggStatePerGroupData),
    initialize_entry_loop setno transno n pts acc = Done (pts', pg) ->
    same_initial_states pts pts'
    /\ exists fresh, pg = acc ++ fresh /\ length fresh = n
         /\ forall k pt, (k < n)%nat -> pts !! (transno + k)%nat = Some pt ->
              fresh !! k = Some (initial_state pt).
Proof.
  induction n as [|n IH]; intros transno pts acc pts' pg H.
  - simpl in H. injection H as <- <-.
    split; [apply same_initial_states_refl|]. exists [].
    rewrite app_nil_r. split; [reflexivity|]. split; [reflexivity|].
    intros k pt Hk. lia.
  - simpl in H. destruct (pts !! transno) as [pt0|] eqn:Hpt; [|discriminate].
    destruct (initialize_aggregate setno pt0) as [[pt1 g1]|f] eqn:Hinit;
      [|discriminate].
    cbn [mbind outcome_bind fst snd] in H.
    destruct (initialize_aggregate_spec _ _ _ _ Hinit) as [-> Hsame].
    destruct (IH _ _ _ _ _ H) as (Hs & fresh & -> & Hlen & Hcells).
    pose proof (same_initial_states_insert pts transno pt0 pt1 Hpt Hsame) as Hs0.
    split; [exact (same_initial_states_trans _ _ _ Hs0 Hs)|].
    exists (initial_state pt0 :: fresh). rewrite <- app_assoc.
    split; [reflexivity|]. split; [simpl; lia|].
    intros k pt Hk Hp. destruct k as [|k].
    + rewrite Nat.add_0_r in Hp. simpl. congruence.
    + simpl. destruct Hs0 as [_ Hs0]. destruct (Hs0 _ _ Hp) as (q & Hq & Eq).
      rewrite <- Eq. apply Hcells; [lia|].
      replace (S transno + k)%nat with (transno + S k)%nat by lia. exact Hq.
Qed.

Lemma fresh_group_mono (pts pts1 : list AggStatePerTransData) (nt : nat)
    (e : TupleHashEntryData) :
  same_initial_states pts pts1 -> fresh_group pts1 nt e -> fresh_group pts nt e.
Proof.
  intros [_ Hs] (pg & Ha & Hl & Hc). exists pg. split; [exact Ha|].
  split; [exact Hl|]. intros i pt Hi Hp.
  destruct (Hs i pt Hp) as (q & Hq & Eq). rewrite <- Eq. apply Hc; assumption.
Qed.

Lemma lookup_rows_spec (nt setno : nat) (ph : AggStatePerHashData)
    (vslot : VectorTupleSlot) (n : nat) :
  forall (i : nat) (ls ls' : LookupState),
    lookup_rows nt setno ph vslot i n ls = Done ls' ->
    same_initial_states (lk_pertrans ls) (lk_pertrans ls')
    /\ length (lk_vector ls') = length (lk_vector ls)
    /\ (exists new, lk_entries ls' = lk_entries ls ++ new
                    /\ Forall (fresh_group (lk_pertrans ls) nt) new)
    /\ (forall k, (k < i \/ i + n <= k)%nat ->
          lk_vector ls' !! k = lk_vector ls !! k)
    /\ (forall k, (i <= k < i + n)%nat ->
          (skip vslot !! k = Some true ->
           lk_vector ls' !! k = lk_vector ls !! k)
          /\ (skip vslot !! k = Some false ->
              exists e entry,
                lk_vector ls' !! k = Some (Some e)
                /\ lk_entries ls' !! e = Some entry
                /\ (firstTuple entry
                    = row_key (columns vslot) (hashGrpColIdxInput ph)
                        (numhashGrpCols ph) k
                    \/ ht_same_key ph (firstTuple entry)
                         (row_key (columns vslot) (hashGrpColIdxInput ph)
                            (numhashGrpCols ph) k) = true))).
Proof.
  induction n as [|n IH]; intros i ls ls' H.
  - simpl in H. injection H as <-.
    split; [apply same_initial_states_refl|]. split; [reflexivity|].
    split; [exists []; rewrite app_nil_r; split; [reflexivity|constructor]|].
    split; [reflexivity|]. intros k Hk. lia.
  - simpl in H. destruct (skip vslot !! i) as [[|]|] eqn:Hskip; [| |discriminate].
    + (* a skipped row *)
      destruct (IH _ _ _ H) as (Hs & Hlen & Hnew & Hout & Hin).
      split; [exact Hs|]. split; [exact Hlen|]. split; [exact Hnew|].
      split; [intros k Hk; apply Hout; lia|].
      intros k Hk. destruct (decide (k = i)) as [->|Hne].
      * split; [intros _; apply Hout; lia|]. intros Hc. congruence.
      * apply Hin. lia.
    + destruct (fill_hashslot _ _ _ _ _ _ _) as [[vals nulls]|f] eqn:Hfill;
        [|discriminate].
      cbn [mbind outcome_bind fst snd] in H.
      destruct (fill_hashslot_spec _ _ _ _ _ _ _ _ _ Hfill)
        as (_ & _ & _ & _ & Hkey).
      rewrite !drop_0 in Hkey. rewrite Hkey in H. clear Hkey Hfill.
      set (key := row_key (columns vslot) (hashGrpColIdxInput ph)
                    (numhashGrpCols ph) i) in *.
      unfold LookupTupleHashEntry in H.
      destruct (find_entry (ht_same_key ph) key (lk_entries ls) 0) as [e0|] eqn:Hfind;
        cbn [fst snd mbind outcome_bind] in H.
      * (* the group exists *)
        destruct (i <? length (lk_vector ls))%nat eqn:Hi; [|discriminate].
        apply Nat.ltb_lt in Hi.
        destruct (IH _ _ _ H) as (Hs & Hlen & (new & Hnew & Hfresh) & Hout & Hin).
        cbn [lk_pertrans lk_vector lk_entries] in Hs, Hlen, Hnew, Hfresh, Hout, Hin.
        rewrite length_insert in Hlen.
        split; [exact Hs|]. split; [exact Hlen|].
        split; [exists new; split; assumption|].
        split; [intros k Hk; rewrite Hout by lia;
                apply list_lookup_insert_ne; lia|].
        intros k Hk. destruct (decide (k = i)) as [->|Hne].
        { split; [intros Hc; congruence|]. intros _.
          destruct (find_entry_spec _ _ _ _ _ Hfind) as (_ & ent & Hent & Hsame).
          rewrite Nat.sub_0_r in Hent.
          exists e0, ent. split; [|split].
          - rewrite Hout by lia. apply list_lookup_insert_eq. exact Hi.
          - rewrite Hnew. apply lookup_app_l_Some. exact Hent.
          - right. exact Hsame. }
        { destruct (Hin k) as [Hk1 Hk2]; [lia|]. split.
          - intros Hc. rewrite (Hk1 Hc). apply list_lookup_insert_ne. lia.
          - exact Hk2. }
      * (* a new group *)
        destruct (initialize_entry_loop setno 0 nt (lk_pertrans ls) [])
          as [[pts1 pg]|f] eqn:Hinit; [|discriminate].
        cbn [fst snd mbind outcome_bind] in H.
        destruct (i <? length (lk_vector ls))%nat eqn:Hi; [|discriminate].
        apply Nat.ltb_lt in Hi.
        destruct (initialize_entry_loop_spec _ _ _ _ _ _ _ Hinit)
          as (Hs1 & fresh & Hpg & Hflen & Hcells).
        simpl in Hpg. subst pg.
        assert (Hins : <[length (lk_entries ls) := mkEntry key (Some fresh)]>
                         (lk_entries ls ++ [mkEntry key None])
                       = lk_entries ls ++ [mkEntry key (Some fresh)]).
        { rewrite insert_app_r_alt by lia. rewrite Nat.sub_diag. reflexivity. }
        rewrite Hins in H. clear Hins.
        destruct (IH _ _ _ H) as (Hs & Hlen & (new & Hnew & Hfresh) & Hout & Hin).
        cbn [lk_pertrans lk_vector lk_entries] in Hs, Hlen, Hnew, Hfresh, Hout, Hin.
        rewrite length_insert in Hlen.
        split; [exact (same_initial_states_trans _ _ _ Hs1 Hs)|].
        split; [exact Hlen|]. split.
        { exists (mkEntry key (Some fresh) :: new). split.
          - rewrite Hnew, <- app_assoc. reflexivity.
          - constructor.
            + exists fresh. split; [reflexivity|]. split; [exact Hflen|].
              intros t pt Ht Hp. apply Hcells; [exact Ht|exact Hp].
            + eapply Forall_impl; [exact Hfresh|].
              intros e He. exact (fresh_group_mono _ _ _ _ Hs1 He). }
        split; [intros k Hk; rewrite Hout by lia;
                apply list_lookup_insert_ne; lia|].
        intros k Hk. destruct (decide (k = i)) as [->|Hne].
        { split; [intros Hc; congruence|]. intros _.
          exists (length (lk_entries ls)), (mkEntry key (Some fresh)).
          split; [|split].
          - rewrite Hout by lia. apply list_lookup_insert_eq. exact Hi.
          - rewrite Hnew, <- app_assoc. rewrite lookup_app_r by lia.
            rewrite Nat.sub_diag. reflexivity.
          - left. reflexivity. }
        { destruct (Hin k) as [Hk1 Hk2]; [lia|]. split.
          - intros Hc. rewrite (Hk1 Hc). apply list_lookup_insert_ne. lia.
          - exact Hk2. }
Qed.

(** X17. [lookup_hash_entry] gives every row of the batch that is not
    skipped the entry of its group and leaves skipped rows without one.  The
    entry of a row carries the row's key or a key the table holds equal to
    it; entries are only ever appended to the table, and the transition
    states of each entry created start from the initial values of the
    aggregates. *)
Theorem lookup_hash_entry_assigns_groups (BATCHSIZE : nat)
    (aggstate aggstate' : AggState) (vec : list (option nat))
    (vslot : VectorTupleSlot) (ph : AggStatePerHashData)
    (entries : list TupleHashEntryData) :
  ecxt_outertuple (tmpcontext aggstate) = Some (Vector vslot) ->
  perhash aggstate !! current_set aggstate = Some ph ->
  hash_entries (store aggstate) !! current_set aggstate = Some entries ->
  lookup_hash_entry BATCHSIZE aggstate = Done (vec, aggstate') ->
  length vec = BATCHSIZE
  /\ exists new,
       hash_entries (store aggstate') !! current_set aggstate
       = Some (entries ++ new)
       /\ Forall (fresh_group (pertrans (store aggstate)) (numtrans aggstate)) new
       /\ forall k, (k < BATCHSIZE)%nat ->
            (skip vslot !! k = Some true -> vec !! k = Some None)
            /\ (skip vslot !! k = Some false ->
                exists e entry,
                  vec !! k = Some (Some e)
                  /\ (entries ++ new) !! e = Some entry
                  /\ (firstTuple entry
                      = row_key (columns vslot) (hashGrpColIdxInput ph)
                          (numhashGrpCols ph) k
                      \/ ht_same_key ph (firstTuple entry)
                           (row_key (columns vslot) (hashGrpColIdxInput ph)
                              (numhashGrpCols ph) k) = true)).
Proof.
  intros Hslot Hph Hentries H. unfold lookup_hash_entry in H.
  rewrite Hslot, Hph, Hentries in H.
  destruct (hashtable ph); [|discriminate].
  destruct (largestGrpColIdx ph <=? tts_nvalid (tts vslot))%nat; [|discriminate].
  apply outcome_bind_inv in H. destruct H as (ls & Hrows & H).
  injection H as <- <-.
  destruct (lookup_rows_spec _ _ _ _ _ _ _ _ Hrows)
    as (_ & Hlen & (new & Hnew & Hfresh) & _ & Hin).
  cbn [lk_pertrans lk_vector lk_entries] in Hlen, Hnew, Hfresh, Hin.
  rewrite length_replicate in Hlen. split; [exact Hlen|].
  exists new. split.
  - simpl. rewrite Hnew. apply list_lookup_insert_eq.
    apply lookup_lt_Some in Hentries. exact Hentries.
  - split; [exact Hfresh|]. intros k Hk.
    destruct (Hin k) as [Hk1 Hk2]; [lia|]. split.
    + intros Hc. rewrite (Hk1 Hc). apply lookup_replicate. split; [reflexivity|exact Hk].
    + intros Hc. destruct (Hk2 Hc) as (e & entry & Hv & He & Hkey).
      exists e, entry. rewrite <- Hnew. repeat split; assumption.
Qed.

(** ** Sorted aggregation: the input of the later phases *)




(** ** Examples for the driver properties *)

(** Set 1 of the rollup groups by [x] only: column 2 is forced to null. *)
Lemma X12_witness :
  exists s',
    fst rollup_prepared = Some s'
    /\ grouped_cols (snd rollup_prepared) = [1%nat]
    /\ (TTS_EMPTY rollup_row = true ->
        TTS_EMPTY s' = false
        /\ Forall (fun b => b = true) (tts_isnull (base s')))
    /\ (TTS_EMPTY rollup_row = false ->
        tts_values (base s') = tts_values (base rollup_row)
        /\ forall k b, tts_isnull (base rollup_row) !! k = Some b ->
             tts_isnull (base s') !! k
             = Some (if ungrouped_column (all_grouped_cols rollup_state)
                          [1%nat] k
                     then true else b)).
Proof.
  apply (prepare_projection_slot_nulls_ungrouped rollup_state rollup_row 1
           rollup_phase [[1%nat; 2%nat]; [1%nat]] [1%nat]
           (fst rollup_prepared) (snd rollup_prepared)).
  - reflexivity.
  - reflexivity.
  - reflexivity.
  - vm_compute. reflexivity.
Defined.

Example rollup_nulls_second_column :
  option_map (fun s => tts_isnull (base s)) (fst rollup_prepared)
  = Some [false; true].
Proof. vm_compute. reflexivity. Qed.

(** At a boundary of the finer grouping set only: set 0 starts again from
    0, set 1 keeps its sum of 40. *)
Lemma X13_witness :
  exists pgs',
    pergroups (store rollup_reset) = Some pgs'
    /\ length pgs'
       = length [[mkPerGroup 15 false false]; [mkPerGroup 40 false false]]
    /\ current_set rollup_reset
       = ((if (1 =? 0)%nat then Nat.max (numsets rollup_phase) 1 else 1%nat) - 1)%nat
    /\ (forall s, ((if (1 =? 0)%nat then Nat.max (numsets rollup_phase) 1
                    else 1%nat) <= s)%nat ->
          pgs' !! s
          = [[mkPerGroup 15 false false]; [mkPerGroup 40 false false]] !! s)
    /\ (forall s i pt,
          (s < (if (1 =? 0)%nat then Nat.max (numsets rollup_phase) 1
                else 1%nat))%nat ->
          (i < numtrans rollup_state)%nat ->
          pertrans (store rollup_state) !! i = Some pt ->
          exists pg, pgs' !! s = Some pg /\ pg !! i = Some (initial_state pt)).
Proof.
  apply (initialize_aggregates_resets_first_sets rollup_state rollup_reset 1
           rollup_phase
           [[mkPerGroup 15 false false]; [mkPerGroup 40 false false]]).
  - reflexivity.
  - reflexivity.
  - vm_compute. reflexivity.
Defined.

Example rollup_resets_finer_set :
  pergroups (store rollup_reset)
  = Some [[mkPerGroup 0 false false]; [mkPerGroup 40 false false]].
Proof. vm_compute. reflexivity. Qed.

(** The hashed node after its first call, rescanned with unchanged
    parameters: the group of the key 5 is still in the table. *)
Lemma X14_witness :
  agg_done (rescanned false hashed_filled) = false
  /\ (chgParam (outerPlan hashed_filled) = false -> false = false ->
      store (rescanned false hashed_filled) = store hashed_filled
      /\ outerPlan (rescanned false hashed_filled) = outerPlan hashed_filled
      /\ table_filled (rescanned false hashed_filled) = true
      /\ current_set (rescanned false hashed_filled) = 0%nat
      /\ exists ph, perhash hashed_filled !! 0%nat = Some ph
                    /\ perhash (rescanned false hashed_filled)
                       = <[0%nat := set_hashiter ph 0]> (perhash hashed_filled))
  /\ (chgParam (outerPlan hashed_filled) = true \/ false = true ->
      table_filled (rescanned false hashed_filled) = false
      /\ (forall k, (k < num_hashes hashed_filled)%nat ->
            hash_entries (store (rescanned false hashed_filled)) !! k = Some []
            /\ exists ph, perhash (rescanned false hashed_filled) !! k = Some ph
                          /\ hashtable ph = true)
      /\ pergroups (store (rescanned false hashed_filled))
         = pergroups (store hashed_filled)
      /\ outerPlan (rescanned false hashed_filled)
         = (if chgParam (outerPlan hashed_filled) then outerPlan hashed_filled
            else ExecReScan (outerPlan hashed_filled))).
Proof.
  apply (rescan_of_filled_hash_aggregation false hashed_filled
           (rescanned false hashed_filled)).
  - vm_compute. reflexivity.
  - vm_compute. reflexivity.
  - vm_compute. reflexivity.
Defined.

Example rescan_keeps_or_empties_the_table :
  option_map (map firstTuple)
    (hash_entries (store (rescanned false hashed_filled)) !! 0%nat)
  = Some [[mkND 5 false]]
  /\ hash_entries (store (rescanned true hashed_filled)) !! 0%nat = Some []
  /\ table_filled (rescanned true hashed_filled) = false.
Proof.
  split; [vm_compute; reflexivity|]. split; vm_compute; reflexivity.
Qed.

(** The sorted node after its first call, rescanned. *)
Lemma X15_witness :
  agg_done (rescanned false (aggstate sorted_after_one)) = false
  /\ input_done (rescanned false (aggstate sorted_after_one)) = false
  /\ projected_set (rescanned false (aggstate sorted_after_one)) = (-1)%Z
  /\ phase (rescanned false (aggstate sorted_after_one)) = 1%Z
  /\ current_phase (rescanned false (aggstate sorted_after_one)) = 1%Z
  /\ grp_firstTuple (rescanned false (aggstate sorted_after_one)) = None
  /\ sort_in (rescanned false (aggstate sorted_after_one)) = None
  /\ tts_empty (ss_ss_ScanTupleSlot (rescanned false (aggstate sorted_after_one)))
     = true
  /\ (exists pgs pgs',
        pergroups (store (aggstate sorted_after_one)) = Some pgs
        /\ pergroups (store (rescanned false (aggstate sorted_after_one)))
           = Some pgs'
        /\ length pgs' = length pgs
        /\ forall s, (s < Nat.max (maxsets (aggstate sorted_after_one)) 1)%nat ->
             exists pg, pgs !! s = Some pg
               /\ pgs' !! s
                  = Some (replicate (numaggs (aggstate sorted_after_one))
                            (mkPerGroup 0 false false)
                          ++ drop (numaggs (aggstate sorted_after_one)) pg))
  /\ outerPlan (rescanned false (aggstate sorted_after_one))
     = (if chgParam (outerPlan (aggstate sorted_after_one))
        then outerPlan (aggstate sorted_after_one)
        else ExecReScan (outerPlan (aggstate sorted_after_one))).
Proof.
  apply (rescan_of_direct_aggregation false (aggstate sorted_after_one)
           (rescanned false (aggstate sorted_after_one))).
  - vm_compute. discriminate.
  - vm_compute. reflexivity.
Defined.

(** [GROUP BY x] over no rows: no row, twice. *)
Lemma X16_witness :
  exists vas',
    VExecAgg 4 None 5 (grouped_sum []) = Done (None, vas')
    /\ agg_done (aggstate vas') = true
    /\ store (aggstate vas') = store (aggstate (grouped_sum []))
    /\ resultSlot vas' = resultSlot (grouped_sum [])
    /\ VExecAgg 4 None 5 vas' = Done (None, vas').
Proof.
  apply (grouped_aggregation_of_empty_input 4 None 4 (grouped_sum [])
           (mkPhase AGG_SORTED 0 None None (Some [Some same_key])
              (Some grouped_node) None (Some sum_column_direct))
           grouped_node).
  - reflexivity.
  - reflexivity.
  - reflexivity.
  - reflexivity.
  - reflexivity.
  - reflexivity.
  - reflexivity.
  - reflexivity.
  - reflexivity.
  - reflexivity.
  - simpl. discriminate.
Defined.

(** Rows 0 and 3 have the key 5, row 2 the key 7, row 1 is skipped: two
    entries are created, rows 0 and 3 share the first. *)
Lemma X17_witness :
  length (fst looked_up) = 4%nat
  /\ exists new,
       hash_entries (store (snd looked_up)) !! current_set lookup_state
       = Some ([] ++ new)
       /\ Forall (fresh_group (pertrans (store lookup_state))
                    (numtrans lookup_state)) new
       /\ forall k, (k < 4)%nat ->
            (skip (batch4 [false; true; false; false] [5; 5; 7; 5]%Z) !! k
             = Some true -> fst looked_up !! k = Some None)
            /\ (skip (batch4 [false; true; false; false] [5; 5; 7; 5]%Z) !! k
                = Some false ->
                exists e entry,
                  fst looked_up !! k = Some (Some e)
                  /\ ([] ++ new) !! e = Some entry
                  /\ (firstTuple entry
                      = row_key
                          (columns (batch4 [false; true; false; false]
                                      [5; 5; 7; 5]%Z))
                          (hashGrpColIdxInput
                             (mkPerHash true 0 (mkSlot true false 0 [0%Z] [false])
                                (fun a b => bool_decide (map value a = map value b))
                                1 1 1 [1%nat]))
                          (numhashGrpCols
                             (mkPerHash true 0 (mkSlot true false 0 [0%Z] [false])
                                (fun a b => bool_decide (map value a = map value b))
                                1 1 1 [1%nat]))
                          k
                      \/ ht_same_key
                           (mkPerHash true 0 (mkSlot true false 0 [0%Z] [false])
                              (fun a b => bool_decide (map value a = map value b))
                              1 1 1 [1%nat])
                           (firstTuple entry)
                           (row_key
                              (columns (batch4 [false; true; false; false]
                                          [5; 5; 7; 5]%Z))
                              (hashGrpColIdxInput
                                 (mkPerHash true 0
                                    (mkSlot true false 0 [0%Z] [false])
                                    (fun a b =>
                                       bool_decide (map value a = map value b))
                                    1 1 1 [1%nat]))
                              (numhashGrpCols
                                 (mkPerHash true 0
                                    (mkSlot true false 0 [0%Z] [false])
                                    (fun a b =>
                                       bool_decide (map value a = map value b))
                                    1 1 1 [1%nat]))
                              k) = true)).
Proof.
  apply (lookup_hash_entry_assigns_groups 4 lookup_state (snd looked_up)
           (fst looked_up)
           (batch4 [false; true; false; false] [5; 5; 7; 5]%Z)
           (mkPerHash true 0 (mkSlot true false 0 [0%Z] [false])
              (fun a b => bool_decide (map value a = map value b))
              1 1 1 [1%nat])
           []).
  - reflexivity.
  - vm_compute. reflexivity.
  - vm_compute. reflexivity.
  - vm_compute. reflexivity.
Defined.

Example lookup_shares_the_entry_of_a_key :
  fst looked_up = [Some 0%nat; None; Some 1%nat; Some 0%nat]
  /\ option_map (map firstTuple)
       (hash_entries (store (snd looked_up)) !! 0%nat)
     = Some [[mkND 5 false]; [mkND 7 false]].
Proof. split; vm_compute; reflexivity. Qed.


(** ** Scans that need no projection *)



Example swapped_columns_need_a_projection :
  tlist_matches_tupdesc [column_entry 1; column_entry 2] 1
    [int4_column; int4_column] = true
  /\ tlist_matches_tupdesc [column_entry 2; column_entry 1] 1
       [int4_column; int4_column] = false
  /\ tlist_matches_tupdesc [column_entry 1] 1 [int4_column; int4_column] = false.
Proof. repeat split. Qed.


(** ** The columns of the hash entries *)

Lemma existsb_eqb_In (c : nat) (l : list nat) :
  existsb (Nat.eqb c) l = true <-> In c l.
Proof.
  rewrite existsb_exists. split.
  - intros (x & Hx & He). apply Nat.eqb_eq in He. subst. exact Hx.
  - intros H. exists c. split; [exact H|apply Nat.eqb_refl].
Qed.

Lemma bms_del_member_in (a : Bitmapset) (x c : nat) :
  In c (bms_del_member a x) <-> In c a /\ c <> x.
Proof.
  unfold bms_del_member. rewrite filter_In. rewrite negb_true_iff, Nat.eqb_neq.
  reflexivity.
Qed.

Lemma drop_ungrouped_in (grouped : Bitmapset) (all_grouped : list nat) :
  forall (colnos : Bitmapset) (c : nat),
    In c (drop_ungrouped all_grouped grouped colnos)
    <-> In c colnos /\ (In c all_grouped -> In c grouped).
Proof.
  induction all_grouped as [|a rest IH]; intros colnos c; simpl.
  - tauto.
  - rewrite IH. unfold bms_is_member.
    destruct (existsb (Nat.eqb a) grouped) eqn:Hm; simpl.
    + apply existsb_eqb_In in Hm. split.
      * intros [Hc Hr]. split; [exact Hc|]. intros [->|Hin]; auto.
      * intros [Hc Hr]. split; [exact Hc|]. auto.
    + rewrite bms_del_member_in. split.
      * intros [[Hc Hne] Hr]. split; [exact Hc|]. intros [->|Hin]; [congruence|auto].
      * intros [Hc Hr]. assert (Hne : c <> a).
        { intros ->. assert (Hin : In a grouped) by auto.
          apply existsb_eqb_In in Hin. congruence. }
        split; [split; assumption|]. auto.
Qed.

Lemma drop_ungrouped_length (grouped : Bitmapset) (all_grouped : list nat) :
  forall colnos : Bitmapset,
    (length (drop_ungrouped all_grouped grouped colnos) <= length colnos)%nat.
Proof.
  induction all_grouped as [|a rest IH]; intros colnos; simpl; [lia|].
  etransitivity; [apply IH|].
  destruct (negb (bms_is_member a grouped)); [|lia].
  unfold bms_del_member. apply filter_length_le.
Qed.

(** Filtering out the hashed columns. *)
Lemma filter_add_member (G : list nat) (a : Bitmapset) (x : nat) :
  In x G ->
  List.filter (fun c => negb (existsb (Nat.eqb c) G)) (bms_add_member a x)
  = List.filter (fun c => negb (existsb (Nat.eqb c) G)) a.
Proof.
  intros Hx. apply existsb_eqb_In in Hx.
  induction a as [|y a IH]; simpl.
  - rewrite Hx. reflexivity.
  - destruct (x <? y)%nat.
    + simpl. rewrite Hx. reflexivity.
    + destruct (x =? y)%nat; [reflexivity|]. simpl. rewrite IH. reflexivity.
Qed.

Lemma add_grouping_columns_spec (grp : list nat) (n : nat) :
  forall (i : nat) (colnos : Bitmapset),
    (i + n <= length grp)%nat ->
    exists colnos1,
      add_grouping_columns grp i n colnos = Done colnos1
      /\ forall G, (forall c, In c (take n (drop i grp)) -> In c G) ->
           List.filter (fun c => negb (existsb (Nat.eqb c) G)) colnos1
           = List.filter (fun c => negb (existsb (Nat.eqb c) G)) colnos.
Proof.
  induction n as [|n IH]; intros i colnos Hlen.
  - exists colnos. split; reflexivity.
  - simpl. destruct (lookup_lt_is_Some_2 grp i) as [c Hc]; [lia|].
    rewrite Hc. destruct (IH (S i) (bms_add_member colnos c)) as (colnos1 & H1 & Hf);
      [lia|].
    exists colnos1. split; [exact H1|]. intros G HG.
    rewrite (drop_S _ _ _ Hc) in HG. simpl in HG.
    rewrite Hf by (intros d Hd; apply HG; right; exact Hd).
    apply filter_add_member. apply HG. left. reflexivity.
Qed.

Lemma filter_del_member (a : Bitmapset) (x : nat) (G : list nat) :
  List.filter (fun c => negb (existsb (Nat.eqb c) G)) (bms_del_member a x)
  = List.filter (fun c => negb (existsb (Nat.eqb c) (x :: G))) a.
Proof.
  unfold bms_del_member. induction a as [|y a IH]; [reflexivity|].
  simpl. destruct (y =? x)%nat; simpl.
  - exact IH.
  - destruct (existsb (Nat.eqb y) G); simpl; rewrite IH; reflexivity.
Qed.

Lemma filter_ext_in_list (G G' : list nat) (a : list nat) :
  (forall c, In c G <-> In c G') ->
  List.filter (fun c => negb (existsb (Nat.eqb c) G)) a
  = List.filter (fun c => negb (existsb (Nat.eqb c) G')) a.
Proof.
  intros H. apply List.filter_ext. intros c. f_equal.
  destruct (existsb (Nat.eqb c) G) eqn:E1; destruct (existsb (Nat.eqb c) G') eqn:E2;
    try reflexivity.
  - apply existsb_eqb_In in E1. apply H in E1. apply existsb_eqb_In in E1. congruence.
  - apply existsb_eqb_In in E2. apply H in E2. apply existsb_eqb_In in E2. congruence.
Qed.

Lemma map_grouping_columns_spec (grp : list nat) (n : nat) :
  forall (i : nat) (hc : HashColumns),
    (i + n <= length grp)%nat ->
    (i + n <= length (hc_input hc))%nat ->
    (i + n <= length (hc_hash hc))%nat ->
    exists hc',
      map_grouping_columns grp i n hc = Done hc'
      /\ hc_input hc'
         = take i (hc_input hc) ++ take n (drop i grp)
           ++ drop (i + n) (hc_input hc)
      /\ hc_hash hc'
         = take i (hc_hash hc) ++ seq (S i) n ++ drop (i + n) (hc_hash hc)
      /\ hc_num hc' = (hc_num hc + n)%nat
      /\ forall G,
           List.filter (fun c => negb (existsb (Nat.eqb c) G)) (hc_colnos hc')
           = List.filter (fun c => negb (existsb (Nat.eqb c)
                                           (take n (drop i grp) ++ G)))
               (hc_colnos hc).
Proof.
  induction n as [|n IH]; intros i hc Hg Hi Hh.
  - exists hc. simpl. rewrite Nat.add_0_r, !take_drop.
    repeat split; try reflexivity. lia.
  - simpl. destruct (lookup_lt_is_Some_2 grp i) as [c Hc]; [lia|].
    rewrite Hc.
    assert (Hb : ((i <? length (hc_input hc))%nat
                  && (i <? length (hc_hash hc))%nat) = true).
    { apply andb_true_iff. split; apply Nat.ltb_lt; lia. }
    rewrite Hb.
    destruct (IH (S i)
                (mkHashColumns (<[i := c]> (hc_input hc))
                   (<[i := S i]> (hc_hash hc)) (S (hc_num hc))
                   (bms_del_member (hc_colnos hc) c)))
      as (hc' & H1 & Hin & Hha & Hnum & Hcol);
      [lia | simpl; rewrite length_insert; lia
      | simpl; rewrite length_insert; lia |].
    exists hc'. split; [exact H1|]. simpl in Hin, Hha, Hnum, Hcol.
    split; [|split; [|split]].
    + rewrite Hin. rewrite (drop_S _ _ _ Hc). simpl.
      rewrite (take_S_r _ _ c) by (apply list_lookup_insert_eq; lia).
      rewrite take_insert_ge by lia. rewrite drop_insert_lt by lia.
      rewrite <- app_assoc. replace (S (i + n)) with (i + S n)%nat by lia.
      reflexivity.
    + rewrite Hha. simpl.
      rewrite (take_S_r _ _ (S i)) by (apply list_lookup_insert_eq; lia).
      rewrite take_insert_ge by lia. rewrite drop_insert_lt by lia.
      rewrite <- app_assoc. replace (S (i + n)) with (i + S n)%nat by lia.
      reflexivity.
    + lia.
    + intros G. rewrite Hcol. rewrite filter_del_member.
      rewrite (drop_S _ _ _ Hc). simpl take.
      apply filter_ext_in_list. intros d. simpl. rewrite !in_app_iff. simpl.
      tauto.
Qed.

Lemma add_remaining_columns_spec (colnos : Bitmapset) :
  forall (input : list nat) (num : nat),
    (num + length colnos <= length input)%nat ->
    add_remaining_columns colnos input num
    = Done (take num input ++ colnos ++ drop (num + length colnos) input,
            (num + length colnos)%nat).
Proof.
  induction colnos as [|c rest IH]; intros input num Hlen; simpl.
  - rewrite Nat.add_0_r, take_drop. reflexivity.
  - simpl in Hlen.
    assert (Hb : (num <? length input)%nat = true) by (apply Nat.ltb_lt; lia).
    rewrite Hb. rewrite IH by (rewrite length_insert; lia).
    rewrite (take_S_r _ _ c) by (apply list_lookup_insert_eq; lia).
    rewrite take_insert_ge by lia. rewrite drop_insert_lt by lia.
    rewrite <- app_assoc. replace (S num + length rest)%nat
      with (num + S (length rest))%nat by lia.
    reflexivity.
Qed.

Lemma largest_column_spec (input : list nat) (outer_natts : nat) (n : nat) :
  forall (i largest : nat),
    (forall k c, (i <= k < i + n)%nat -> input !! k = Some c ->
       (1 <= c <= outer_natts)%nat) ->
    (i + n <= length input)%nat ->
    (largest <= outer_natts)%nat ->
    exists L,
      largest_column input outer_natts i n largest = Done L
      /\ (largest <= L <= outer_natts)%nat
      /\ forall k c, (i <= k < i + n)%nat -> input !! k = Some c -> (c <= L)%nat.
Proof.
  induction n as [|n IH]; intros i largest Hrange Hlen Hl.
  - exists largest. split; [reflexivity|]. split; [lia|]. intros k c Hk. lia.
  - simpl. destruct (lookup_lt_is_Some_2 input i) as [c Hc]; [lia|].
    rewrite Hc. destruct (Hrange i c) as [Hc1 Hc2]; [lia|exact Hc|].
    destruct c as [|v]; [lia|].
    assert (Hb : (v <? outer_natts)%nat = true) by (apply Nat.ltb_lt; lia).
    rewrite Hb.
    destruct (IH (S i) (Nat.max (S v) largest)) as (L & HL & Hbound & Hall);
      [intros k d Hk; apply Hrange; lia | lia | lia |].
    exists L. split; [exact HL|]. split; [lia|].
    intros k d Hk Hd. destruct (decide (k = i)) as [->|Hne].
    + assert (d = S v) by congruence. subst d. lia.
    + apply (Hall k d); [lia|exact Hd].
Qed.

Lemma filter_notin_nil (a : list nat) :
  List.filter (fun c => negb (existsb (Nat.eqb c) [])) a = a.
Proof.
  induction a as [|x a IH]; [reflexivity|]. simpl in *. rewrite IH. reflexivity.
Qed.

(** X20. [find_hash_columns] lays out the columns of a hash table
    without overrunning the array it allocates, also when a grouping column
    is listed twice: the hashed columns come first, as the plan lists them,
    numbered 1 and up in [hashGrpColIdxHash]; after them come exactly the
    columns that the target list or the qualifier use, that are not hashed and
    that the grouping set of the table does not read as null.
    [numhashGrpCols] counts both, the hash slot has that many columns, and
    [largestGrpColIdx] bounds every column listed. *)
Theorem find_hash_columns_layout (base_colnos : Bitmapset)
    (grouped_cols0 : option (list Bitmapset)) (all_grouped : list nat)
    (outer_natts j : nat) (grpColIdx' : list nat)
    (perhash' : AggStatePerHashData) :
  numhashGrpCols perhash' = 0%nat ->
  (ph_numCols perhash' <= length grpColIdx')%nat ->
  (forall gcs, grouped_cols0 = Some gcs -> (j < length gcs)%nat) ->
  Forall (fun c => (1 <= c <= outer_natts)%nat) base_colnos ->
  Forall (fun c => (1 <= c <= outer_natts)%nat)
    (take (ph_numCols perhash') grpColIdx') ->
  exists ph' hash extra,
    find_hash_columns_one base_colnos grouped_cols0 all_grouped outer_natts j
      grpColIdx' perhash' = Done (ph', hash)
    /\ hash = seq 1 (ph_numCols perhash')
    /\ numhashGrpCols ph' = (ph_numCols perhash' + length extra)%nat
    /\ (numhashGrpCols ph' <= length (hashGrpColIdxInput ph'))%nat
    /\ take (numhashGrpCols ph') (hashGrpColIdxInput ph')
       = take (ph_numCols perhash') grpColIdx' ++ extra
    /\ (forall c, In c extra
                  <-> stored_beside base_colnos grouped_cols0 all_grouped j
                        (take (ph_numCols perhash') grpColIdx') c)
    /\ Forall (fun c => (c <= largestGrpColIdx ph')%nat)
         (take (numhashGrpCols ph') (hashGrpColIdxInput ph'))
    /\ (largestGrpColIdx ph' <= outer_natts)%nat
    /\ length (tts_values (hashslot ph')) = numhashGrpCols ph'
    /\ length (tts_isnull (hashslot ph')) = numhashGrpCols ph'.
Proof.
  intros Hnum0 Hgrp Hj Hbase Hg.
  set (numCols := ph_numCols perhash') in *.
  set (G := take numCols grpColIdx') in *.
  assert (HGlen : length G = numCols) by (subst G; rewrite length_take; lia).
  (* the columns needed beside the hashed ones *)
  assert (Hsel : exists colnos,
            match grouped_cols0 with
            | None => Done base_colnos
            | Some gcs =>
                match gcs !! j with
                | None => Fail SEGV
                | Some grouped =>
                    Done (drop_ungrouped all_grouped grouped base_colnos)
                end
            end = Done colnos
            /\ (forall c, In c colnos
                          <-> In c base_colnos
                              /\ forall gcs grouped,
                                   grouped_cols0 = Some gcs ->
                                   gcs !! j = Some grouped ->
                                   In c all_grouped -> In c grouped)).
  { destruct grouped_cols0 as [gcs|].
    - destruct (lookup_lt_is_Some_2 gcs j) as [grouped Hgr]; [apply Hj; reflexivity|].
      rewrite Hgr. eexists. split; [reflexivity|]. intros c.
      rewrite drop_ungrouped_in. split.
      + intros [Hc Hr]. split; [exact Hc|]. intros gcs' grouped' E1 E2.
        assert (gcs' = gcs) by congruence. subst gcs'.
        pose proof (eq_trans (eq_sym Hgr) E2) as E3. injection E3 as <-.
        exact Hr.
      + intros [Hc Hr]. split; [exact Hc|]. exact (Hr gcs grouped eq_refl Hgr).
    - exists base_colnos. split; [reflexivity|]. intros c. split.
      + intros Hc. split; [exact Hc|]. discriminate.
      + intros [Hc _]. exact Hc. }
  destruct Hsel as (colnos & Hsel & Hcolnos).
  destruct (add_grouping_columns_spec grpColIdx' numCols 0 colnos)
    as (colnos1 & Hadd & Hf); [lia|]. rewrite drop_0 in Hf. fold G in Hf.
  destruct (map_grouping_columns_spec grpColIdx' numCols 0
              (mkHashColumns
                 (replicate (bms_num_members colnos + numCols) 0%nat)
                 (replicate numCols 0%nat) (numhashGrpCols perhash') colnos1))
    as (hc & Hmap & Hin & Hha & Hn & Hcol);
    [lia | simpl; rewrite length_replicate; lia
    | simpl; rewrite length_replicate; lia |].
  simpl in Hin, Hha, Hn, Hcol. rewrite drop_0 in Hin, Hcol. fold G in Hin, Hcol.
  rewrite Hnum0 in Hn. simpl in Hn.
  set (extra := List.filter (fun c => negb (existsb (Nat.eqb c) G)) colnos).
  assert (Hextra : hc_colnos hc = extra).
  { rewrite <- (filter_notin_nil (hc_colnos hc)). rewrite Hcol.
    rewrite app_nil_r. apply Hf. auto. }
  assert (Hextra_len : (length extra <= bms_num_members colnos)%nat)
    by (apply List.filter_length_le).
  assert (Hin_len : length (hc_input hc) = (bms_num_members colnos + numCols)%nat).
  { rewrite Hin, !length_app, length_drop, length_replicate. lia. }
  assert (Hrem : add_remaining_columns (hc_colnos hc) (hc_input hc) (hc_num hc)
                 = Done (G ++ extra
                           ++ drop (numCols + length extra) (hc_input hc),
                         (numCols + length extra)%nat)).
  { rewrite Hextra, Hn. rewrite add_remaining_columns_spec by lia.
    f_equal. f_equal. rewrite Hin. rewrite <- HGlen at 1.
    rewrite take_app_length. reflexivity. }
  set (input := G ++ extra ++ drop (numCols + length extra) (hc_input hc)) in *.
  assert (Htake : take (numCols + length extra) input = G ++ extra).
  { subst input. rewrite app_assoc.
    replace (numCols + length extra)%nat with (length (G ++ extra))
      by (rewrite length_app; lia).
    apply take_app_length. }
  assert (Hrange : forall c, In c (G ++ extra) -> (1 <= c <= outer_natts)%nat).
  { intros c Hc. apply in_app_iff in Hc. destruct Hc as [Hc|Hc].
    - rewrite Forall_forall in Hg. apply Hg. apply list_elem_of_In. exact Hc.
    - apply filter_In in Hc. destruct Hc as [Hc _]. apply Hcolnos in Hc.
      destruct Hc as [Hc _]. rewrite Forall_forall in Hbase. apply Hbase.
      apply list_elem_of_In. exact Hc. }
  assert (Hinput_len : (numCols + length extra <= length input)%nat).
  { subst input. rewrite !length_app, length_drop. lia. }
  destruct (largest_column_spec input outer_natts (numCols + length extra) 0 0)
    as (L & HL & HLb & HLall); [| lia | lia |].
  { intros k c Hk Hc. apply Hrange. rewrite <- Htake.
    apply list_elem_of_In. apply (list_elem_of_lookup_2 _ k).
    rewrite lookup_take_lt by lia. exact Hc. }
  exists (mkPerHash (hashtable perhash') (hashiter perhash')
            (mkSlot true false 0 (replicate (numCols + length extra) 0%Z)
               (replicate (numCols + length extra) false))
            (ht_same_key perhash') numCols (numCols + length extra) L input),
    (hc_hash hc), extra.
  split.
  { unfold find_hash_columns_one. fold numCols. rewrite Hsel.
    cbn [mbind outcome_bind]. rewrite Hadd. cbn [mbind outcome_bind].
    rewrite Hmap. cbn [mbind outcome_bind]. rewrite Hrem.
    cbn [mbind outcome_bind fst snd]. rewrite HL. reflexivity. }
  split.
  { rewrite Hha. simpl. rewrite drop_ge by (rewrite length_replicate; lia).
    apply app_nil_r. }
  cbn [numhashGrpCols hashGrpColIdxInput largestGrpColIdx hashslot tts_values
       tts_isnull].
  split; [reflexivity|]. split; [exact Hinput_len|]. split; [exact Htake|].
  split.
  { intros c. unfold stored_beside, extra. rewrite filter_In.
    rewrite negb_true_iff. rewrite Hcolnos. split.
    - intros [[Hb Hr] Hn']. split; [exact Hb|]. split; [|exact Hr].
      intros Hc. apply existsb_eqb_In in Hc. congruence.
    - intros (Hb & Hn' & Hr). split; [split; assumption|].
      destruct (existsb (Nat.eqb c) G) eqn:E; [|reflexivity].
      apply existsb_eqb_In in E. contradiction. }
  split.
  { apply Forall_forall. intros c Hc. apply list_elem_of_lookup_1 in Hc.
    destruct Hc as [k Hk]. apply lookup_take_Some in Hk. destruct Hk as [Hk Hlt].
    apply (HLall k c); [lia|exact Hk]. }
  split; [lia|]. rewrite !length_replicate. split; reflexivity.
Qed.

(** The grouping column 3 listed twice, the target list using the columns
    1, 3 and 4: the entries keep the columns 3, 3, 1, 4. *)
Lemma X20_witness :
  exists ph' hash extra,
    find_hash_columns_one [1; 3; 4]%nat None [] 4 0 [3; 3]%nat blank_perhash
    = Done (ph', hash)
    /\ hash = seq 1 (ph_numCols blank_perhash)
    /\ numhashGrpCols ph' = (ph_numCols blank_perhash + length extra)%nat
    /\ (numhashGrpCols ph' <= length (hashGrpColIdxInput ph'))%nat
    /\ take (numhashGrpCols ph') (hashGrpColIdxInput ph')
       = take (ph_numCols blank_perhash) [3; 3]%nat ++ extra
    /\ (forall c, In c extra
                  <-> stored_beside [1; 3; 4]%nat None [] 0
                        (take (ph_numCols blank_perhash) [3; 3]%nat) c)
    /\ Forall (fun c => (c <= largestGrpColIdx ph')%nat)
         (take (numhashGrpCols ph') (hashGrpColIdxInput ph'))
    /\ (largestGrpColIdx ph' <= 4)%nat
    /\ length (tts_values (hashslot ph')) = numhashGrpCols ph'
    /\ length (tts_isnull (hashslot ph')) = numhashGrpCols ph'.
Proof.
  apply (find_hash_columns_layout [1; 3; 4]%nat None [] 4 0 [3; 3]%nat
           blank_perhash).
  - reflexivity.
  - simpl. lia.
  - intros gcs E. discriminate E.
  - repeat constructor; lia.
  - repeat constructor; lia.
Defined.

Example duplicate_grouping_column_layout :
  match find_hash_columns_one [1; 3; 4]%nat None [] 4 0 [3; 3]%nat blank_perhash with
  | Done (ph', hash) =>
      hashGrpColIdxInput ph' = [3; 3; 1; 4; 0]%nat
      /\ numhashGrpCols ph' = 4%nat /\ largestGrpColIdx ph' = 4%nat
      /\ hash = [1; 2]%nat
  | Fail _ => False
  end.
Proof. vm_compute. repeat split. Qed.

(** ** Grouping sets over an empty input *)

Lemma skip_nonempty_sets_spec (ph : AggStatePerPhaseData) (gl : list nat)
    (n : nat) (fuel : nat) :
  gset_lengths ph = Some gl ->
  (n <= length gl)%nat ->
  forall (st : AggState) (p : nat),
    cur_phase st = Done ph ->
    projected_set st = Z.of_nat p ->
    (p < n)%nat ->
    (n - p <= fuel)%nat ->
    exists st',
      skip_nonempty_sets fuel n st = Done st'
      /\ input_done st' = input_done st /\ agg_done st' = agg_done st
      /\ store st' = store st /\ outerPlan st' = outerPlan st
      /\ ((exists k, projected_set st' = Z.of_nat k /\ (p <= k < n)%nat
                     /\ gl !! k = Some 0%nat
                     /\ forall i, (p <= i < k)%nat ->
                          exists len, gl !! i = Some len /\ (0 < len)%nat)
          \/ (projected_set st' = Z.of_nat n
              /\ forall i, (p <= i < n)%nat ->
                   exists len, gl !! i = Some len /\ (0 < len)%nat)).
Proof.
  intros Hgl Hn. induction fuel as [|fuel IH]; intros st p Hph Hps Hp Hfuel;
    [lia|].
  cbn [skip_nonempty_sets]. rewrite Hph. cbn [mbind outcome_bind].
  rewrite Hgl, Hps.
  assert (Hneg : (Z.of_nat p <? 0)%Z = false) by (apply Z.ltb_ge; lia).
  rewrite Hneg, Nat2Z.id.
  destruct (lookup_lt_is_Some_2 gl p) as [len Hlen]; [lia|].
  rewrite Hlen. destruct (0 <? len)%nat eqn:Hpos.
  - apply Nat.ltb_lt in Hpos. cbn [projected_set set_projected_set].
    destruct (Z.of_nat n <=? Z.of_nat p + 1)%Z eqn:Hend.
    + apply Z.leb_le in Hend. eexists. split; [reflexivity|].
      repeat (split; [reflexivity|]). right. cbn [projected_set set_projected_set].
      split; [lia|]. intros i Hi. assert (i = p) by lia. subst i.
      exists len. split; assumption.
    + apply Z.leb_gt in Hend.
      destruct (IH (set_projected_set st (Z.of_nat p + 1)) (S p))
        as (st' & Hrun & F1 & F2 & F3 & F4 & Hres);
        [exact Hph | cbn [projected_set set_projected_set]; lia | lia | lia |].
      exists st'. split; [exact Hrun|].
      repeat (split; [assumption|]).
      destruct Hres as [(k & Hk & Hrange & Hzero & Hbefore) | (Hk & Hall)].
      * left. exists k. split; [exact Hk|]. split; [lia|]. split; [exact Hzero|].
        intros i Hi. destruct (decide (i = p)) as [->|Hne].
        -- exists len. split; assumption.
        -- apply Hbefore. lia.
      * right. split; [exact Hk|]. intros i Hi.
        destruct (decide (i = p)) as [->|Hne].
        -- exists len. split; assumption.
        -- apply Hall. lia.
  - apply Nat.ltb_ge in Hpos. exists st. split; [reflexivity|].
    repeat (split; [reflexivity|]). left. exists p. split; [exact Hps|].
    split; [lia|]. split; [rewrite Hlen; f_equal; lia|]. intros i Hi. lia.
Qed.

(** X21. When the input has no rows and the query has grouping sets,
    the only groups projected are those of grouping sets without columns:
    [input_done] is set and [projected_set] is moved to the first grouping set
    of size 0, the sets before it all having columns; if every set has
    columns the projection is skipped altogether.  No transition state is
    touched, and [agg_done] is left as it is, for the phases to come. *)
Theorem empty_input_projects_first_empty_set (loc : DirectLocals)
    (aggstate : AggState) (ph : AggStatePerPhaseData) (gl : list nat) :
  cur_phase aggstate = Done ph ->
  gset_lengths ph = Some gl ->
  projected_set aggstate = 0%Z ->
  (0 < l_numGroupingSets loc <= length gl)%nat ->
  exists ctl st',
    no_input_tuples true loc aggstate = Done (ctl, loc, st')
    /\ input_done st' = true /\ agg_done st' = agg_done aggstate
    /\ store st' = store aggstate
    /\ ((ctl = Continue
         /\ exists k, projected_set st' = Z.of_nat k
                      /\ (k < l_numGroupingSets loc)%nat
                      /\ gl !! k = Some 0%nat
                      /\ forall i, (i < k)%nat ->
                           exists len, gl !! i = Some len /\ (0 < len)%nat)
        \/ (ctl = Break
            /\ projected_set st' = Z.of_nat (l_numGroupingSets loc)
            /\ forall i, (i < l_numGroupingSets loc)%nat ->
                 exists len, gl !! i = Some len /\ (0 < len)%nat)).
Proof.
  intros Hph Hgl Hps Hn. unfold no_input_tuples.
  destruct (skip_nonempty_sets_spec ph gl (l_numGroupingSets loc)
              (l_numGroupingSets loc) Hgl (proj2 Hn)
              (set_input_done aggstate true) 0)
    as (st' & Hrun & F1 & F2 & F3 & _ & Hres);
    [exact Hph | exact Hps | lia | lia |].
  rewrite Hrun. cbn [mbind outcome_bind].
  destruct Hres as [(k & Hk & Hrange & Hzero & Hbefore) | (Hk & Hall)].
  - exists Continue, st'. rewrite Hk.
    assert (Hlt : (Z.of_nat (l_numGroupingSets loc) <=? Z.of_nat k)%Z = false)
      by (apply Z.leb_gt; lia).
    rewrite Hlt. split; [reflexivity|]. split; [exact F1|].
    split; [exact F2|]. split; [exact F3|]. left. split; [reflexivity|].
    exists k. split; [reflexivity|]. split; [lia|]. split; [exact Hzero|].
    intros i Hi. apply Hbefore. lia.
  - exists Break, st'. rewrite Hk. rewrite Z.leb_refl.
    split; [reflexivity|]. split; [exact F1|]. split; [exact F2|].
    split; [exact F3|]. right. split; [reflexivity|]. split; [reflexivity|].
    intros i Hi. apply Hall. lia.
Qed.

(** [ROLLUP (x)] over no rows: the set [(x)] is skipped and the empty set is
    the one to project. *)
Lemma X21_witness :
  exists ctl st',
    no_input_tuples true rollup_all_locals rollup_all_state
    = Done (ctl, rollup_all_locals, st')
    /\ input_done st' = true /\ agg_done st' = agg_done rollup_all_state
    /\ store st' = store rollup_all_state
    /\ ((ctl = Continue
         /\ exists k, projected_set st' = Z.of_nat k
                      /\ (k < l_numGroupingSets rollup_all_locals)%nat
                      /\ [1%nat; 0%nat] !! k = Some 0%nat
                      /\ forall i, (i < k)%nat ->
                           exists len, [1%nat; 0%nat] !! i = Some len
                                       /\ (0 < len)%nat)
        \/ (ctl = Break
            /\ projected_set st'
               = Z.of_nat (l_numGroupingSets rollup_all_locals)
            /\ forall i, (i < l_numGroupingSets rollup_all_locals)%nat ->
                 exists len, [1%nat; 0%nat] !! i = Some len /\ (0 < len)%nat)).
Proof.
  apply (empty_input_projects_first_empty_set rollup_all_locals rollup_all_state
           rollup_all_phase [1%nat; 0%nat]).
  - reflexivity.
  - reflexivity.
  - reflexivity.
  - simpl. lia.
Defined.

Example rollup_of_nothing_projects_the_empty_set :
  match no_input_tuples true rollup_all_locals rollup_all_state with
  | Done (ctl, _, st') => ctl = Continue /\ projected_set st' = 1%Z
  | Fail _ => False
  end.
Proof. vm_compute. split; reflexivity. Qed.
